(** * enmime: the MIME encoding engine (encode.go)

    A shallow embedding of [encode.go] and of the properties its
    specification states about it.  Go byte slices are [list byte], Go
    strings are [string], Go [int] is [Z] (no computation here leaves the
    64-bit range for a slice that fits in memory), [textproto.MIMEHeader]
    and [map[string]string] are [gmap]s.  A method that mutates its part
    returns the part afterwards.  The output goes to a writer whose writes
    succeed, so a function that writes returns the bytes written; the
    errors that remain are those of the content reader and run-time
    panics. *)

From Stdlib Require Import ZArith Lia List Bool.
From Stdlib Require Import Strings.String Strings.Ascii Strings.Byte.
From stdpp Require Import base gmap strings list sorting.
Import ListNotations.

Local Open Scope Z_scope.

(** ** Bytes *)

Abbreviation bytes := (list byte).

(** [uint(b)]: the numeric value of a byte. *)
Definition val (b : byte) : Z := Z.of_N (Byte.to_N b).

(** [byte(z)]: Go's conversion to [byte] keeps the low eight bits. *)
Definition mk (z : Z) : byte :=
  match Byte.of_N (Z.to_N (z mod 256)) with
  | Some b => b
  | None => x00
  end.

(** [[]byte(s)] *)
Definition bytes_of (s : string) : bytes := list_byte_of_string s.

Definition LF : byte := x0a.
Definition CR : byte := x0d.
Definition TAB : byte := x09.
Definition SP : byte := x20.
Definition EQ : byte := x3d.

(** [var crnl = []byte{'\r', '\n'}] and [var nlnl = []byte{'\n', '\n'}] *)
Definition crnl : bytes := [CR; LF].
Definition nlnl : bytes := [LF; LF].

(** ** Transfer encodings *)

Definition b64Percent : Z := 20.

Inductive TransferEncoding : Set :=
| Te7Bit
| TeQuoted
| TeBase64
| TeRaw
| TeAuto.

Definition base64EncodedLineLen : Z := 76.
Definition base64DecodedLineLen : Z := base64EncodedLineLen * 3 / 4.
Definition linesPerChunk : Z := 128.
Definition readChunkSize : Z := base64DecodedLineLen * linesPerChunk.

(** ** selectTransferEncoding *)

(** [b == '\n' || b == '\r'] *)
Definition isLineBreak (b : byte) : bool :=
  (val b =? 10) || (val b =? 13).

(** [(b < ' ' || '~' < b) && b != '\t'] *)
Definition isControl (b : byte) : bool :=
  ((val b <? 32) || (126 <? val b)) && negb (val b =? 9).

(** The body of the [for _, b := range content] loop together with the code
    after it; the three counters are the loop's local variables. *)
Fixpoint selectLoop (quoteLineBreaks : bool) (threshold : Z) (content : bytes)
    (bincount maxLineLen lineLen : Z) : TransferEncoding :=
  match content with
  | [] =>
      let maxLineLen := if maxLineLen <? lineLen then lineLen else maxLineLen in
      if (bincount =? 0) && (maxLineLen <=? 78) then Te7Bit else TeQuoted
  | b :: rest =>
      let maxLineLen' :=
        if isLineBreak b
        then (if maxLineLen <? lineLen then lineLen else maxLineLen)
        else maxLineLen in
      let lineLen' := if isLineBreak b then 0 else lineLen + 1 in
      if isControl b then
        if negb quoteLineBreaks && isLineBreak b then
          selectLoop quoteLineBreaks threshold rest bincount maxLineLen' lineLen'
        else
          let bincount' := bincount + 1 in
          if bincount' >=? threshold then TeBase64
          else selectLoop quoteLineBreaks threshold rest bincount' maxLineLen' lineLen'
      else
        selectLoop quoteLineBreaks threshold rest bincount maxLineLen' lineLen'
  end.

Definition selectTransferEncoding (content : bytes) (quoteLineBreaks : bool)
  : TransferEncoding :=
  match content with
  | [] => Te7Bit
  | _ =>
      let threshold := b64Percent * Z.of_nat (length content) / 100 in
      selectLoop quoteLineBreaks threshold content 0 0 0
  end.

(** *** Vocabulary of the specification of the selector *)

(** A byte of the printable ASCII range 0x20-0x7E. *)
Definition printable (b : byte) : Prop := 32 <= val b <= 126.

(** A byte that counts towards the binary tally: outside the printable
    range, not a tab, and not a line break unless line breaks are quoted. *)
Definition qualifying (quoteLineBreaks : bool) (b : byte) : bool :=
  isControl b && (quoteLineBreaks || negb (isLineBreak b)).

(** Number of qualifying bytes of a sequence. *)
Fixpoint tally (quoteLineBreaks : bool) (c : bytes) : Z :=
  match c with
  | [] => 0
  | b :: rest =>
      (if qualifying quoteLineBreaks b then 1 else 0) + tally quoteLineBreaks rest
  end.

(** The lines of a sequence: the maximal runs of bytes between line-break
    bytes; [cur] is the run read so far. *)
Fixpoint splitLines (cur : bytes) (c : bytes) : list bytes :=
  match c with
  | [] => [cur]
  | b :: rest =>
      if isLineBreak b then cur :: splitLines [] rest
      else splitLines (cur ++ [b]) rest
  end.

Definition lines (c : bytes) : list bytes := splitLines [] c.

Definition shortLines (c : bytes) : Prop :=
  Forall (fun l => Z.of_nat (length l) <= 78) (lines c).

(** ** encoding/base64: [base64.StdEncoding] *)

(** The standard alphabet, [enc.encode]. *)
Definition encodeStd : bytes :=
  bytes_of "ABCDEFGHIJKLMNOPQRSTUVWXYZabcdefghijklmnopqrstuvwxyz0123456789+/".

(** [enc.encode[i]] *)
Definition b64char (i : Z) : byte := nth (Z.to_nat i) encodeStd x00.

(** [enc.EncodedLen(n)], padded. *)
Definition EncodedLen (n : Z) : Z := (n + 2) / 3 * 4.

(** [enc.Encode(dst, src)]: the bytes written to [dst].  Three source bytes
    make one 24-bit value and four characters; a final block of one or two
    bytes is padded with '='. *)
Fixpoint base64_Encode (src : bytes) : bytes :=
  match src with
  | a :: b :: c :: rest =>
      let v := Z.lor (Z.lor (Z.shiftl (val a) 16) (Z.shiftl (val b) 8)) (val c) in
      b64char (Z.land (Z.shiftr v 18) 63)
        :: b64char (Z.land (Z.shiftr v 12) 63)
        :: b64char (Z.land (Z.shiftr v 6) 63)
        :: b64char (Z.land v 63)
        :: base64_Encode rest
  | [a; b] =>
      let v := Z.lor (Z.shiftl (val a) 16) (Z.shiftl (val b) 8) in
      [b64char (Z.land (Z.shiftr v 18) 63);
       b64char (Z.land (Z.shiftr v 12) 63);
       b64char (Z.land (Z.shiftr v 6) 63);
       EQ]
  | [a] =>
      let v := Z.shiftl (val a) 16 in
      [b64char (Z.land (Z.shiftr v 18) 63);
       b64char (Z.land (Z.shiftr v 12) 63);
       EQ; EQ]
  | [] => []
  end.




(** ** mime/quotedprintable: [quotedprintable.Writer] *)

Definition lineMaxLen : Z := 76.

(** The writer's state: [qline] is [w.line[:w.i]], [qcr] is [w.cr] and
    [qout] is what has been written to the underlying writer. *)
Record qpWriter : Set := mkQP { qline : bytes; qcr : bool; qout : bytes }.

(** [quotedprintable.NewWriter]; the [Binary] field stays false. *)
Definition qpNewWriter : qpWriter := mkQP [] false [].

Definition isWhitespace (b : byte) : bool :=
  Byte.eqb b SP || Byte.eqb b TAB.

Definition upperhex : bytes := bytes_of "0123456789ABCDEF".

Definition hexdigit (i : Z) : byte := nth (Z.to_nat i) upperhex x00.

Definition qpFlush (w : qpWriter) : qpWriter :=
  mkQP [] (qcr w) (qout w ++ qline w).

Definition qpInsertCRLF (w : qpWriter) : qpWriter :=
  qpFlush (mkQP (qline w ++ [CR; LF]) (qcr w) (qout w)).

Definition qpInsertSoftLineBreak (w : qpWriter) : qpWriter :=
  qpInsertCRLF (mkQP (qline w ++ [EQ]) (qcr w) (qout w)).

(** [w.encode(b)] *)
Definition qpEncode (b : byte) (w : qpWriter) : qpWriter :=
  let w :=
    if lineMaxLen - 1 - Z.of_nat (length (qline w)) <? 3
    then qpInsertSoftLineBreak w else w in
  mkQP (qline w ++ [EQ; hexdigit (Z.shiftr (val b) 4); hexdigit (Z.land (val b) 15)])
       (qcr w) (qout w).

(** [w.checkLastByte()]: a space or tab that ends the line is encoded. *)
Definition qpCheckLastByte (w : qpWriter) : qpWriter :=
  match List.rev (qline w) with
  | [] => w
  | b :: front =>
      if isWhitespace b
      then qpEncode b (mkQP (List.rev front) (qcr w) (qout w))
      else w
  end.

(** One turn of the loop of [w.write(p)]. *)
Definition qpWriteByte (b : byte) (w : qpWriter) : qpWriter :=
  if isLineBreak b then
    if qcr w && Byte.eqb b LF then mkQP (qline w) false (qout w)
    else
      let w := if Byte.eqb b CR then mkQP (qline w) true (qout w) else w in
      qpInsertCRLF (qpCheckLastByte w)
  else
    let w :=
      if Z.of_nat (length (qline w)) =? lineMaxLen - 1
      then qpInsertSoftLineBreak w else w in
    mkQP (qline w ++ [b]) false (qout w).

(** The bytes [w.Write] hands to [w.write] unchanged: '!' to '~' except '=',
    space and tab, and (the writer not being binary) CR and LF. *)
Definition qpLiteral (b : byte) : bool :=
  ((33 <=? val b) && (val b <=? 126) && negb (Byte.eqb b EQ))
  || isWhitespace b || isLineBreak b.

(** [w.Write(p)].  The source hands maximal runs of literal bytes to
    [w.write] in one call; that call treats them one by one. *)
Fixpoint qpWrite (p : bytes) (w : qpWriter) : qpWriter :=
  match p with
  | [] => w
  | b :: rest =>
      qpWrite rest (if qpLiteral b then qpWriteByte b w else qpEncode b w)
  end.

(** [w.Close()] *)
Definition qpClose (w : qpWriter) : qpWriter :=
  qpFlush (qpCheckLastByte w).

(** Everything a fresh writer emits for [content]: [Write] then [Close]. *)
Definition quotedprintable_Encode (content : bytes) : bytes :=
  qout (qpClose (qpWrite content qpNewWriter)).



(** ** bytes.ReplaceAll(s, "\r\n", "\n") *)
Fixpoint replaceCRLF (s : bytes) : bytes :=
  match s with
  | [] => []
  | a :: rest =>
      match rest with
      | b :: rest' =>
          if Byte.eqb a CR && Byte.eqb b LF then LF :: replaceCRLF rest'
          else a :: replaceCRLF rest
      | [] => [a]
      end
  end.

(** ** Results of fallible code *)

Inductive error : Set :=
| ErrRead      (** the content reader returned an error other than [io.EOF] *)
| PanicIndex   (** run-time panic: index out of range *)
| Diverged.    (** a loop was cut off by the model's iteration bound *)

Inductive result (A : Type) : Type :=
| Ok (a : A)
| Err (e : error).
Arguments Ok {A} a.
Arguments Err {A} e.

#[global] Instance result_ret : MRet result := @Ok.
#[global] Instance result_bind : MBind result := fun A B f r =>
  match r with
  | Ok a => f a
  | Err e => Err e
  end.

(** The line terminator of the output mode: the [if useLF { '\n' } else
    { crnl }] that follows each line written. *)
Definition lineEnd (useLF : bool) : bytes := if useLF then [LF] else crnl.

(** ** io.Reader *)

Inductive ioError : Set :=
| EOF             (** [io.EOF] *)
| ErrUnexpected.  (** any other error *)

(** A content reader is the script of what its successive [Read] calls
    hold ready: some bytes and the error returned with them ([None] is
    [nil]).  By the contract of [io.Reader] a call may return fewer bytes
    than asked for, may return the last bytes together with [io.EOF], and
    returns [0, io.EOF] once exhausted. *)
Definition Reader : Type := list (bytes * option ioError).

(** [n, err := r.Read(buf)] with [len(buf) = cap]: the bytes stored in
    [buf[:n]], [err], and the reader afterwards.  Bytes that do not fit
    stay ready for the next call. *)
Definition Read (r : Reader) (cap : nat) : bytes * option ioError * Reader :=
  match r with
  | [] => ([], Some EOF, [])
  | (d, e) :: rest =>
      if (length d <=? cap)%nat then (d, e, rest)
      else (firstn cap d, None, (skipn cap d, e) :: rest)
  end.

(** The bytes a reader has yet to yield. *)
Definition pending (r : Reader) : bytes := concat (map fst r).

(** ** Base64 bodies *)

(** The loop [for len(text) > 0] of [encodeContent]: lines of 76 encoded
    characters, each followed by the line terminator. *)
Fixpoint wrapLines (fuel : nat) (text : bytes) (useLF : bool) : bytes :=
  match fuel with
  | O => []
  | S fuel =>
      match text with
      | [] => []
      | _ :: _ =>
          firstn 76 text ++ lineEnd useLF ++ wrapLines fuel (skipn 76 text) useLF
      end
  end.

(** The loop [for i := 0; i < n; i += base64DecodedLineLen] of
    [encodeContentFromReader] over [chunk[:n]]. *)
Fixpoint encodeLines (fuel : nat) (chunk : bytes) (useLF : bool) : bytes :=
  match fuel with
  | O => []
  | S fuel =>
      match chunk with
      | [] => []
      | _ :: _ =>
          let size := Z.to_nat base64DecodedLineLen in
          base64_Encode (firstn size chunk) ++ lineEnd useLF
            ++ encodeLines fuel (skipn size chunk) useLF
      end
  end.

(** The inner loop [for n < len(chunk)]: [chunk] is [chunk[:n]].  On
    [io.EOF] the loop is left before [n += c], so bytes returned together
    with [io.EOF] are not counted. *)
Fixpoint fillChunk (fuel : nat) (r : Reader) (chunk : bytes) : result (bytes * Reader) :=
  match fuel with
  | O => Err Diverged
  | S fuel =>
      if Z.of_nat (length chunk) <? readChunkSize then
        let '(d, e, r') := Read r (Z.to_nat readChunkSize - length chunk) in
        match e with
        | Some EOF => Ok (chunk, r')
        | Some ErrUnexpected => Err ErrRead
        | None => fillChunk fuel r' (chunk ++ d)
        end
      else Ok (chunk, r)
  end.

(** The outer [for] loop of [encodeContentFromReader]. *)
Fixpoint streamChunks (fuel : nat) (r : Reader) (chunk : bytes) (useLF : bool)
  : result bytes :=
  match fuel with
  | O => Err Diverged
  | S fuel =>
      '(chunk', r') ← fillChunk (S (length r)) r chunk;
      let out := encodeLines (length chunk') chunk' useLF in
      if Z.of_nat (length chunk') <? readChunkSize then Ok out
      else rest ← streamChunks fuel r' [] useLF; Ok (out ++ rest)
  end.

(** ** Parts *)

Record Parser : Set := mkParser { rawContent : bool }.

(** Modelled from the spec: the declaration of [Part] is outside src/.
    These are the fields [encode.go] reads and writes, with the types their
    uses show.  [FileModDate] counts the seconds since the zero
    [time.Time]; [randSource] stands for the state of the random source of
    boundary tokens; [parser] is nil for a part that was not parsed. *)
#[warnings="-register-all"]
Inductive Part : Type := mkPart {
  Header : gmap string (list string);
  Boundary : string;
  ContentID : string;
  ContentType : string;
  ContentTypeParams : gmap string string;
  Disposition : string;
  FileName : string;
  FileModDate : Z;
  Charset : string;
  Content : bytes;
  ContentReader : option Reader;
  FirstChild : option Part;
  NextSibling : option Part;
  parser : option Parser;
  randSource : Z
}.

Definition withHeader (h : gmap string (list string)) (p : Part) : Part :=
  mkPart h (Boundary p) (ContentID p) (ContentType p) (ContentTypeParams p)
    (Disposition p) (FileName p) (FileModDate p) (Charset p) (Content p)
    (ContentReader p) (FirstChild p) (NextSibling p) (parser p) (randSource p).

Definition withBoundary (b : string) (p : Part) : Part :=
  mkPart (Header p) b (ContentID p) (ContentType p) (ContentTypeParams p)
    (Disposition p) (FileName p) (FileModDate p) (Charset p) (Content p)
    (ContentReader p) (FirstChild p) (NextSibling p) (parser p) (randSource p).

Definition withContentType (t : string) (p : Part) : Part :=
  mkPart (Header p) (Boundary p) (ContentID p) t (ContentTypeParams p)
    (Disposition p) (FileName p) (FileModDate p) (Charset p) (Content p)
    (ContentReader p) (FirstChild p) (NextSibling p) (parser p) (randSource p).

Definition withDisposition (d : string) (p : Part) : Part :=
  mkPart (Header p) (Boundary p) (ContentID p) (ContentType p) (ContentTypeParams p)
    d (FileName p) (FileModDate p) (Charset p) (Content p)
    (ContentReader p) (FirstChild p) (NextSibling p) (parser p) (randSource p).

Definition withCharset (c : string) (p : Part) : Part :=
  mkPart (Header p) (Boundary p) (ContentID p) (ContentType p) (ContentTypeParams p)
    (Disposition p) (FileName p) (FileModDate p) c (Content p)
    (ContentReader p) (FirstChild p) (NextSibling p) (parser p) (randSource p).

Definition withContent (c : bytes) (r : option Reader) (p : Part) : Part :=
  mkPart (Header p) (Boundary p) (ContentID p) (ContentType p) (ContentTypeParams p)
    (Disposition p) (FileName p) (FileModDate p) (Charset p) c
    r (FirstChild p) (NextSibling p) (parser p) (randSource p).

(** *** Constants of the package

    Modelled from the spec: the constants are declared outside src/.
    [MIMEHeader] stores a field under the canonical spelling of its name. *)

Definition cteBase64 : string := "base64".
Definition cteQuotedPrintable : string := "quoted-printable".
Definition hnContentDisposition : string := "Content-Disposition".
Definition hnContentEncoding : string := "Content-Transfer-Encoding".
Definition hnContentID : string := "Content-ID".
Definition hnContentType : string := "Content-Type".
Definition hpBoundary : string := "boundary".
Definition hpCharset : string := "charset".
Definition hpFilename : string := "filename".
Definition hpName : string := "name".
Definition hpModDate : string := "modification-date".
Definition utf8 : string := "utf-8".

(** *** net/textproto: [MIMEHeader] *)

Definition asciiVal (c : ascii) : Z := Z.of_N (N_of_ascii c).

(** The bytes of a header field name (RFC 7230 token characters). *)
Definition validHeaderFieldByte (c : ascii) : bool :=
  let n := asciiVal c in
  ((48 <=? n) && (n <=? 57)) || ((65 <=? n) && (n <=? 90))
  || ((97 <=? n) && (n <=? 122))
  || existsb (Ascii.eqb c) (list_ascii_of_string "!#$%&'*+-.^_`|~").

Fixpoint canonicalLoop (upper : bool) (s : string) : string :=
  match s with
  | EmptyString => EmptyString
  | String c rest =>
      let n := asciiVal c in
      let c' :=
        if upper && (97 <=? n) && (n <=? 122) then ascii_of_N (Z.to_N (n - 32))
        else if negb upper && (65 <=? n) && (n <=? 90) then ascii_of_N (Z.to_N (n + 32))
        else c in
      String c' (canonicalLoop (Ascii.eqb c' "-") rest)
  end.

(** [textproto.CanonicalMIMEHeaderKey]: a key made of token bytes gets an
    upper-case letter first and after each hyphen and lower-case letters
    elsewhere; any other key is left as it is. *)
Definition CanonicalMIMEHeaderKey (s : string) : string :=
  if forallb validHeaderFieldByte (list_ascii_of_string s)
  then canonicalLoop true s else s.

(** [h.Set(key, value)] *)
Definition Header_Set (key value : string) (h : gmap string (list string))
  : gmap string (list string) :=
  <[CanonicalMIMEHeaderKey key := [value]]> h.

(** [h.Del(key)] *)
Definition Header_Del (key : string) (h : gmap string (list string))
  : gmap string (list string) :=
  delete (CanonicalMIMEHeaderKey key) h.

(** [setParamValue] ignores empty values. *)
Definition setParamValue (p : gmap string string) (k v : string) : gmap string string :=
  if String.eqb v "" then p else <[k := v]> p.

(** *** Collaborators

    The helpers [encode.go] calls that live outside it: other files of the
    package ([Part.TextContent], [stringutil.UUID], [stringutil.Wrap],
    [coding.ToIDHeader]) and the standard library ([mime.FormatMediaType],
    the RFC 2047 word encoders, [time.Time.Format]).  The engine is
    parameterised by them. *)
Class Collaborators : Type := {
  TextContent : Part -> bool;
  UUID : Z -> string;
  ToIDHeader : string -> string;
  FormatMediaType : string -> gmap string string -> string;
  BEncode : string -> string -> string;
  QEncode : string -> string -> string;
  FormatRFC822 : Z -> string;
  Wrap : Z -> byte -> bool -> list string -> bytes
}.

(** ** sort.Strings *)

(** The byte-wise order of Go strings. *)
Definition strLe (a b : string) : Prop := String.leb a b = true.

#[global] Instance strLe_dec : RelDecision strLe :=
  fun a b => bool_eq_dec (String.leb a b) true.

(** [sort.Strings]: ascending in the byte-wise order of Go strings.  The
    keys of a map are distinct, so every sorting algorithm returns the same
    list. *)
Definition sortStrings (keys : list string) : list string :=
  merge_sort strLe keys.

Section Engine.
Context `{!Collaborators}.

(** ** setupMIMEHeaders *)

(** The RFC 2047 encoding of a header value or file name, chosen by the
    selector with line breaks quoted. *)
Definition encodeWord (v : string) : string :=
  match selectTransferEncoding (bytes_of v) true with
  | TeBase64 => BEncode utf8 v
  | TeQuoted => QEncode utf8 v
  | _ => v
  end.

(** [setupMIMEHeaders] mutates the part and returns the transfer encoding.
    Its body is a sequence of steps, each given here as a function from the
    part before to the part after. *)

(** A part that previously had a transfer encoding set loses it, unless
    its parser keeps content raw. *)
Definition clearContentEncoding (p : Part) : Part :=
  match parser p with
  | Some ps =>
      if negb (rawContent ps)
      then withHeader (Header_Del hnContentEncoding (Header p)) p else p
  | None => p
  end.

(** "Determine content transfer encoding." *)
Definition determineEncoding (p : Part) (textCteHint : TransferEncoding)
  : Part * TransferEncoding :=
  if (0 <? length (Content p))%nat then
    let '(p, cte) :=
      if TextContent p && negb (bool_decide (is_Some (ContentReader p))) then
        let cte :=
          match textCteHint with
          | TeAuto => selectTransferEncoding (Content p) false
          | _ => textCteHint
          end in
        let p := if String.eqb (Charset p) "" then withCharset utf8 p else p in
        (p, cte)
      else (p, TeBase64) in
    (* RFC 2045: 7bit is assumed if CTE header not present. *)
    let p :=
      match cte with
      | TeBase64 => withHeader (Header_Set hnContentEncoding cteBase64 (Header p)) p
      | TeQuoted =>
          withHeader (Header_Set hnContentEncoding cteQuotedPrintable (Header p)) p
      | _ => p
      end in
    (p, cte)
  else (p, Te7Bit).

(** "Multipart, generate random boundary marker." *)
Definition generateBoundary (p : Part) : Part :=
  if bool_decide (is_Some (FirstChild p)) && String.eqb (Boundary p) ""
  then withBoundary ("enmime-" ++ UUID (randSource p)) p else p.

Definition setContentID (p : Part) : Part :=
  if negb (String.eqb (ContentID p) "")
  then withHeader (Header_Set hnContentID (ToIDHeader (ContentID p)) (Header p)) p
  else p.

(** "Build content type header." *)
Definition buildContentType (fileName : string) (p : Part) : Part :=
  if negb (String.eqb (ContentType p) "") then
    let param := ContentTypeParams p in
    let param := setParamValue param hpCharset (Charset p) in
    let param := setParamValue param hpName fileName in
    let param := setParamValue param hpBoundary (Boundary p) in
    let mt := FormatMediaType (ContentType p) param in
    let p := if negb (String.eqb mt "") then withContentType mt p else p in
    withHeader (Header_Set hnContentType (ContentType p) (Header p)) p
  else p.

(** "Build disposition header." *)
Definition buildDisposition (fileName : string) (p : Part) : Part :=
  if negb (String.eqb (Disposition p) "") then
    let param : gmap string string := ∅ in
    let param := setParamValue param hpFilename fileName in
    let param :=
      if negb (FileModDate p =? 0)
      then setParamValue param hpModDate (FormatRFC822 (FileModDate p))
      else param in
    let mt := FormatMediaType (Disposition p) param in
    let p := if negb (String.eqb mt "") then withDisposition mt p else p in
    withHeader (Header_Set hnContentDisposition (Disposition p) (Header p)) p
  else p.

Definition setupMIMEHeaders (p : Part) (textCteHint : TransferEncoding)
  : Part * TransferEncoding :=
  let p := clearContentEncoding p in
  let '(p, cte) := determineEncoding p textCteHint in
  let p := generateBoundary p in
  let p := setContentID p in
  let fileName := encodeWord (FileName p) in
  let p := buildContentType fileName p in
  let p := buildDisposition fileName p in
  (p, cte).

(** ** encodeHeader *)

(** One header line: the value is encoded, the line is folded by
    [stringutil.Wrap] with '_' holding the place of the blank after the
    colon, and [wb[len(k)+1] = ' '] puts the blank back. *)
Definition headerLine (k v nl : string) (wrapWithLFOnly : bool) : result bytes :=
  let encv := encodeWord v in
  let wb := Wrap 76 SP wrapWithLFOnly [k; ":_"; encv; nl] in
  let i := S (String.length k) in
  if (i <? length wb)%nat then Ok (<[i := SP]> wb) else Err PanicIndex.

(** The terminator of a header line; [last] says that the line is the last
    value of the last key. *)
Definition headerNewline (wrapWithLFOnly omitLastNewline last : bool) : string :=
  if omitLastNewline && last then ""
  else if wrapWithLFOnly then String "010" ""
  else String "013" (String "010" "").

(** [for j, v := range p.Header[k]]; [lastKey] is [i == len(keys)-1]. *)
Fixpoint encodeValues (k : string) (lastKey : bool) (vs : list string)
    (wrapWithLFOnly omitLastNewline : bool) : result bytes :=
  match vs with
  | [] => Ok []
  | v :: rest =>
      let last := lastKey && bool_decide (rest = []) in
      wb ← headerLine k v (headerNewline wrapWithLFOnly omitLastNewline last)
             wrapWithLFOnly;
      out ← encodeValues k lastKey rest wrapWithLFOnly omitLastNewline;
      Ok (wb ++ out)
  end.

(** [for i, k := range keys] *)
Fixpoint encodeKeys (h : gmap string (list string)) (keys : list string)
    (wrapWithLFOnly omitLastNewline : bool) : result bytes :=
  match keys with
  | [] => Ok []
  | k :: rest =>
      a ← encodeValues k (bool_decide (rest = [])) (default [] (h !! k))
            wrapWithLFOnly omitLastNewline;
      b ← encodeKeys h rest wrapWithLFOnly omitLastNewline;
      Ok (a ++ b)
  end.

(** [encodeHeader], given the order [iter] in which [for k := range
    p.Header] yields the keys (Go leaves that order unspecified). *)
Definition encodeHeaderFrom (iter : list string) (h : gmap string (list string))
    (wrapWithLFOnly omitLastNewline : bool) : result bytes :=
  encodeKeys h (sortStrings iter) wrapWithLFOnly omitLastNewline.

(** [encodeHeader], iterating in the order [map_to_list] enumerates. *)
Definition encodeHeader (p : Part) (wrapWithLFOnly omitLastNewline : bool)
  : result bytes :=
  encodeHeaderFrom (map_to_list (Header p)).*1 (Header p)
    wrapWithLFOnly omitLastNewline.

(** ** encodeContent *)

(** The [TeBase64] case: encode, then wrap at 76 characters. *)
Definition encodeBase64 (content : bytes) (useLF : bool) : bytes :=
  let text := base64_Encode content in
  wrapLines (length text) text useLF.

(** The [TeQuoted] case: with LF line ends the CRLFs of the
    quoted-printable writer are replaced. *)
Definition encodeQuoted (content : bytes) (useLF : bool) : bytes :=
  if useLF then replaceCRLF (quotedprintable_Encode content)
  else quotedprintable_Encode content.

(** [encodeContentFromReader]: [content] is [p.Content], the bytes of the
    first read issued by [EncodeCustom]. *)
Definition encodeContentFromReader (content : bytes) (r : Reader) (useLF : bool)
  : result bytes :=
  streamChunks (S (S (length (pending r)))) r
    (firstn (Z.to_nat readChunkSize) content) useLF.

Definition encodeContent (p : Part) (cte : TransferEncoding) (useLF : bool)
  : result bytes :=
  match ContentReader p with
  | Some r => encodeContentFromReader (Content p) r useLF
  | None =>
      let cte :=
        match parser p with
        | Some ps => if rawContent ps then TeRaw else cte
        | None => cte
        end in
      match cte with
      | TeBase64 => Ok (encodeBase64 (Content p) useLF)
      | TeQuoted => Ok (encodeQuoted (Content p) useLF)
      | _ => Ok (Content p)
      end
  end.

(** ** EncodeCustom *)

(** The first read, issued to see whether the content is empty. *)
Definition probe (p : Part) : result Part :=
  match ContentReader p with
  | None => Ok p
  | Some r =>
      let '(d, e, r') := Read r (Z.to_nat readChunkSize) in
      match e with
      | Some ErrUnexpected => Err ErrRead
      | _ => Ok (withContent d (Some r') p)
      end
  end.

(** The boundary markers: ["\n--" + Boundary] in LF mode, and in CRLF mode
    the end marker without its last two bytes. *)
Definition endMarker (boundary : string) (useLF : bool) : bytes :=
  if useLF then bytes_of (String "010" "--" ++ boundary ++ "--")
  else bytes_of (String "013" (String "010" "--") ++ boundary ++ "--").

Definition marker (boundary : string) (useLF : bool) : bytes :=
  if useLF then bytes_of (String "010" "--" ++ boundary)
  else
    let e := endMarker boundary false in
    firstn (length e - 2) e.

(** What [EncodeCustom] writes before the children: the header block, in LF
    mode two line feeds, and the content if there is any.  The result also
    carries the part as [setupMIMEHeaders] leaves it. *)
Definition encodeHead (p : Part) (textCte : TransferEncoding) (useLF : bool)
  : result (Part * bytes) :=
  p ← probe p;
  let '(p, cte) := setupMIMEHeaders p textCte in
  hdr ← encodeHeader p useLF useLF;
  let sep := if useLF then nlnl else [] in
  body ←
    (if (0 <? length (Content p))%nat then
       c ← encodeContent p cte useLF;
       Ok ((if useLF then [] else crnl) ++ c)
     else Ok []);
  Ok (p, hdr ++ sep ++ body).

(** [EncodeCustom]: the bytes written to [writer], or the error returned.
    The inner [siblings] is the loop [for c != nil] over the sibling chain
    that starts at [p.FirstChild]. *)
Fixpoint EncodeCustom (p : Part) (textCte : TransferEncoding) (useLF : bool)
    {struct p} : result bytes :=
  '(p', head) ← encodeHead p textCte useLF;
  match FirstChild p with
  | None => Ok head
  | Some c =>
      let mark := marker (Boundary p') useLF in
      kids ←
        (fix siblings (c : Part) {struct c} : result bytes :=
           out ← EncodeCustom c textCte useLF;
           rest ←
             match NextSibling c with
             | None => Ok []
             | Some s => siblings s
             end;
           Ok (mark ++ lineEnd useLF ++ out ++ rest)) c;
      Ok (head ++ kids ++ endMarker (Boundary p') useLF ++ lineEnd useLF)
  end.

(** The loop over the sibling chain, on its own. *)
Fixpoint encodeSiblings (c : Part) (mark : bytes) (textCte : TransferEncoding)
    (useLF : bool) {struct c} : result bytes :=
  out ← EncodeCustom c textCte useLF;
  rest ←
    match NextSibling c with
    | None => Ok []
    | Some s => encodeSiblings s mark textCte useLF
    end;
  Ok (mark ++ lineEnd useLF ++ out ++ rest).

(** [EncodeUsingCte] and [Encode] *)
Definition EncodeUsingCte (p : Part) (cte : TransferEncoding) : result bytes :=
  EncodeCustom p cte true.

Definition Encode (p : Part) : result bytes :=
  EncodeCustom p TeAuto true.

End Engine.

(** ** A stand-in for the collaborators

    Simple collaborators with which the engine can be run on concrete
    parts: text is what has no content type or a "text/" or "multipart/"
    one, the boundary token is fixed, a content ID is put in angle
    brackets, media types are printed without their parameters, header
    values are never folded and words are left unencoded. *)
Definition hasPrefix (pre s : string) : bool :=
  String.eqb (String.substring 0 (String.length pre) s) pre.

Definition plainCollaborators : Collaborators := {|
  TextContent p :=
    String.eqb (ContentType p) "" || hasPrefix "text/" (ContentType p)
    || hasPrefix "multipart/" (ContentType p);
  UUID _ := "00000000-0000-0000-0000-000000000000";
  ToIDHeader s := ("<" ++ s ++ ">")%string;
  FormatMediaType t _ := t;
  BEncode _ s := s;
  QEncode _ s := s;
  FormatRFC822 _ := "01 Jan 01 00:00 UTC";
  Wrap _ _ _ strs := concat (map bytes_of strs)
|}.

(** A part with nothing set. *)
Definition emptyPart : Part :=
  mkPart ∅ "" "" "" ∅ "" "" 0 "" [] None None None None 0.

Definition withChildren (first : option Part) (p : Part) : Part :=
  mkPart (Header p) (Boundary p) (ContentID p) (ContentType p) (ContentTypeParams p)
    (Disposition p) (FileName p) (FileModDate p) (Charset p) (Content p)
    (ContentReader p) first (NextSibling p) (parser p) (randSource p).

Definition withNextSibling (next : option Part) (p : Part) : Part :=
  mkPart (Header p) (Boundary p) (ContentID p) (ContentType p) (ContentTypeParams p)
    (Disposition p) (FileName p) (FileModDate p) (Charset p) (Content p)
    (ContentReader p) (FirstChild p) next (parser p) (randSource p).

Definition withParser (ps : option Parser) (p : Part) : Part :=
  mkPart (Header p) (Boundary p) (ContentID p) (ContentType p) (ContentTypeParams p)
    (Disposition p) (FileName p) (FileModDate p) (Charset p) (Content p)
    (ContentReader p) (FirstChild p) (NextSibling p) ps (randSource p).

(** * Vocabulary of the properties *)

(** ** Vocabulary of the selector's properties *)

(** A byte of 7-bit text: printable, a tab, or one of the line-break bytes. *)
Definition textByte (b : byte) : Prop :=
  printable b \/ b = TAB \/ b = LF \/ b = CR.

(** A byte that is printable or a tab. *)
Definition printableOrTab (b : byte) : Prop :=
  printable b \/ b = TAB.

(** The tally "reaches at least 20% of the input length at some prefix of
    the scan", read exactly. *)
Definition reachesFifth (q : bool) (c : bytes) : Prop :=
  exists n : nat, (n <= length c)%nat /\
    20 * Z.of_nat (length c) <= 100 * tally q (firstn n c).

(** The condition the code tests: some prefix holds at least one qualifying
    byte and at least [b64Percent * len / 100] of them, the quotient being
    Go's integer division. *)
Definition reachesThreshold (q : bool) (c : bytes) : Prop :=
  exists n : nat, (n <= length c)%nat /\
    1 <= tally q (firstn n c) /\
    b64Percent * Z.of_nat (length c) / 100 <= tally q (firstn n c).

(** ** Vocabulary of the header builder's properties *)

(** The field [Content-Transfer-Encoding] of a header. *)
Definition cteField (h : gmap string (list string)) : option (list string) :=
  h !! CanonicalMIMEHeaderKey hnContentEncoding.

(** The field [Content-Type] of a header. *)
Definition contentTypeField (h : gmap string (list string)) : option (list string) :=
  h !! CanonicalMIMEHeaderKey hnContentType.

(** A part whose old transfer encoding [setupMIMEHeaders] deletes: one that
    came from a parser that does not keep content raw. *)
Definition reparsed (p : Part) : bool :=
  match parser p with
  | Some ps => negb (rawContent ps)
  | None => false
  end.

(** The transfer encoding [setupMIMEHeaders] returns. *)
Definition chosenEncoding `{!Collaborators} (p : Part) (hint : TransferEncoding)
  : TransferEncoding :=
  if (0 <? length (Content p))%nat then
    if TextContent p && negb (bool_decide (is_Some (ContentReader p))) then
      match hint with
      | TeAuto => selectTransferEncoding (Content p) false
      | _ => hint
      end
    else TeBase64
  else Te7Bit.

(** A text part that is not the product of a parser, with content "hi" and
    a [Content-Transfer-Encoding] field left in its header, as after an
    earlier encoding of other content. *)
Definition staleEncodingPart : Part :=
  withHeader {[ "Content-Transfer-Encoding"%string := ["base64"%string] ]}
    (withContentType "text/plain" (withContent (bytes_of "hi") None emptyPart)).

(** A part without children on which a boundary has been set. *)
Definition leafWithBoundary : Part := withBoundary "xyz" emptyPart.

(** A part with two children, a charset and a file name but no content
    type. *)
Definition untypedMultipart : Part :=
  mkPart ∅ "" "" "" ∅ "" "a.txt" 0 "utf-8" [] None
    (Some (withNextSibling (Some (withContent (bytes_of "two") None emptyPart))
             (withContent (bytes_of "one") None emptyPart)))
    None None 0.

(** ** Vocabulary of the header encoder's properties *)

(** The loops of [encodeHeader] as the list of lines they write: field
    name, value and line terminator. *)
Fixpoint valueLines (k : string) (lastKey : bool) (vs : list string)
    (wrapWithLFOnly omitLastNewline : bool) : list (string * string * string) :=
  match vs with
  | [] => []
  | v :: rest =>
      (k, v, headerNewline wrapWithLFOnly omitLastNewline
                (lastKey && bool_decide (rest = [])))
        :: valueLines k lastKey rest wrapWithLFOnly omitLastNewline
  end.

Fixpoint keyLines (h : gmap string (list string)) (keys : list string)
    (wrapWithLFOnly omitLastNewline : bool) : list (string * string * string) :=
  match keys with
  | [] => []
  | k :: rest =>
      valueLines k (bool_decide (rest = [])) (default [] (h !! k))
        wrapWithLFOnly omitLastNewline
      ++ keyLines h rest wrapWithLFOnly omitLastNewline
  end.

(** The field names of a list of lines. *)
Definition fieldNames (ls : list (string * string * string)) : list string :=
  map (fun l => l.1.1) ls.

(** Writing a list of lines one after the other. *)
Fixpoint emitLines `{!Collaborators} (ls : list (string * string * string)) (wrapWithLFOnly : bool)
  : result bytes :=
  match ls with
  | [] => Ok []
  | (k, v, nl) :: rest =>
      wb ← headerLine k v nl wrapWithLFOnly;
      out ← emitLines rest wrapWithLFOnly;
      Ok (wb ++ out)
  end.

(** A header with two fields and two orders in which the map may yield
    its keys. *)
Definition twoFields : gmap string (list string) :=
  {[ "To"%string := ["a@example.org"%string];
     "Content-Type"%string := ["text/plain"%string] ]}.

(** ** Vocabulary of the composer's properties *)

(** The bytes [EncodeCustom] writes between the header block and the
    content: in LF mode always two line feeds; in CRLF mode a CRLF if there
    is content. *)
Definition separator (useLF : bool) (content : bytes) : bytes :=
  if useLF then nlnl
  else if (0 <? length content)%nat then crnl else [].

(** Number of places of [hay] at which [needle] occurs. *)
Fixpoint isPrefix (needle hay : bytes) : bool :=
  match needle, hay with
  | [], _ => true
  | _ :: _, [] => false
  | x :: needle', y :: hay' => Byte.eqb x y && isPrefix needle' hay'
  end.

Fixpoint occurrences (needle hay : bytes) : nat :=
  match hay with
  | [] => if isPrefix needle [] then 1 else 0
  | _ :: rest => (if isPrefix needle hay then 1 else 0) + occurrences needle rest
  end.

(** A part with a content type and neither content nor children. *)
Definition bareTextPart : Part := withContentType "text/plain" emptyPart.

(** ["\n--xyz\n"] and ["\n--xyz--\n"] *)
Definition openDelimiter : bytes := [LF] ++ bytes_of "--xyz" ++ [LF].
Definition closeDelimiter : bytes := [LF] ++ bytes_of "--xyz--" ++ [LF].


(** Scenario D: boundary "xyz" and two children with content. *)
Definition scenarioD : Part :=
  withBoundary "xyz"
    (withChildren
       (Some (withNextSibling (Some (withContent (bytes_of "two") None emptyPart))
                (withContent (bytes_of "one") None emptyPart)))
       emptyPart).

(** A part with boundary "xyz" and exactly two children, the first of which
    is itself a multipart with the same boundary and one child. *)
Definition nestedSameBoundary : Part :=
  withBoundary "xyz"
    (withChildren
       (Some (withNextSibling (Some emptyPart)
                (withBoundary "xyz" (withChildren (Some emptyPart) emptyPart))))
       emptyPart).

(** ** Vocabulary of the content encoder's properties *)









(** A part whose content is encoded as chosen, not passed through raw. *)
Definition notRaw (p : Part) : Prop :=
  match parser p with
  | Some ps => rawContent ps = false
  | None => True
  end.

(** Content with a NUL, DEL, bytes above 0x7F, '=' and a final blank. *)
Definition binaryPart : Part :=
  withContent [x00; x7f; x80; xff; x3d; x41; x20] None emptyPart.

(** All the lines of a piece of content. *)
Definition contentLines (c : bytes) (lf : bool) : bytes :=
  encodeLines (length c) c lf.

(** A reader none of whose reads returns an error: the end of the stream
    shows as [0, io.EOF] once the script is exhausted. *)
Definition noError (r : Reader) : Prop := Forall (fun de => de.2 = None) r.

(** The reader that yields the pieces [ds] one read at a time. *)
Definition script (ds : list bytes) : Reader := map (fun d => (d, None)) ds.

(** The body the streaming path writes for a reader: the first read of
    [EncodeCustom], then, if it returned anything, [encodeContent]. *)
Definition streamBody (r : Reader) (useLF : bool) : result bytes :=
  p ← probe (withContent [] (Some r) emptyPart);
  if (0 <? length (Content p))%nat then encodeContent p TeBase64 useLF else Ok [].

(** A reader that returns its last bytes together with [io.EOF], as the
    contract of [io.Reader] allows. *)
Definition eofWithData : Reader :=
  [(bytes_of "abc", None); (bytes_of "def", Some EOF)].

(** ** Vocabulary of the further properties *)

(** What [setupMIMEHeaders] has no business changing: the content and its
    reader, the links to other parts, and the fields it only reads. *)
Definition sameSource (p p' : Part) : Prop :=
  Content p' = Content p /\ ContentReader p' = ContentReader p /\
  FirstChild p' = FirstChild p /\ NextSibling p' = NextSibling p /\
  parser p' = parser p /\ FileName p' = FileName p /\
  ContentID p' = ContentID p /\ ContentTypeParams p' = ContentTypeParams p /\
  FileModDate p' = FileModDate p /\ randSource p' = randSource p.

(** The header fields [setupMIMEHeaders] builds, under the names the
    header stores them by. *)
Definition builtFields : list string :=
  map CanonicalMIMEHeaderKey
    [hnContentEncoding; hnContentID; hnContentType; hnContentDisposition].

(** A part whose content is classified as text when [setupMIMEHeaders]
    asks, that is after an old transfer encoding was cleared. *)
Definition textual `{!Collaborators} (p : Part) : bool :=
  TextContent (clearContentEncoding p).

(** The sibling chain that starts at a part. *)
Fixpoint siblingChain (c : Part) : list Part :=
  c :: match NextSibling c with
       | Some s => siblingChain s
       | None => []
       end.

(** The children of a part, in order. *)
Definition children (p : Part) : list Part :=
  match FirstChild p with
  | Some c => siblingChain c
  | None => []
  end.

(** A part whose charset [setupMIMEHeaders] fills in: buffered text content
    that is not empty, with no charset set. *)
Definition needsCharset `{!Collaborators} (p : Part) : Prop :=
  Content p <> [] /\ textual p = true /\ ContentReader p = None /\
  Charset p = ""%string.

(** The parameters of the [Content-Type] field, as the fields of a part
    give them. *)
Definition typeParams `{!Collaborators} (q : Part) : gmap string string :=
  setParamValue
    (setParamValue
       (setParamValue (ContentTypeParams q) hpCharset (Charset q))
       hpName (encodeWord (FileName q)))
    hpBoundary (Boundary q).

(** A part that keeps its content raw: it came from a parser that was told
    to. *)
Definition keepsRaw (p : Part) : Prop :=
  exists ps, parser p = Some ps /\ rawContent ps = true.

(** A parsed attachment whose content was kept raw. *)
Definition rawPart : Part :=
  withParser (Some (mkParser true))
    (withContentType "application/octet-stream"
       (withContent [x00; x7f; x80; xff; x3d; x41; x20] None emptyPart)).

(** A streamed part: content type and a reader that yields "hi". *)
Definition streamedPart : Part :=
  withContentType "text/plain"
    (withContent [] (Some [(bytes_of "hi", Some EOF)]) emptyPart).

(** The line terminator of a mode. *)
Definition lineBreak (wrapWithLFOnly : bool) : string :=
  if wrapWithLFOnly then String "010" "" else String "013" (String "010" "").

(** The last of the keys has a value in the header. *)
Definition lastFieldHasValue (h : gmap string (list string)) (keys : list string)
  : bool :=
  match last keys with
  | Some k => negb (bool_decide (default [] (h !! k) = []))
  | None => false
  end.

(** The field name and the value of each line. *)
Definition fieldValues (ls : list (string * string * string))
  : list (string * string) :=
  map (fun l => (l.1.1, l.1.2)) ls.

(** The terminator of each line. *)
Definition terminators (ls : list (string * string * string)) : list string :=
  map (fun l => l.2) ls.

(** The field names of a header in the order [encodeHeader] takes them. *)
Definition sortedKeys (h : gmap string (list string)) : list string :=
  sortStrings (map_to_list h).*1.

(** A header whose last field in sorted order has no value. *)
Definition emptyLastField : gmap string (list string) :=
  {[ "A"%string := ["1"%string]; "B"%string := [] ]}.

(** Lines of Base64 text as [encodeContent] cuts them: every line but the
    last has 76 characters, the last has between 1 and 76. *)
Fixpoint fullButLast (ls : list bytes) : Prop :=
  match ls with
  | [] => True
  | l :: rest =>
      match rest with
      | [] => (0 < length l <= 76)%nat
      | _ :: _ => length l = 76%nat /\ fullButLast rest
      end
  end.

(** Writing lines, each followed by the line terminator. *)
Definition terminated (ls : list bytes) (useLF : bool) : bytes :=
  concat (map (fun l => l ++ lineEnd useLF) ls).

(** The error a reader reports first; an exhausted reader reports
    [io.EOF]. *)
Fixpoint firstError (r : Reader) : ioError :=
  match r with
  | [] => EOF
  | (_, None) :: rest => firstError rest
  | (_, Some e) :: _ => e
  end.

(** The first read of [EncodeCustom] returns no byte, and no error other
    than [io.EOF]. *)
Definition emptyFirstRead (r : Reader) : bool :=
  match Read r (Z.to_nat readChunkSize) with
  | ([], Some ErrUnexpected, _) => false
  | ([], _, _) => true
  | _ => false
  end.

(** A reader that fails after its first piece. *)
Definition failingReader : Reader :=
  [(bytes_of "abc", None); (bytes_of "def", Some ErrUnexpected)].

(** A reader whose first read returns nothing and no error, although
    there is data to come. *)
Definition lateReader : Reader := [([], None); (bytes_of "abc", None)].

(** The delimiter line before a body part and the closing delimiter line
    of a multipart body, each with the line break that precedes it. *)
Definition delimiterLine (boundary : string) (useLF : bool) : bytes :=
  lineEnd useLF ++ bytes_of ("--" ++ boundary) ++ lineEnd useLF.

Definition closingLine (boundary : string) (useLF : bool) : bytes :=
  lineEnd useLF ++ bytes_of ("--" ++ boundary ++ "--") ++ lineEnd useLF.

(** The serializations of the children, each after a delimiter line. *)
Definition delimited (boundary : string) (useLF : bool) (outs : list bytes) : bytes :=
  concat (map (fun out => delimiterLine boundary useLF ++ out) outs).

(** The boundary of a part with children once [setupMIMEHeaders] has run:
    its own, or a generated one if it had none. *)
Definition boundaryInUse `{!Collaborators} (p : Part) : string :=
  if String.eqb (Boundary p) "" then ("enmime-" ++ UUID (randSource p))%string
  else Boundary p.

(** The parameters of the [Content-Disposition] field, as the fields of a
    part give them. *)
Definition dispositionParams `{!Collaborators} (q : Part) : gmap string string :=
  let param := setParamValue ∅ hpFilename (encodeWord (FileName q)) in
  if negb (FileModDate q =? 0)
  then setParamValue param hpModDate (FormatRFC822 (FileModDate q))
  else param.

(** A media type with its parameters, or the bare type if the formatter
    returns nothing. *)
Definition formatted `{!Collaborators} (t : string) (param : gmap string string)
  : string :=
  if String.eqb (FormatMediaType t param) "" then t else FormatMediaType t param.

(** An attachment with a file name and a content ID. *)
Definition attachmentPart : Part :=
  mkPart ∅ "" "cid1" "application/pdf" ∅ "attachment" "a.pdf" 0 ""
    [x25; x50; x44; x46] None None None None 0.

(** What [encodeHeader] relies on when it puts the blank after the colon:
    the folded line is longer than the field name and the colon. *)
Definition wrapKeepsKey `{!Collaborators} : Prop :=
  forall (lf : bool) (k v nl : string),
    (S (String.length k) < length (Wrap 76 SP lf [k; ":_"; v; nl]))%nat.

(** A part none of whose descendants and siblings, nor itself, has a
    content reader. *)
Fixpoint buffered (p : Part) : Prop :=
  match p with
  | mkPart _ _ _ _ _ _ _ _ _ _ cr fc ns _ _ =>
      cr = None /\
      match fc with Some c => buffered c | None => True end /\
      match ns with Some s => buffered s | None => True end
  end.

(** A line of an encoded body: at most 76 bytes, each printable ASCII or a
    tab, the bytes [selectTransferEncoding] never counts. *)
Definition cleanLine (l : bytes) : Prop :=
  Forall (fun b => isControl b = false) l /\ (length l <= 76)%nat.

(** What the quoted-printable writer keeps true: complete lines have been
    written out, and the line being built has room for a soft line
    break. *)
Definition qpShape (w : qpWriter) : Prop :=
  (exists ls, qout w = terminated ls false /\ Forall cleanLine ls) /\
  Forall (fun b => isControl b = false) (qline w) /\
  (length (qline w) <= 75)%nat.



(** A part with content whose last header field in sorted order has no
    value, and a part with content and no header field at all. *)
Definition emptyLastFieldPart : Part :=
  withHeader emptyLastField (withContent (bytes_of "one") None emptyPart).

Definition headerlessPart : Part := withContent (bytes_of "one") None emptyPart.


(** ** Vocabulary of termination *)

(** A result that is not the cut-off of a loop by the model's bound. *)
Definition ends {A : Type} (r : result A) : Prop := r <> Err Diverged.

(** * Properties *)

(** ** Bytes *)

Lemma val_range (b : byte) : 0 <= val b < 256.
Proof.
  unfold val. pose proof (Byte.to_N_bounded b). lia.
Qed.

Lemma val_inj (a b : byte) : val a = val b -> a = b.
Proof.
  unfold val. intros H. apply N2Z.inj in H.
  pose proof (Byte.of_to_N a) as Ha. rewrite H, Byte.of_to_N in Ha.
  congruence.
Qed.

Lemma mk_val (b : byte) : mk (val b) = b.
Proof.
  unfold mk. rewrite Z.mod_small by apply val_range.
  unfold val. rewrite N2Z.id, Byte.of_to_N. reflexivity.
Qed.

Lemma val_mk (z : Z) : 0 <= z < 256 -> val (mk z) = z.
Proof.
  intros Hz. unfold mk. rewrite Z.mod_small by assumption.
  destruct (Byte.of_N (Z.to_N z)) as [b|] eqn:E.
  - apply Byte.to_of_N in E. unfold val. rewrite E. lia.
  - apply Byte.of_N_None_iff in E. lia.
Qed.

(** ** The encoding selector *)

Lemma isLineBreak_spec (b : byte) : isLineBreak b = true <-> b = LF \/ b = CR.
Proof.
  unfold isLineBreak. rewrite orb_true_iff, !Z.eqb_eq. split.
  - intros [H|H]; [left|right]; apply val_inj; exact H.
  - intros [->| ->]; [left|right]; reflexivity.
Qed.

Lemma isLineBreak_isControl (b : byte) : isLineBreak b = true -> isControl b = true.
Proof.
  intros H. apply isLineBreak_spec in H. destruct H as [->| ->]; reflexivity.
Qed.

Lemma isControl_false (b : byte) : isControl b = false <-> printableOrTab b.
Proof.
  unfold isControl, printableOrTab, printable. split.
  - intros H. destruct (val b =? 9) eqn:E9.
    + right. apply val_inj. apply Z.eqb_eq in E9. exact E9.
    + left. rewrite andb_true_r in H. apply orb_false_iff in H. lia.
  - intros [H| ->]; [|reflexivity].
    replace (val b <? 32) with false by lia.
    replace (126 <? val b) with false by lia. reflexivity.
Qed.

Lemma qualifying_false_textByte (b : byte) : qualifying false b = false <-> textByte b.
Proof.
  unfold qualifying, textByte. simpl. split.
  - intros H. apply andb_false_iff in H. destruct H as [H|H].
    + apply isControl_false in H. destruct H; auto.
    + apply negb_false_iff, isLineBreak_spec in H. tauto.
  - intros [H|[H|H]].
    + replace (isControl b) with false; [reflexivity|].
      symmetry. apply isControl_false. left. exact H.
    + subst. reflexivity.
    + replace (isLineBreak b) with true; [apply andb_false_r|].
      symmetry. apply isLineBreak_spec. exact H.
Qed.

Lemma tally_nonneg q (c : bytes) : 0 <= tally q c.
Proof.
  induction c as [|b c IH]; simpl; [lia|]. destruct (qualifying q b); lia.
Qed.

Lemma tally_app q (a b : bytes) : tally q (a ++ b) = tally q a + tally q b.
Proof.
  induction a as [|x a IH]; simpl; [reflexivity|]. rewrite IH. lia.
Qed.

Lemma tally_firstn_le q (n : nat) (c : bytes) : tally q (firstn n c) <= tally q c.
Proof.
  rewrite <- (firstn_skipn n c) at 2. rewrite tally_app.
  pose proof (tally_nonneg q (skipn n c)). lia.
Qed.

(** The loop's case analysis, by whether the byte counts as binary. *)
Lemma selectLoop_step q T b rest bc ml ll :
  selectLoop q T (b :: rest) bc ml ll =
  let ml' := if isLineBreak b then Z.max ml ll else ml in
  let ll' := if isLineBreak b then 0 else ll + 1 in
  if qualifying q b then
    if bc + 1 >=? T then TeBase64 else selectLoop q T rest (bc + 1) ml' ll'
  else selectLoop q T rest bc ml' ll'.
Proof.
  cbn [selectLoop]. unfold qualifying.
  assert (Hmax : (if ml <? ll then ll else ml) = Z.max ml ll).
  { destruct (Z.ltb_spec ml ll); lia. }
  rewrite Hmax.
  destruct (isControl b) eqn:Ec; [|reflexivity].
  destruct q, (isLineBreak b); reflexivity.
Qed.

(** Once a binary byte has been counted the selector never answers 7-bit. *)
Lemma selectLoop_counted q T c bc ml ll :
  0 < bc -> selectLoop q T c bc ml ll <> Te7Bit.
Proof.
  revert bc ml ll. induction c as [|b c IH]; intros bc ml ll Hbc.
  - simpl. replace (bc =? 0) with false by lia. discriminate.
  - rewrite selectLoop_step. cbv zeta.
    destruct (qualifying q b).
    + destruct (bc + 1 >=? T); [discriminate|]. apply IH. lia.
    + apply IH. exact Hbc.
Qed.

Lemma selectLoop_7bit T c cur ml :
  selectLoop false T c 0 ml (Z.of_nat (length cur)) = Te7Bit <->
  Forall textByte c /\ ml <= 78 /\
  Forall (fun l => Z.of_nat (length l) <= 78) (splitLines cur c).
Proof.
  revert cur ml. induction c as [|b c IH]; intros cur ml.
  - simpl. rewrite Forall_singleton.
    destruct (Z.ltb_spec ml (Z.of_nat (length cur))).
    + destruct (Z.leb_spec (Z.of_nat (length cur)) 78); split;
        try discriminate; intros; repeat split; try constructor; lia.
    + destruct (Z.leb_spec ml 78); split;
        try discriminate; intros; repeat split; try constructor; lia.
  - rewrite selectLoop_step. cbv zeta. rewrite Forall_cons.
    destruct (qualifying false b) eqn:Eq.
    + assert (Hb : ~ textByte b).
      { intros Hb. apply qualifying_false_textByte in Hb. congruence. }
      split; [|tauto].
      destruct (0 + 1 >=? T); [discriminate|].
      intros H. exfalso. revert H. apply selectLoop_counted. lia.
    + apply qualifying_false_textByte in Eq. simpl splitLines.
      destruct (isLineBreak b) eqn:El.
      * change 0 with (Z.of_nat (length (@nil byte))) at 2.
        rewrite IH, Forall_cons. split; intros; repeat split; try tauto; lia.
      * replace (Z.of_nat (length cur) + 1) with (Z.of_nat (length (cur ++ [b])))
          by (rewrite length_app; simpl; lia).
        rewrite IH. tauto.
Qed.

(** C1, as amended: with line breaks transparent, the selector answers
    7-bit exactly when every byte is printable ASCII, a tab, or one of the
    line-break bytes LF and CR, and no line is longer than 78 bytes. *)
Theorem selectTransferEncoding_7bit_iff (c : bytes) :
  selectTransferEncoding c false = Te7Bit <-> Forall textByte c /\ shortLines c.
Proof.
  destruct c as [|b c].
  - simpl. split; [|reflexivity]. intros _. split; [constructor|].
    unfold shortLines, lines. simpl. constructor; [simpl; lia | constructor].
  - unfold selectTransferEncoding, shortLines, lines.
    change 0 with (Z.of_nat (length (@nil byte))) at 3.
    rewrite selectLoop_7bit. split; intros; repeat split; try tauto; lia.
Qed.

(** C1, as the specification words it (every byte printable or a tab), fails
    on its own Scenario A: "Hello, World!\r\n" is 7-bit although CR and LF
    lie outside 0x20-0x7E. *)
Lemma selectTransferEncoding_7bit_linebreaks :
  ~ (selectTransferEncoding (bytes_of "Hello, World!" ++ [CR; LF]) false = Te7Bit <->
     Forall printableOrTab (bytes_of "Hello, World!" ++ [CR; LF]) /\
     shortLines (bytes_of "Hello, World!" ++ [CR; LF])).
Proof.
  intros [H _]. specialize (H eq_refl). destruct H as [H _].
  apply Forall_app in H. destruct H as [_ H].
  apply Forall_cons in H. destruct H as [[H|H] _].
  - unfold printable in H. vm_compute in H. destruct H as [H _]. apply H. reflexivity.
  - discriminate H.
Qed.

(** The selector answers Base64 exactly when the scan meets a qualifying
    byte at which the running tally has reached the threshold. *)
Lemma selectLoop_base64 q T c bc ml ll :
  selectLoop q T c bc ml ll = TeBase64 <-> 1 <= tally q c /\ T <= bc + tally q c.
Proof.
  revert bc ml ll. induction c as [|b c IH]; intros bc ml ll.
  - simpl. split; [|lia].
    destruct ((bc =? 0) && _); discriminate.
  - rewrite selectLoop_step. cbv zeta. simpl tally.
    pose proof (tally_nonneg q c) as Hc.
    destruct (qualifying q b).
    + destruct (Z.geb_spec (bc + 1) T) as [Hge|Hlt].
      * split; [lia|reflexivity].
      * rewrite IH. lia.
    + rewrite IH. lia.
Qed.

(** C2, as amended: for both values of the flag the selector answers Base64
    exactly when, at some prefix of the scan, the tally of qualifying bytes
    is at least one and at least 20 * len / 100 rounded down. *)
Theorem selectTransferEncoding_base64_iff (c : bytes) (q : bool) :
  selectTransferEncoding c q = TeBase64 <-> reachesThreshold q c.
Proof.
  unfold reachesThreshold.
  assert (Hall : forall T, (1 <= tally q c /\ T <= tally q c) <->
            exists n : nat, (n <= length c)%nat /\
              1 <= tally q (firstn n c) /\ T <= tally q (firstn n c)).
  { intros T. split.
    - intros H. exists (length c). rewrite firstn_all. split; [lia|exact H].
    - intros (n & _ & H1 & H2). pose proof (tally_firstn_le q n c). lia. }
  destruct c as [|b c].
  - split; [discriminate|].
    intros (n & _ & H & _). rewrite firstn_nil in H. simpl in H. lia.
  - rewrite <- Hall. unfold selectTransferEncoding.
    rewrite selectLoop_base64. reflexivity.
Qed.

(** C2, read exactly, fails in both directions: on the empty input the
    empty prefix reaches 20% of length 0 and the answer is 7-bit; on nine
    bytes of which one is binary (11%) the answer is Base64, because the
    threshold 20 * 9 / 100 is 1. *)
Lemma selectTransferEncoding_base64_rounding :
  (reachesFifth false [] /\ selectTransferEncoding [] false = Te7Bit) /\
  (selectTransferEncoding (x80 :: bytes_of "abcdefgh") false = TeBase64 /\
   ~ reachesFifth false (x80 :: bytes_of "abcdefgh")).
Proof.
  split; [split; [|reflexivity]|split; [reflexivity|]].
  - exists 0%nat. simpl. lia.
  - intros (n & _ & H).
    pose proof (tally_firstn_le false n (x80 :: bytes_of "abcdefgh")) as Hle.
    change (tally false (x80 :: bytes_of "abcdefgh")) with 1 in Hle.
    change (Z.of_nat (length (x80 :: bytes_of "abcdefgh"))) with 9 in H. lia.
Qed.

(** Scenarios A, B and C of the specification. *)
Example scenarioA :
  selectTransferEncoding (bytes_of "Hello, World!" ++ [CR; LF]) false = Te7Bit.
Proof. reflexivity. Qed.

Example scenarioB :
  selectTransferEncoding (repeat x80 3 ++ repeat x41 7) false = TeBase64.
Proof. reflexivity. Qed.

Example scenarioC :
  selectTransferEncoding (repeat x41 100) false = TeQuoted.
Proof. reflexivity. Qed.

(** ** The MIME header builder *)

Lemma Header_Set_lookup_ne (k k' v : string) (h : gmap string (list string)) :
  CanonicalMIMEHeaderKey k <> k' -> Header_Set k v h !! k' = h !! k'.
Proof. intros Hne. unfold Header_Set. apply lookup_insert_ne. exact Hne. Qed.

Lemma Header_Set_lookup (k v : string) (h : gmap string (list string)) :
  Header_Set k v h !! CanonicalMIMEHeaderKey k = Some [v].
Proof. unfold Header_Set. apply lookup_insert_eq. Qed.

Section Setup.
Context `{!Collaborators}.

Local Tactic Notation "step_cases" reference(f) :=
  unfold f; repeat case_match; simplify_eq; simpl; try reflexivity.

(** *** What each step leaves alone *)

Lemma clearContentEncoding_frame (p : Part) :
  let p' := clearContentEncoding p in
  FirstChild p' = FirstChild p /\ Boundary p' = Boundary p /\
  ContentType p' = ContentType p /\ Content p' = Content p /\
  ContentReader p' = ContentReader p.
Proof. step_cases clearContentEncoding; auto. Qed.

Lemma clearContentEncoding_cteField (p : Part) :
  cteField (Header (clearContentEncoding p)) =
  if reparsed p then None else cteField (Header p).
Proof.
  unfold clearContentEncoding, reparsed, cteField.
  destruct (parser p) as [ps|]; [|reflexivity].
  destruct (rawContent ps); simpl; [reflexivity|].
  unfold Header_Del. apply lookup_delete_eq.
Qed.

Lemma clearContentEncoding_contentTypeField (p : Part) :
  contentTypeField (Header (clearContentEncoding p)) = contentTypeField (Header p).
Proof.
  unfold clearContentEncoding, contentTypeField.
  destruct (parser p) as [ps|]; [|reflexivity].
  destruct (rawContent ps); simpl; [reflexivity|].
  unfold Header_Del. apply lookup_delete_ne. discriminate.
Qed.

Lemma determineEncoding_frame (p : Part) (hint : TransferEncoding) :
  let p' := (determineEncoding p hint).1 in
  FirstChild p' = FirstChild p /\ Boundary p' = Boundary p /\
  ContentType p' = ContentType p /\ Content p' = Content p.
Proof. step_cases determineEncoding; auto. Qed.

Lemma determineEncoding_contentTypeField (p : Part) (hint : TransferEncoding) :
  contentTypeField (Header (determineEncoding p hint).1) = contentTypeField (Header p).
Proof.
  unfold contentTypeField.
  step_cases determineEncoding; apply Header_Set_lookup_ne; discriminate.
Qed.

Lemma determineEncoding_cte (p : Part) (hint : TransferEncoding) :
  (determineEncoding p hint).2 = chosenEncoding p hint.
Proof.
  unfold determineEncoding, chosenEncoding.
  destruct (0 <? length (Content p))%nat; [|reflexivity].
  destruct (TextContent p && _); reflexivity.
Qed.

Lemma determineEncoding_cteField (p : Part) (hint : TransferEncoding) :
  Content p <> [] ->
  cteField (Header (determineEncoding p hint).1) =
  match chosenEncoding p hint with
  | TeBase64 => Some [cteBase64]
  | TeQuoted => Some [cteQuotedPrintable]
  | _ => cteField (Header p)
  end.
Proof.
  intros Hc. unfold determineEncoding, chosenEncoding, cteField.
  assert (Hlen : (0 <? length (Content p))%nat = true).
  { destruct (Content p); [congruence|reflexivity]. }
  rewrite Hlen.
  destruct (TextContent p && _).
  - destruct (match hint with TeAuto => _ | _ => hint end);
      destruct (String.eqb (Charset p) ""); simpl;
      first [reflexivity | apply Header_Set_lookup].
  - simpl. apply Header_Set_lookup.
Qed.

Lemma generateBoundary_frame (p : Part) :
  let p' := generateBoundary p in
  FirstChild p' = FirstChild p /\ Header p' = Header p /\
  ContentType p' = ContentType p /\ Content p' = Content p.
Proof. step_cases generateBoundary; auto. Qed.

Lemma setContentID_frame (p : Part) :
  let p' := setContentID p in
  FirstChild p' = FirstChild p /\ Boundary p' = Boundary p /\
  ContentType p' = ContentType p /\ Content p' = Content p.
Proof. step_cases setContentID; auto. Qed.

Lemma setContentID_fields (p : Part) :
  cteField (Header (setContentID p)) = cteField (Header p) /\
  contentTypeField (Header (setContentID p)) = contentTypeField (Header p).
Proof.
  unfold cteField, contentTypeField.
  step_cases setContentID; auto.
  split; apply Header_Set_lookup_ne; discriminate.
Qed.

Lemma buildContentType_frame (fileName : string) (p : Part) :
  let p' := buildContentType fileName p in
  FirstChild p' = FirstChild p /\ Boundary p' = Boundary p /\
  Content p' = Content p.
Proof. step_cases buildContentType; auto. Qed.

Lemma buildContentType_cteField (fileName : string) (p : Part) :
  cteField (Header (buildContentType fileName p)) = cteField (Header p).
Proof.
  unfold cteField.
  step_cases buildContentType; apply Header_Set_lookup_ne; discriminate.
Qed.

(** Without a content type the step does nothing at all. *)
Lemma buildContentType_empty (fileName : string) (p : Part) :
  ContentType p = ""%string -> buildContentType fileName p = p.
Proof. intros Hct. unfold buildContentType. rewrite Hct. reflexivity. Qed.

Lemma buildDisposition_frame (fileName : string) (p : Part) :
  let p' := buildDisposition fileName p in
  FirstChild p' = FirstChild p /\ Boundary p' = Boundary p /\
  ContentType p' = ContentType p /\ Content p' = Content p.
Proof. step_cases buildDisposition; auto. Qed.

Lemma buildDisposition_fields (fileName : string) (p : Part) :
  cteField (Header (buildDisposition fileName p)) = cteField (Header p) /\
  contentTypeField (Header (buildDisposition fileName p)) = contentTypeField (Header p).
Proof.
  unfold cteField, contentTypeField.
  step_cases buildDisposition; auto;
    split; apply Header_Set_lookup_ne; discriminate.
Qed.

(** *** The whole of [setupMIMEHeaders] *)

Lemma setupMIMEHeaders_cte (p : Part) (hint : TransferEncoding) :
  (setupMIMEHeaders p hint).2 = chosenEncoding (clearContentEncoding p) hint.
Proof.
  unfold setupMIMEHeaders. rewrite <- determineEncoding_cte.
  destruct (determineEncoding (clearContentEncoding p) hint). reflexivity.
Qed.

Lemma setupMIMEHeaders_steps (p : Part) (hint : TransferEncoding) :
  (setupMIMEHeaders p hint).1 =
  let p3 := setContentID (generateBoundary
              (determineEncoding (clearContentEncoding p) hint).1) in
  buildDisposition (encodeWord (FileName p3))
    (buildContentType (encodeWord (FileName p3)) p3).
Proof.
  unfold setupMIMEHeaders.
  destruct (determineEncoding (clearContentEncoding p) hint). reflexivity.
Qed.

Lemma setupMIMEHeaders_FirstChild (p : Part) (hint : TransferEncoding) :
  FirstChild (setupMIMEHeaders p hint).1 = FirstChild p.
Proof.
  rewrite setupMIMEHeaders_steps. cbv zeta.
  rewrite (proj1 (buildDisposition_frame _ _)).
  rewrite (proj1 (buildContentType_frame _ _)).
  rewrite (proj1 (setContentID_frame _)).
  rewrite (proj1 (generateBoundary_frame _)).
  rewrite (proj1 (determineEncoding_frame _ _)).
  apply clearContentEncoding_frame.
Qed.

Lemma setupMIMEHeaders_Content (p : Part) (hint : TransferEncoding) :
  Content (setupMIMEHeaders p hint).1 = Content p.
Proof.
  rewrite setupMIMEHeaders_steps. cbv zeta.
  rewrite (proj2 (proj2 (proj2 (buildDisposition_frame _ _)))).
  rewrite (proj2 (proj2 (buildContentType_frame _ _))).
  rewrite (proj2 (proj2 (proj2 (setContentID_frame _)))).
  rewrite (proj2 (proj2 (proj2 (generateBoundary_frame _)))).
  rewrite (proj2 (proj2 (proj2 (determineEncoding_frame _ _)))).
  apply clearContentEncoding_frame.
Qed.

Lemma setupMIMEHeaders_Boundary (p : Part) (hint : TransferEncoding) :
  Boundary (setupMIMEHeaders p hint).1 =
  if bool_decide (is_Some (FirstChild p)) && String.eqb (Boundary p) ""
  then ("enmime-" ++ UUID (randSource p))%string else Boundary p.
Proof.
  rewrite setupMIMEHeaders_steps. cbv zeta.
  rewrite (proj1 (proj2 (buildDisposition_frame _ _))).
  rewrite (proj1 (proj2 (buildContentType_frame _ _))).
  rewrite (proj1 (proj2 (setContentID_frame _))).
  pose proof (determineEncoding_frame (clearContentEncoding p) hint) as Hd.
  pose proof (clearContentEncoding_frame p) as Hc.
  cbv zeta in Hd, Hc.
  destruct Hd as (Hd1 & Hd2 & _), Hc as (Hc1 & Hc2 & _).
  unfold generateBoundary.
  rewrite Hd1, Hd2, Hc1, Hc2.
  destruct (bool_decide (is_Some (FirstChild p)) && String.eqb (Boundary p) "");
    simpl; [|congruence].
  f_equal. unfold determineEncoding, clearContentEncoding.
  repeat case_match; simplify_eq; reflexivity.
Qed.

(** A part with children leaves [setupMIMEHeaders] with a boundary. *)
Lemma setupMIMEHeaders_Boundary_children (p : Part) (hint : TransferEncoding) :
  is_Some (FirstChild p) -> Boundary (setupMIMEHeaders p hint).1 <> ""%string.
Proof.
  intros Hfc. rewrite setupMIMEHeaders_Boundary.
  rewrite bool_decide_eq_true_2 by exact Hfc. cbn [andb].
  destruct (String.eqb_spec (Boundary p) "") as [He|Hne]; [discriminate|exact Hne].
Qed.

(** C9, as amended: after [setupMIMEHeaders] the children are those the
    part had, and the boundary is non-empty exactly when the part has a
    child or a boundary had been set on it before; a part without children
    keeps its boundary as it was. *)
Theorem setupMIMEHeaders_boundary_iff (p : Part) (hint : TransferEncoding) :
  FirstChild (setupMIMEHeaders p hint).1 = FirstChild p /\
  (Boundary (setupMIMEHeaders p hint).1 <> ""%string <->
   is_Some (FirstChild p) \/ Boundary p <> ""%string) /\
  (FirstChild p = None ->
   Boundary (setupMIMEHeaders p hint).1 = Boundary p).
Proof.
  split; [apply setupMIMEHeaders_FirstChild|].
  rewrite setupMIMEHeaders_Boundary.
  destruct (FirstChild p) as [c|] eqn:Hfc.
  - rewrite bool_decide_eq_true_2 by eauto. simpl.
    split; [|discriminate].
    destruct (String.eqb_spec (Boundary p) "") as [He|Hne].
    + split; [eauto|]. intros _. discriminate.
    + tauto.
  - rewrite bool_decide_eq_false_2 by (intros [? ?]; discriminate). simpl.
    split; [|reflexivity].
    split; [tauto|]. intros [[? Hs]|Hb]; [discriminate|exact Hb].
Qed.

(** C10: a part without a content type gets no [Content-Type] header from
    [setupMIMEHeaders], whatever its children, boundary, charset and file
    name: the header's [Content-Type] field stays what it was (absent, if it
    was absent), the content type stays empty, while the boundary that will
    delimit the children is set as for any other part. *)
Theorem setupMIMEHeaders_no_content_type (p : Part) (hint : TransferEncoding) :
  ContentType p = ""%string ->
  contentTypeField (Header (setupMIMEHeaders p hint).1) = contentTypeField (Header p) /\
  ContentType (setupMIMEHeaders p hint).1 = ""%string /\
  (is_Some (FirstChild p) -> Boundary (setupMIMEHeaders p hint).1 <> ""%string).
Proof.
  intros Hct.
  assert (Hct3 : ContentType (setContentID (generateBoundary
            (determineEncoding (clearContentEncoding p) hint).1)) = ""%string).
  { rewrite (proj1 (proj2 (proj2 (setContentID_frame _)))).
    rewrite (proj1 (proj2 (proj2 (generateBoundary_frame _)))).
    rewrite (proj1 (proj2 (proj2 (determineEncoding_frame _ _)))).
    rewrite (proj1 (proj2 (proj2 (clearContentEncoding_frame _)))).
    exact Hct. }
  split; [|split].
  - rewrite setupMIMEHeaders_steps. cbv zeta.
    rewrite (proj2 (buildDisposition_fields _ _)).
    rewrite buildContentType_empty by exact Hct3.
    rewrite (proj2 (setContentID_fields _)).
    rewrite (proj1 (proj2 (generateBoundary_frame _))).
    rewrite determineEncoding_contentTypeField.
    apply clearContentEncoding_contentTypeField.
  - rewrite setupMIMEHeaders_steps. cbv zeta.
    rewrite (proj1 (proj2 (proj2 (buildDisposition_frame _ _)))).
    rewrite buildContentType_empty by exact Hct3. exact Hct3.
  - apply setupMIMEHeaders_Boundary_children.
Qed.

(** C8, as amended: for a part with content, the [Content-Transfer-Encoding]
    field after [setupMIMEHeaders] is "base64" or "quoted-printable" when
    that encoding is chosen; when another encoding is chosen the field is
    not set: it is absent for a part re-read by a parser that does not keep
    content raw, and otherwise what it was before.  So for a part that had
    no such field, or is re-read, the field is present exactly when Base64
    or quoted-printable is chosen. *)
Theorem setupMIMEHeaders_cte_field (p : Part) (hint : TransferEncoding) :
  Content p <> [] ->
  cteField (Header (setupMIMEHeaders p hint).1) =
    match (setupMIMEHeaders p hint).2 with
    | TeBase64 => Some [cteBase64]
    | TeQuoted => Some [cteQuotedPrintable]
    | _ => if reparsed p then None else cteField (Header p)
    end /\
  (cteField (Header p) = None \/ reparsed p = true ->
   (is_Some (cteField (Header (setupMIMEHeaders p hint).1)) <->
    (setupMIMEHeaders p hint).2 = TeBase64 \/
    (setupMIMEHeaders p hint).2 = TeQuoted)).
Proof.
  intros Hc.
  assert (Heq : cteField (Header (setupMIMEHeaders p hint).1) =
    match (setupMIMEHeaders p hint).2 with
    | TeBase64 => Some [cteBase64]
    | TeQuoted => Some [cteQuotedPrintable]
    | _ => if reparsed p then None else cteField (Header p)
    end).
  { rewrite setupMIMEHeaders_cte, setupMIMEHeaders_steps. cbv zeta.
    rewrite (proj1 (buildDisposition_fields _ _)).
    rewrite buildContentType_cteField.
    rewrite (proj1 (setContentID_fields _)).
    rewrite (proj1 (proj2 (generateBoundary_frame _))).
    rewrite determineEncoding_cteField.
    - rewrite clearContentEncoding_cteField. reflexivity.
    - rewrite (proj1 (proj2 (proj2 (proj2 (clearContentEncoding_frame _))))).
      exact Hc. }
  split; [exact Heq|].
  intros Hold. rewrite Heq.
  destruct ((setupMIMEHeaders p hint).2); split;
    try (intros _; solve [eauto]);
    try (intros [Hx|Hx]; discriminate Hx);
    intros [x Hx]; destruct Hold as [Hold|Hold]; rewrite Hold in Hx;
    try discriminate Hx; destruct (reparsed p); discriminate Hx.
Qed.

End Setup.

Lemma setupMIMEHeaders_cte_field_witness :
  Content staleEncodingPart <> [] /\
  cteField (Header (@setupMIMEHeaders plainCollaborators staleEncodingPart TeBase64).1)
  = Some [cteBase64].
Proof.
  split; [discriminate|].
  apply (@setupMIMEHeaders_cte_field plainCollaborators staleEncodingPart TeBase64).
  discriminate.
Defined.

(** C8 as the specification words it fails for a part that is not re-read
    by a parser and still carries the field: 7-bit is chosen for "hi" and
    the field stays. *)
Lemma setupMIMEHeaders_cte_field_stale :
  ~ (is_Some (cteField
        (Header (@setupMIMEHeaders plainCollaborators staleEncodingPart TeAuto).1)) <->
     (@setupMIMEHeaders plainCollaborators staleEncodingPart TeAuto).2 = TeBase64 \/
     (@setupMIMEHeaders plainCollaborators staleEncodingPart TeAuto).2 = TeQuoted).
Proof.
  assert (H2 : (@setupMIMEHeaders plainCollaborators staleEncodingPart TeAuto).2 = Te7Bit)
    by reflexivity.
  assert (H1 : cteField
        (Header (@setupMIMEHeaders plainCollaborators staleEncodingPart TeAuto).1)
        = Some ["base64"%string]) by (vm_compute; reflexivity).
  rewrite H1, H2. intros [Hf _].
  destruct Hf as [Hf|Hf]; [eauto|discriminate Hf|discriminate Hf].
Qed.

(** C9 as the specification words it fails for a leaf part on which a
    boundary was set: the boundary stays and there is no child. *)
Lemma setupMIMEHeaders_boundary_leaf :
  ~ (Boundary (@setupMIMEHeaders plainCollaborators leafWithBoundary TeAuto).1
       <> ""%string <->
     is_Some (FirstChild (@setupMIMEHeaders plainCollaborators leafWithBoundary TeAuto).1)).
Proof.
  intros [Hf _].
  assert (Hs : is_Some (FirstChild
            (@setupMIMEHeaders plainCollaborators leafWithBoundary TeAuto).1)).
  { apply Hf. vm_compute. discriminate. }
  destruct Hs as [c Hc]. vm_compute in Hc. discriminate Hc.
Qed.

Lemma setupMIMEHeaders_no_content_type_witness :
  ContentType untypedMultipart = ""%string /\
  contentTypeField (Header (@setupMIMEHeaders plainCollaborators untypedMultipart TeAuto).1)
  = contentTypeField (Header untypedMultipart).
Proof.
  split; [reflexivity|].
  apply (@setupMIMEHeaders_no_content_type plainCollaborators untypedMultipart TeAuto).
  reflexivity.
Defined.

(** ** The header field encoder *)

(** *** The order of [sort.Strings] *)

Lemma strLe_total (a b : string) : strLe a b \/ strLe b a.
Proof. apply String.leb_total. Qed.

Lemma strLe_antisym (a b : string) : strLe a b -> strLe b a -> a = b.
Proof. apply String.leb_antisym. Qed.

Lemma strLe_refl (a : string) : strLe a a.
Proof. destruct (strLe_total a a); assumption. Qed.

Lemma compare_not_Gt_trans (a b c : string) :
  String.compare a b <> Gt -> String.compare b c <> Gt -> String.compare a c <> Gt.
Proof.
  revert b c. induction a as [|x a IH]; intros [|y b] [|z c]; simpl;
    try congruence.
  unfold Ascii.compare.
  destruct (N.compare_spec (N_of_ascii x) (N_of_ascii y)) as [Exy|Lxy|Gxy];
    destruct (N.compare_spec (N_of_ascii y) (N_of_ascii z)) as [Eyz|Lyz|Gyz];
    destruct (N.compare_spec (N_of_ascii x) (N_of_ascii z)) as [Exz|Lxz|Gxz];
    try congruence; try lia.
  apply IH.
Qed.

Lemma strLe_trans (a b c : string) : strLe a b -> strLe b c -> strLe a c.
Proof.
  unfold strLe, String.leb. intros Hab Hbc.
  pose proof (compare_not_Gt_trans a b c) as Ht.
  destruct (String.compare a b), (String.compare b c), (String.compare a c);
    try reflexivity; try discriminate; exfalso; apply Ht; congruence.
Qed.

#[global] Instance strLe_Total : Total strLe := strLe_total.
#[global] Instance strLe_AntiSymm : AntiSymm (=) strLe := strLe_antisym.
#[global] Instance strLe_Transitive : Transitive strLe := strLe_trans.
#[global] Instance strLe_Reflexive : Reflexive strLe := strLe_refl.

Lemma sortStrings_Sorted (keys : list string) : Sorted strLe (sortStrings keys).
Proof. apply Sorted_merge_sort; apply _. Qed.

Lemma sortStrings_Permutation (keys : list string) : sortStrings keys ≡ₚ keys.
Proof. apply merge_sort_Permutation. Qed.

(** The sorted list depends on the keys only, not on the order in which the
    map yields them. *)
Lemma sortStrings_order_irrelevant (iter1 iter2 : list string) :
  iter1 ≡ₚ iter2 -> sortStrings iter1 = sortStrings iter2.
Proof.
  intros Hp. apply (Sorted_unique strLe); try apply sortStrings_Sorted.
  rewrite !sortStrings_Permutation. exact Hp.
Qed.

(** *** The lines in the order of emission *)

Section HeaderOrder.
Context `{!Collaborators}.

Lemma emitLines_app (a b : list (string * string * string)) (lf : bool) :
  emitLines (a ++ b) lf =
  x ← emitLines a lf; y ← emitLines b lf; Ok (x ++ y).
Proof.
  induction a as [|[[k v] nl] a IH]; simpl.
  - destruct (emitLines b lf); reflexivity.
  - destruct (headerLine k v nl lf) as [wb|e]; simpl; [|reflexivity].
    rewrite IH.
    destruct (emitLines a lf) as [x|e]; simpl; [|reflexivity].
    destruct (emitLines b lf) as [y|e]; simpl; [|reflexivity].
    rewrite app_assoc. reflexivity.
Qed.

Lemma encodeValues_emit k lastKey vs lf omit :
  encodeValues k lastKey vs lf omit = emitLines (valueLines k lastKey vs lf omit) lf.
Proof.
  induction vs as [|v vs IH]; simpl; [reflexivity|]. rewrite IH. reflexivity.
Qed.

Lemma encodeKeys_emit h keys lf omit :
  encodeKeys h keys lf omit = emitLines (keyLines h keys lf omit) lf.
Proof.
  induction keys as [|k keys IH]; simpl; [reflexivity|].
  rewrite emitLines_app, encodeValues_emit, IH. reflexivity.
Qed.

End HeaderOrder.

Lemma fieldNames_valueLines k lastKey vs lf omit :
  fieldNames (valueLines k lastKey vs lf omit) = replicate (length vs) k.
Proof.
  unfold fieldNames.
  induction vs as [|v vs IH]; simpl; [reflexivity|]. f_equal. exact IH.
Qed.

Lemma fieldNames_keyLines_elem h keys lf omit (x : string) :
  x ∈ fieldNames (keyLines h keys lf omit) -> x ∈ keys.
Proof.
  induction keys as [|k keys IH]; simpl; [intros Hx; exact Hx|].
  unfold fieldNames. rewrite map_app. intros Hx.
  apply elem_of_app in Hx. destruct Hx as [Hx|Hx].
  - pose proof (fieldNames_valueLines k (bool_decide (keys = []))
                  (default [] (h !! k)) lf omit) as Hr.
    unfold fieldNames in Hr. rewrite Hr in Hx.
    apply elem_of_replicate in Hx. destruct Hx as [-> _]. left.
  - right. apply IH. exact Hx.
Qed.

Lemma fieldNames_keyLines_sorted h keys lf omit :
  Sorted strLe keys -> Sorted strLe (fieldNames (keyLines h keys lf omit)).
Proof.
  intros Hs. apply Sorted_StronglySorted in Hs; [|apply _].
  apply StronglySorted_Sorted.
  induction Hs as [|k keys Hs IH Hall]; simpl; [constructor|].
  unfold fieldNames. rewrite map_app.
  pose proof (fieldNames_valueLines k (bool_decide (keys = []))
                (default [] (h !! k)) lf omit) as Hr.
  unfold fieldNames in Hr. rewrite Hr. clear Hr.
  induction (length (default [] (h !! k))) as [|n IHn]; simpl; [exact IH|].
  constructor; [exact IHn|].
  apply Forall_app. split.
  - apply Forall_forall. intros x Hx. apply elem_of_replicate in Hx.
    destruct Hx as [-> _]. apply strLe_refl.
  - apply Forall_forall. intros x Hx.
    apply fieldNames_keyLines_elem in Hx.
    rewrite Forall_forall in Hall. apply Hall. exact Hx.
Qed.

(** C7: whatever order the header map yields its keys in, [encodeHeader]
    writes the same bytes; they are the lines of the fields taken in the
    sorted order of their names, one line per value, so that the field names
    of the lines written are in ascending lexicographic order.  The map
    itself keeps no trace of the order in which fields were set. *)
Theorem encodeHeader_sorted `{!Collaborators} (h : gmap string (list string))
    (iter1 iter2 : list string) (wrapWithLFOnly omitLastNewline : bool) :
  iter1 ≡ₚ iter2 ->
  encodeHeaderFrom iter1 h wrapWithLFOnly omitLastNewline
    = encodeHeaderFrom iter2 h wrapWithLFOnly omitLastNewline /\
  encodeHeaderFrom iter1 h wrapWithLFOnly omitLastNewline
    = emitLines (keyLines h (sortStrings iter1) wrapWithLFOnly omitLastNewline)
        wrapWithLFOnly /\
  Sorted strLe
    (fieldNames (keyLines h (sortStrings iter1) wrapWithLFOnly omitLastNewline)) /\
  (forall k1 v1 k2 v2 : string,
     CanonicalMIMEHeaderKey k1 <> CanonicalMIMEHeaderKey k2 ->
     Header_Set k1 v1 (Header_Set k2 v2 h) = Header_Set k2 v2 (Header_Set k1 v1 h)).
Proof.
  intros Hp. unfold encodeHeaderFrom. split; [|split; [|split]].
  - rewrite (sortStrings_order_irrelevant iter1 iter2 Hp). reflexivity.
  - apply encodeKeys_emit.
  - apply fieldNames_keyLines_sorted, sortStrings_Sorted.
  - intros k1 v1 k2 v2 Hne. unfold Header_Set. apply insert_insert_ne. exact Hne.
Qed.

Lemma encodeHeader_sorted_witness :
  ["To"; "Content-Type"]%string ≡ₚ ["Content-Type"; "To"]%string /\
  @encodeHeaderFrom plainCollaborators ["To"; "Content-Type"]%string twoFields true false
  = @encodeHeaderFrom plainCollaborators ["Content-Type"; "To"]%string twoFields true false.
Proof.
  split; [apply Permutation_swap|].
  apply (@encodeHeader_sorted plainCollaborators twoFields
           ["To"; "Content-Type"]%string ["Content-Type"; "To"]%string true false).
  apply Permutation_swap.
Defined.

Example encodeHeader_twoFields :
  @encodeHeaderFrom plainCollaborators ["To"; "Content-Type"]%string twoFields true false
  = Ok (bytes_of "Content-Type: text/plain" ++ [LF]
        ++ bytes_of "To: a@example.org" ++ [LF]).
Proof. vm_compute. reflexivity. Qed.

(** ** The multipart composer *)

(** Induction over the part tree: a property holds of every part if it
    holds of a part whenever it holds of its first child and of its next
    sibling. *)
Fixpoint Part_tree_ind (P : Part -> Prop)
    (step : forall p,
        (forall c, FirstChild p = Some c -> P c) ->
        (forall s, NextSibling p = Some s -> P s) -> P p)
    (p : Part) {struct p} : P p.
Proof.
  destruct p as [h b cid ct ctp d fn fmd cs c cr fc ns ps rs].
  apply step; simpl.
  - intros c0 Hc. destruct fc as [c'|]; [|discriminate Hc].
    injection Hc as <-. apply (Part_tree_ind P step c').
  - intros s0 Hs. destruct ns as [s'|]; [|discriminate Hs].
    injection Hs as <-. apply (Part_tree_ind P step s').
Qed.

Section Composer.
Context `{!Collaborators}.

Lemma EncodeCustom_siblings (mark : bytes) (hint : TransferEncoding) (lf : bool)
    (c : Part) :
  (fix siblings (c : Part) {struct c} : result bytes :=
     out ← EncodeCustom c hint lf;
     rest ← match NextSibling c with
            | None => Ok []
            | Some s => siblings s
            end;
     Ok (mark ++ lineEnd lf ++ out ++ rest)) c
  = encodeSiblings c mark hint lf.
Proof.
  induction c as [c _ IHs] using Part_tree_ind.
  destruct c as [h b cid ct ctp d fn fmd cs cc cr fc ns ps rs].
  cbn [encodeSiblings NextSibling].
  destruct ns as [s|]; [|reflexivity].
  rewrite <- (IHs s eq_refl). reflexivity.
Qed.

(** [EncodeCustom], one level unfolded. *)
Lemma EncodeCustom_eq (p : Part) (hint : TransferEncoding) (lf : bool) :
  EncodeCustom p hint lf =
  '(p', head) ← encodeHead p hint lf;
  match FirstChild p with
  | None => Ok head
  | Some c =>
      kids ← encodeSiblings c (marker (Boundary p') lf) hint lf;
      Ok (head ++ kids ++ endMarker (Boundary p') lf ++ lineEnd lf)
  end.
Proof.
  destruct p as [h b cid ct ctp d fn fmd cs cc cr fc ns ps rs].
  cbn [EncodeCustom FirstChild].
  destruct (encodeHead _ hint lf) as [[p' head]|e]; [|reflexivity].
  cbn [mbind result_bind].
  destruct fc as [c|]; [|reflexivity].
  rewrite EncodeCustom_siblings. reflexivity.
Qed.

Lemma encodeSiblings_eq (c : Part) (mark : bytes) (hint : TransferEncoding) (lf : bool) :
  encodeSiblings c mark hint lf =
  out ← EncodeCustom c hint lf;
  rest ← match NextSibling c with
         | None => Ok []
         | Some s => encodeSiblings s mark hint lf
         end;
  Ok (mark ++ lineEnd lf ++ out ++ rest).
Proof. destruct c; reflexivity. Qed.

Lemma probe_frame (p p1 : Part) :
  probe p = Ok p1 ->
  Header p1 = Header p /\ Boundary p1 = Boundary p /\
  FirstChild p1 = FirstChild p /\ parser p1 = parser p.
Proof.
  unfold probe. destruct (ContentReader p) as [r|].
  - destruct (Read r (Z.to_nat readChunkSize)) as [[d e] r'].
    destruct e as [[|]|]; intros Hp; simplify_eq; auto.
  - intros Hp. simplify_eq. auto.
Qed.

(** What is written before the children, in terms of the header block, the
    separator and the encoded content. *)
Lemma encodeHead_eq (p : Part) (hint : TransferEncoding) (lf : bool) :
  encodeHead p hint lf =
  p1 ← probe p;
  hdr ← encodeHeader (setupMIMEHeaders p1 hint).1 lf lf;
  body ← (if (0 <? length (Content p1))%nat
          then encodeContent (setupMIMEHeaders p1 hint).1 (setupMIMEHeaders p1 hint).2 lf
          else Ok []);
  Ok ((setupMIMEHeaders p1 hint).1, hdr ++ separator lf (Content p1) ++ body).
Proof.
  unfold encodeHead, separator.
  destruct (probe p) as [p1|e]; [|reflexivity]. cbn [mbind result_bind].
  pose proof (setupMIMEHeaders_Content p1 hint) as Hc.
  destruct (setupMIMEHeaders p1 hint) as [p2 cte]. cbn [fst snd] in *.
  destruct (encodeHeader p2 lf lf) as [hdr|e]; [|reflexivity].
  cbn [mbind result_bind]. rewrite Hc.
  destruct (0 <? length (Content p1))%nat; [|reflexivity].
  destruct (encodeContent p2 cte lf) as [c|e]; [|reflexivity].
  cbn [mbind result_bind]. destruct lf; reflexivity.
Qed.

Lemma encodeHead_Boundary (p p' : Part) (hint : TransferEncoding) (lf : bool)
    (head : bytes) :
  encodeHead p hint lf = Ok (p', head) ->
  Boundary p <> ""%string -> Boundary p' = Boundary p.
Proof.
  rewrite encodeHead_eq. intros Hh Hb.
  destruct (probe p) as [p1|e] eqn:Hp; [|discriminate Hh].
  cbn [mbind result_bind] in Hh.
  destruct (encodeHeader _ lf lf) as [hdr|e]; [|discriminate Hh].
  cbn [mbind result_bind] in Hh.
  destruct (if (0 <? length (Content p1))%nat then _ else _) as [body|e];
    [|discriminate Hh].
  cbn [mbind result_bind] in Hh. simplify_eq.
  apply probe_frame in Hp. destruct Hp as (_ & Hb1 & _).
  rewrite setupMIMEHeaders_Boundary, Hb1.
  destruct (String.eqb_spec (Boundary p) ""); [contradiction|].
  rewrite andb_false_r. reflexivity.
Qed.

(** C6, as amended: in LF mode a part with boundary "xyz" and exactly two
    children writes what precedes the children, then "\n--xyz\n" and the
    first child's serialization, then "\n--xyz\n" and the second child's,
    and last "\n--xyz--\n"; it fails if one of these steps fails. *)
Theorem EncodeCustom_two_children (p c1 c2 : Part) (hint : TransferEncoding) :
  FirstChild p = Some c1 ->
  NextSibling c1 = Some c2 ->
  NextSibling c2 = None ->
  Boundary p = "xyz"%string ->
  EncodeCustom p hint true =
    '(_, head) ← encodeHead p hint true;
    out1 ← EncodeCustom c1 hint true;
    out2 ← EncodeCustom c2 hint true;
    Ok (head ++ openDelimiter ++ out1 ++ openDelimiter ++ out2 ++ closeDelimiter).
Proof.
  intros Hfc Hn1 Hn2 Hb.
  rewrite EncodeCustom_eq, Hfc.
  destruct (encodeHead p hint true) as [[p' head]|e] eqn:Hh; [|reflexivity].
  cbn [mbind result_bind].
  assert (Hb' : Boundary p' = "xyz"%string).
  { rewrite <- Hb. eapply encodeHead_Boundary; [exact Hh|]. rewrite Hb. discriminate. }
  rewrite Hb'.
  rewrite encodeSiblings_eq, Hn1.
  destruct (EncodeCustom c1 hint true) as [out1|e]; [|reflexivity].
  cbn [mbind result_bind].
  rewrite encodeSiblings_eq, Hn2.
  destruct (EncodeCustom c2 hint true) as [out2|e]; [|reflexivity].
  cbn [mbind result_bind].
  f_equal. unfold openDelimiter, closeDelimiter.
  change (marker "xyz" true) with ([LF] ++ bytes_of "--xyz").
  change (endMarker "xyz" true) with ([LF] ++ bytes_of "--xyz--").
  change (lineEnd true) with [LF].
  rewrite app_nil_r. rewrite <- !app_assoc. reflexivity.
Qed.

End Composer.

Lemma bytes_of_app (a b : string) : bytes_of (a ++ b) = bytes_of a ++ bytes_of b.
Proof.
  unfold bytes_of, list_byte_of_string.
  induction a as [|x a IH]; simpl; [reflexivity|]. rewrite IH. reflexivity.
Qed.

(** In CRLF mode the marker, cut out of the end marker, is the CRLF, the
    two hyphens and the boundary. *)
Lemma marker_crlf (boundary : string) :
  marker boundary false = crnl ++ bytes_of ("--" ++ boundary).
Proof.
  unfold marker, endMarker.
  rewrite !bytes_of_app, app_assoc, length_app.
  change (length (bytes_of "--")) with 2%nat.
  rewrite Nat.add_sub, firstn_app, firstn_all, Nat.sub_diag.
  simpl firstn. rewrite app_nil_r. reflexivity.
Qed.

(** *** Concrete part trees *)


Example EncodeCustom_bareTextPart_CRLF :
  @EncodeCustom plainCollaborators bareTextPart TeAuto false
  = Ok (bytes_of "Content-Type: text/plain" ++ [CR; LF]).
Proof. vm_compute. reflexivity. Qed.


Lemma EncodeCustom_two_children_witness :
  Boundary scenarioD = "xyz"%string /\
  @EncodeCustom plainCollaborators scenarioD TeAuto true =
    '(_, head) ← @encodeHead plainCollaborators scenarioD TeAuto true;
    out1 ← @EncodeCustom plainCollaborators
              (withNextSibling (Some (withContent (bytes_of "two") None emptyPart))
                 (withContent (bytes_of "one") None emptyPart)) TeAuto true;
    out2 ← @EncodeCustom plainCollaborators
              (withContent (bytes_of "two") None emptyPart) TeAuto true;
    Ok (head ++ openDelimiter ++ out1 ++ openDelimiter ++ out2 ++ closeDelimiter).
Proof.
  split; [reflexivity|].
  apply (@EncodeCustom_two_children plainCollaborators scenarioD); reflexivity.
Defined.

Example EncodeCustom_scenarioD :
  @EncodeCustom plainCollaborators scenarioD TeAuto true
  = Ok ([LF; LF] ++ openDelimiter ++ [LF; LF] ++ bytes_of "one"
        ++ openDelimiter ++ [LF; LF] ++ bytes_of "two" ++ closeDelimiter).
Proof. vm_compute. reflexivity. Qed.

Example EncodeCustom_nestedSameBoundary :
  @EncodeCustom plainCollaborators nestedSameBoundary TeAuto true
  = Ok ([LF; LF] ++ openDelimiter
        ++ ([LF; LF] ++ openDelimiter ++ [LF; LF] ++ closeDelimiter)
        ++ openDelimiter ++ [LF; LF] ++ closeDelimiter).
Proof. vm_compute. reflexivity. Qed.

(** C6 as the specification words it fails on "exactly once": nothing
    keeps the closing delimiter out of a child's serialization, and here
    the output holds it twice. *)
Lemma EncodeCustom_close_delimiter_twice :
  ~ (exists out,
       @EncodeCustom plainCollaborators nestedSameBoundary TeAuto true = Ok out /\
       occurrences closeDelimiter out = 1%nat).
Proof.
  intros (out & Hout & Hocc).
  vm_compute in Hout. injection Hout as <-.
  vm_compute in Hocc. discriminate Hocc.
Qed.

(** ** The content encoder: Base64 *)

(** [a | b] of two values without a common bit is their sum. *)
Lemma lor_disjoint (h k y : Z) :
  0 <= k -> 0 <= y < 2 ^ k -> Z.lor (h * 2 ^ k) y = h * 2 ^ k + y.
Proof.
  intros Hk Hy.
  assert (Hland : Z.land (h * 2 ^ k) y = 0).
  { apply Z.bits_inj'. intros n Hn. rewrite Z.land_spec, Z.bits_0.
    destruct (Z.lt_ge_cases n k) as [Hlt|Hge].
    - rewrite Z.mul_pow2_bits_low by lia. reflexivity.
    - destruct (Z.eq_dec y 0) as [->|Hy0].
      + rewrite Z.bits_0. apply andb_false_r.
      + rewrite (Z.bits_above_log2 y n); [apply andb_false_r|lia|].
        apply Z.lt_le_trans with k; [apply Z.log2_lt_pow2; lia|lia]. }
  pose proof (Z.add_lor_land (h * 2 ^ k) y) as Hadd. lia.
Qed.

Lemma mk_mod (z : Z) : mk (z mod 256) = mk z.
Proof. unfold mk. rewrite Z.mod_mod by lia. reflexivity. Qed.

(** The 24-bit value of three bytes, and its four sextets. *)
Lemma quantum_value (a b c : Z) :
  0 <= a < 256 -> 0 <= b < 256 -> 0 <= c < 256 ->
  Z.lor (Z.lor (Z.shiftl a 16) (Z.shiftl b 8)) c = a * 65536 + b * 256 + c.
Proof.
  intros Ha Hb Hc. rewrite !Z.shiftl_mul_pow2 by lia.
  rewrite (lor_disjoint a 16) by lia.
  replace (a * 2 ^ 16 + b * 2 ^ 8) with ((a * 256 + b) * 2 ^ 8) by lia.
  rewrite lor_disjoint by lia. lia.
Qed.

Lemma sextet (v n : Z) :
  0 <= n -> Z.land (Z.shiftr v n) 63 = (v / 2 ^ n) mod 64.
Proof.
  intros Hn. rewrite Z.shiftr_div_pow2 by lia.
  change 63 with (Z.ones 6). rewrite Z.land_ones by lia. reflexivity.
Qed.

Lemma sextet0 (v : Z) : Z.land v 63 = v mod 64.
Proof. change 63 with (Z.ones 6). rewrite Z.land_ones by lia. reflexivity. Qed.

Lemma sextets_value (d0 d1 d2 d3 : Z) :
  0 <= d0 < 64 -> 0 <= d1 < 64 -> 0 <= d2 < 64 -> 0 <= d3 < 64 ->
  Z.lor (Z.lor (Z.lor (Z.shiftl d0 18) (Z.shiftl d1 12)) (Z.shiftl d2 6)) d3
  = d0 * 262144 + d1 * 4096 + d2 * 64 + d3.
Proof.
  intros H0 H1 H2 H3. rewrite !Z.shiftl_mul_pow2 by lia.
  rewrite (lor_disjoint d0 18) by lia.
  replace (d0 * 2 ^ 18 + d1 * 2 ^ 12) with ((d0 * 64 + d1) * 2 ^ 12) by lia.
  rewrite (lor_disjoint _ 12) by lia.
  replace ((d0 * 64 + d1) * 2 ^ 12 + d2 * 2 ^ 6)
    with ((d0 * 4096 + d1 * 64 + d2) * 2 ^ 6) by lia.
  rewrite (lor_disjoint _ 6) by lia. lia.
Qed.


Lemma list_ind3 {A : Type} (P : list A -> Prop) :
  P [] -> (forall a, P [a]) -> (forall a b, P [a; b]) ->
  (forall a b c rest, P rest -> P (a :: b :: c :: rest)) ->
  forall l, P l.
Proof.
  intros H0 H1 H2 H3.
  assert (Hall : forall l, P l /\ (forall a, P (a :: l)) /\ (forall a b, P (a :: b :: l))).
  { induction l as [|x l (IH0 & IH1 & IH2)].
    - auto.
    - repeat split; auto. }
  intros l. apply Hall.
Qed.

Ltac sextet_bounds :=
  repeat match goal with
         | b : byte |- _ =>
             lazymatch goal with
             | _ : 0 <= val b < 256 |- _ => fail
             | _ => pose proof (val_range b)
             end
         end.

(** A full quantum decodes to its three bytes. *)
Lemma quantum_roundtrip (a b c : byte) :
  let v := Z.lor (Z.lor (Z.shiftl (val a) 16) (Z.shiftl (val b) 8)) (val c) in
  let d0 := Z.land (Z.shiftr v 18) 63 in
  let d1 := Z.land (Z.shiftr v 12) 63 in
  let d2 := Z.land (Z.shiftr v 6) 63 in
  let d3 := Z.land v 63 in
  let v' := Z.lor (Z.lor (Z.lor (Z.shiftl d0 18) (Z.shiftl d1 12)) (Z.shiftl d2 6)) d3 in
  (0 <= d0 < 64 /\ 0 <= d1 < 64 /\ 0 <= d2 < 64 /\ 0 <= d3 < 64) /\
  mk (Z.shiftr v' 16) = a /\ mk (Z.shiftr v' 8) = b /\ mk v' = c.
Proof.
  intros v d0 d1 d2 d3 v'. sextet_bounds.
  assert (Hv : v = val a * 65536 + val b * 256 + val c)
    by (apply quantum_value; assumption).
  assert (Hd0 : d0 = (v / 2 ^ 18) mod 64) by (apply sextet; lia).
  assert (Hd1 : d1 = (v / 2 ^ 12) mod 64) by (apply sextet; lia).
  assert (Hd2 : d2 = (v / 2 ^ 6) mod 64) by (apply sextet; lia).
  assert (Hd3 : d3 = v mod 64) by apply sextet0.
  assert (Hb : (0 <= d0 < 64 /\ 0 <= d1 < 64 /\ 0 <= d2 < 64 /\ 0 <= d3 < 64)).
  { rewrite Hd0, Hd1, Hd2, Hd3. repeat split; apply Z.mod_pos_bound; lia. }
  split; [exact Hb|].
  assert (Hv' : v' = v).
  { unfold v'. rewrite sextets_value by tauto.
    rewrite Hd0, Hd1, Hd2, Hd3. change (2 ^ 18) with 262144.
    change (2 ^ 12) with 4096. change (2 ^ 6) with 64.
    clear -Hv H H0 H1. Z.div_mod_to_equations. lia. }
  rewrite Hv', !Z.shiftr_div_pow2 by lia.
  change (2 ^ 16) with 65536. change (2 ^ 8) with 256.
  repeat split.
  - replace (v / 65536) with (val a) by (Z.div_mod_to_equations; lia).
    apply mk_val.
  - rewrite <- mk_mod.
    replace ((v / 256) mod 256) with (val b) by (Z.div_mod_to_equations; lia).
    apply mk_val.
  - rewrite <- mk_mod.
    replace (v mod 256) with (val c) by (Z.div_mod_to_equations; lia).
    apply mk_val.
Qed.

(** A final block of two bytes. *)
Lemma quantum2_roundtrip (a b : byte) :
  let v := Z.lor (Z.shiftl (val a) 16) (Z.shiftl (val b) 8) in
  let d0 := Z.land (Z.shiftr v 18) 63 in
  let d1 := Z.land (Z.shiftr v 12) 63 in
  let d2 := Z.land (Z.shiftr v 6) 63 in
  let v' := Z.lor (Z.lor (Z.shiftl d0 18) (Z.shiftl d1 12)) (Z.shiftl d2 6) in
  (0 <= d0 < 64 /\ 0 <= d1 < 64 /\ 0 <= d2 < 64) /\
  mk (Z.shiftr v' 16) = a /\ mk (Z.shiftr v' 8) = b.
Proof.
  intros v d0 d1 d2 v'. sextet_bounds.
  assert (Hv : v = val a * 65536 + val b * 256).
  { unfold v. rewrite <- (Z.lor_0_r (Z.lor _ _)).
    change 0 with (val x00) at 1.
    rewrite quantum_value; [change (val x00) with 0; lia|lia|lia|vm_compute; split; congruence]. }
  assert (Hd0 : d0 = (v / 2 ^ 18) mod 64) by (apply sextet; lia).
  assert (Hd1 : d1 = (v / 2 ^ 12) mod 64) by (apply sextet; lia).
  assert (Hd2 : d2 = (v / 2 ^ 6) mod 64) by (apply sextet; lia).
  assert (Hb : (0 <= d0 < 64 /\ 0 <= d1 < 64 /\ 0 <= d2 < 64)).
  { rewrite Hd0, Hd1, Hd2. repeat split; apply Z.mod_pos_bound; lia. }
  split; [exact Hb|].
  assert (Hv' : v' = v).
  { unfold v'. rewrite <- (Z.lor_0_r (Z.lor (Z.lor _ _) _)).
    rewrite sextets_value by (try tauto; lia).
    rewrite Hd0, Hd1, Hd2. change (2 ^ 18) with 262144.
    change (2 ^ 12) with 4096. change (2 ^ 6) with 64.
    clear -Hv H H0. Z.div_mod_to_equations. lia. }
  rewrite Hv', !Z.shiftr_div_pow2 by lia.
  change (2 ^ 16) with 65536. change (2 ^ 8) with 256.
  split.
  - replace (v / 65536) with (val a) by (Z.div_mod_to_equations; lia).
    apply mk_val.
  - rewrite <- mk_mod.
    replace ((v / 256) mod 256) with (val b) by (Z.div_mod_to_equations; lia).
    apply mk_val.
Qed.

(** A final block of one byte. *)
Lemma quantum1_roundtrip (a : byte) :
  let v := Z.shiftl (val a) 16 in
  let d0 := Z.land (Z.shiftr v 18) 63 in
  let d1 := Z.land (Z.shiftr v 12) 63 in
  let v' := Z.lor (Z.shiftl d0 18) (Z.shiftl d1 12) in
  (0 <= d0 < 64 /\ 0 <= d1 < 64) /\ mk (Z.shiftr v' 16) = a.
Proof.
  intros v d0 d1 v'. sextet_bounds.
  assert (Hv : v = val a * 65536).
  { unfold v. rewrite Z.shiftl_mul_pow2 by lia. reflexivity. }
  assert (Hd0 : d0 = (v / 2 ^ 18) mod 64) by (apply sextet; lia).
  assert (Hd1 : d1 = (v / 2 ^ 12) mod 64) by (apply sextet; lia).
  assert (Hb : (0 <= d0 < 64 /\ 0 <= d1 < 64)).
  { rewrite Hd0, Hd1. repeat split; apply Z.mod_pos_bound; lia. }
  split; [exact Hb|].
  assert (Hv' : v' = v).
  { unfold v'. rewrite <- (Z.lor_0_r (Z.lor _ _)).
    rewrite <- (Z.lor_0_r (Z.lor _ _)) at 1.
    change (Z.lor (Z.lor (Z.lor (Z.shiftl d0 18) (Z.shiftl d1 12)) 0) 0)
      with (Z.lor (Z.lor (Z.lor (Z.shiftl d0 18) (Z.shiftl d1 12)) (Z.shiftl 0 6)) 0).
    rewrite sextets_value by (try tauto; lia).
    rewrite Hd0, Hd1. change (2 ^ 18) with 262144. change (2 ^ 12) with 4096.
    clear -Hv H. Z.div_mod_to_equations. lia. }
  rewrite Hv', !Z.shiftr_div_pow2 by lia. change (2 ^ 16) with 65536.
  replace (v / 65536) with (val a) by (Z.div_mod_to_equations; lia).
  apply mk_val.
Qed.







(** ** The content encoder: quoted-printable *)






Lemma nibbles (b : byte) :
  0 <= Z.shiftr (val b) 4 < 16 /\ 0 <= Z.land (val b) 15 < 16 /\
  mk (Z.shiftr (val b) 4 * 16 + Z.land (val b) 15) = b.
Proof.
  pose proof (val_range b) as Hb.
  rewrite Z.shiftr_div_pow2 by lia. change 15 with (Z.ones 4).
  rewrite Z.land_ones by lia. change (2 ^ 4) with 16.
  repeat split; try (Z.div_mod_to_equations; lia).
  replace (val b / 16 * 16 + val b mod 16) with (val b)
    by (Z.div_mod_to_equations; lia).
  apply mk_val.
Qed.


Lemma replaceCRLF_cons (a : byte) (l : bytes) :
  Byte.eqb a CR = false -> replaceCRLF (a :: l) = a :: replaceCRLF l.
Proof.
  intros Ha. destruct l as [|b l]; [reflexivity|].
  cbn [replaceCRLF]. rewrite Ha. reflexivity.
Qed.












(** *** [encodeContent] *)



Example encodeContent_binaryPart_quoted :
  encodeContent binaryPart TeQuoted true = Ok (bytes_of "=00=7F=80=FF=3DA=20").
Proof. vm_compute. reflexivity. Qed.

(** The quoted-printable writer is not in binary mode: LF, CR and CRLF all
    become one line break, so different contents get the same body and no
    decoder can tell them apart. *)
Example encodeQuoted_linebreaks_collapse (useLF : bool) :
  encodeQuoted [LF] useLF = encodeQuoted [CR; LF] useLF /\
  encodeQuoted [CR] useLF = encodeQuoted [CR; LF] useLF.
Proof. destruct useLF; split; reflexivity. Qed.


(** ** The content encoder: streamed content *)

(** *** Base64 line by line *)

Lemma base64_Encode_length (c : bytes) :
  Z.of_nat (length (base64_Encode c)) = EncodedLen (Z.of_nat (length c)).
Proof.
  unfold EncodedLen.
  induction c as [|a|a b|a b c rest IH] using list_ind3; try reflexivity.
  cbn [base64_Encode length]. rewrite !Nat2Z.inj_succ, IH.
  Z.div_mod_to_equations. lia.
Qed.

(** A prefix of whole quanta is encoded on its own. *)
Lemma base64_Encode_app (k : nat) (a b : bytes) :
  length a = (3 * k)%nat ->
  base64_Encode (a ++ b) = base64_Encode a ++ base64_Encode b.
Proof.
  revert a. induction k as [|k IH]; intros a Ha.
  - destruct a; [reflexivity|discriminate Ha].
  - destruct a as [|x [|y [|z a]]]; try (simpl in Ha; lia).
    cbn [app base64_Encode]. rewrite IH by (simpl in Ha; lia). reflexivity.
Qed.

Lemma wrapLines_fuel (fuel : nat) (text : bytes) (lf : bool) :
  (length text <= fuel)%nat ->
  wrapLines fuel text lf = wrapLines (length text) text lf.
Proof.
  revert fuel. induction text as [text IH] using (induction_ltof1 _ (@length byte)).
  unfold ltof in IH. intros fuel Hf.
  destruct text as [|b text]; [destruct fuel; reflexivity|].
  destruct fuel as [|fuel]; [simpl in Hf; lia|].
  cbn [wrapLines length].
  assert (Hs : (length (skipn 76 (b :: text)) <= length text)%nat)
    by (rewrite length_skipn; cbn [length]; lia).
  cbn [length] in IH, Hf.
  rewrite (IH (skipn 76 (b :: text)) ltac:(lia) fuel) by lia.
  rewrite (IH (skipn 76 (b :: text)) ltac:(lia) (length text)) by lia.
  reflexivity.
Qed.

Lemma encodeLines_fuel (fuel : nat) (chunk : bytes) (lf : bool) :
  (length chunk <= fuel)%nat ->
  encodeLines fuel chunk lf = encodeLines (length chunk) chunk lf.
Proof.
  revert fuel. induction chunk as [chunk IH] using (induction_ltof1 _ (@length byte)).
  unfold ltof in IH. intros fuel Hf.
  destruct chunk as [|b chunk]; [destruct fuel; reflexivity|].
  destruct fuel as [|fuel]; [simpl in Hf; lia|].
  cbn [encodeLines length].
  set (size := Z.to_nat base64DecodedLineLen).
  assert (Hs : (length (skipn size (b :: chunk)) <= length chunk)%nat)
    by (rewrite length_skipn; cbn [length]; unfold size;
        change (Z.to_nat base64DecodedLineLen) with 57%nat; lia).
  cbn [length] in IH, Hf.
  rewrite (IH (skipn size (b :: chunk)) ltac:(lia) fuel) by lia.
  rewrite (IH (skipn size (b :: chunk)) ltac:(lia) (length chunk)) by lia.
  reflexivity.
Qed.

Lemma wrapLines_step (text : bytes) (lf : bool) :
  text <> [] ->
  wrapLines (length text) text lf =
  firstn 76 text ++ lineEnd lf
    ++ wrapLines (length (skipn 76 text)) (skipn 76 text) lf.
Proof.
  intros Hne. destruct text as [|b text]; [congruence|].
  cbn [wrapLines length]. do 2 f_equal.
  apply wrapLines_fuel. rewrite length_skipn. cbn [length]. lia.
Qed.

Lemma contentLines_nil (lf : bool) : contentLines [] lf = [].
Proof. reflexivity. Qed.

Lemma contentLines_cons (b : byte) (c : bytes) (lf : bool) :
  contentLines (b :: c) lf =
  base64_Encode (firstn 57 (b :: c)) ++ lineEnd lf
    ++ contentLines (skipn 57 (b :: c)) lf.
Proof.
  unfold contentLines. cbn [encodeLines length].
  change (Z.to_nat base64DecodedLineLen) with 57%nat.
  do 2 f_equal. apply encodeLines_fuel. rewrite length_skipn. simpl. lia.
Qed.

(** Whole lines at the front are encoded on their own. *)
Lemma contentLines_app (k : nat) (a b : bytes) (lf : bool) :
  length a = (57 * k)%nat ->
  contentLines (a ++ b) lf = contentLines a lf ++ contentLines b lf.
Proof.
  revert a. induction k as [|k IH]; intros a Ha.
  - destruct a; [reflexivity|discriminate Ha].
  - assert (Hsplit : a = firstn 57 a ++ skipn 57 a) by (symmetry; apply firstn_skipn).
    assert (Hl1 : length (firstn 57 a) = 57%nat) by (rewrite length_firstn; lia).
    assert (Hl2 : length (skipn 57 a) = (57 * k)%nat) by (rewrite length_skipn; lia).
    destruct a as [|x a]; [discriminate Ha|].
    destruct (firstn 57 (x :: a) ++ skipn 57 (x :: a) ++ b) as [|y l] eqn:Hy.
    { apply (f_equal (@length byte)) in Hy. rewrite !length_app, Hl1 in Hy.
      discriminate Hy. }
    assert (Hab : (x :: a) ++ b = y :: l).
    { rewrite <- Hy, app_assoc, <- Hsplit. reflexivity. }
    rewrite Hab, !contentLines_cons. rewrite <- Hab.
    rewrite firstn_app, skipn_app.
    replace (57 - length (x :: a))%nat with 0%nat by lia.
    cbn [firstn skipn]. rewrite app_nil_r.
    rewrite IH by exact Hl2. rewrite <- !app_assoc. reflexivity.
Qed.

(** Wrapping the encoded content at 76 characters and encoding the content
    57 bytes at a time write the same lines. *)
Lemma wrapLines_contentLines (c : bytes) (lf : bool) :
  encodeBase64 c lf = contentLines c lf.
Proof.
  unfold encodeBase64.
  induction c as [c IH] using (induction_ltof1 _ (@length byte)).
  unfold ltof in IH.
  destruct c as [|b c]; [reflexivity|].
  rewrite contentLines_cons.
  destruct (Nat.le_gt_cases (length (b :: c)) 57) as [Hshort|Hlong].
  - rewrite firstn_all2 by exact Hshort.
    rewrite skipn_all2 by exact Hshort. rewrite contentLines_nil, app_nil_r.
    pose proof (base64_Encode_length (b :: c)) as Hlen. unfold EncodedLen in Hlen.
    destruct (base64_Encode (b :: c)) as [|e text] eqn:He.
    { simpl in Hlen. change (length (b :: c)) with (S (length c)) in Hlen.
      exfalso. revert Hlen. rewrite Nat2Z.inj_succ. clear.
      intros Hlen. Z.div_mod_to_equations. lia. }
    cbn [wrapLines length].
    assert (Hle : (length (e :: text) <= 76)%nat).
    { apply Nat2Z.inj_le. rewrite Hlen. clear -Hshort.
      apply Nat2Z.inj_le in Hshort. Z.div_mod_to_equations. lia. }
    rewrite firstn_all2 by exact Hle. rewrite skipn_all2 by exact Hle.
    destruct (length text); simpl; rewrite app_nil_r; reflexivity.
  - rewrite <- (firstn_skipn 57 (b :: c)) at 1 2.
    assert (Hl1 : length (firstn 57 (b :: c)) = (3 * 19)%nat)
      by (rewrite length_firstn; lia).
    rewrite (base64_Encode_app 19) by exact Hl1.
    pose proof (base64_Encode_length (firstn 57 (b :: c))) as Hlen.
    rewrite Hl1 in Hlen. change (EncodedLen (Z.of_nat (3 * 19))) with 76 in Hlen.
    assert (Hlen' : length (base64_Encode (firstn 57 (b :: c))) = 76%nat) by lia.
    set (line := base64_Encode (firstn 57 (b :: c))) in *.
    set (rest := base64_Encode (skipn 57 (b :: c))).
    rewrite wrapLines_step.
    + rewrite firstn_app, skipn_app, Hlen'. rewrite Nat.sub_diag.
      rewrite firstn_all2 by lia. rewrite skipn_all2 by lia.
      cbn [firstn skipn app]. rewrite app_nil_r. do 2 f_equal.
      apply IH. rewrite length_skipn. cbn [length] in *. lia.
    + intros He. apply (f_equal (@length byte)) in He.
      rewrite length_app, Hlen' in He. discriminate He.
Qed.

(** *** Readers *)

Lemma script_noError (ds : list bytes) : noError (script ds).
Proof. unfold noError, script. apply Forall_map. apply Forall_forall. reflexivity. Qed.

Lemma script_pending (ds : list bytes) : pending (script ds) = concat ds.
Proof.
  unfold pending, script. rewrite map_map. simpl. rewrite map_id. reflexivity.
Qed.

Lemma readChunkSize_nat :
  Z.to_nat readChunkSize = (57 * 128)%nat /\ readChunkSize = 7296.
Proof. split; reflexivity. Qed.

(** The inner loop fills the chunk with as many of the pending bytes as
    fit, for a reader without errors. *)
Lemma fillChunk_ok (fuel : nat) (r : Reader) (chunk : bytes) :
  noError r ->
  (length chunk <= Z.to_nat readChunkSize)%nat ->
  (length r < fuel)%nat ->
  exists r',
    fillChunk fuel r chunk
    = Ok (chunk ++ firstn (Z.to_nat readChunkSize - length chunk) (pending r), r') /\
    noError r' /\
    pending r' = skipn (Z.to_nat readChunkSize - length chunk) (pending r).
Proof.
  destruct readChunkSize_nat as [HN HZ].
  set (N := Z.to_nat readChunkSize) in *.
  assert (HNZ : Z.of_nat N = readChunkSize) by (unfold N; rewrite HZ; reflexivity).
  revert r chunk. induction fuel as [|fuel IH]; intros r chunk Hr Hlen Hfuel; [lia|].
  cbn [fillChunk]. fold N.
  destruct (Z.ltb_spec (Z.of_nat (length chunk)) readChunkSize) as [Hlt|Hge].
  - destruct r as [|[d e] rest].
    + exists []. cbn [Read]. unfold pending. simpl.
      rewrite firstn_nil, skipn_nil, app_nil_r. repeat split. constructor.
    + inversion Hr as [|? ? He Hrest]; subst. simpl in He. subst e.
      cbn [Read].
      assert (Hp : pending ((d, None) :: rest) = d ++ pending rest) by reflexivity.
      rewrite Hp.
      destruct (Nat.leb_spec (length d) (N - length chunk)) as [Hfit|Hbig].
      * destruct (IH rest (chunk ++ d) Hrest) as (r' & Hfill & Hr' & Hp').
        { rewrite length_app. lia. }
        { cbn [length] in Hfuel. lia. }
        exists r'. rewrite Hfill, Hp'. rewrite length_app.
        rewrite firstn_app, skipn_app.
        rewrite (firstn_all2 d Hfit), (skipn_all2 d Hfit).
        replace (N - (length chunk + length d))%nat
          with (N - length chunk - length d)%nat by lia.
        rewrite <- app_assoc. repeat split. exact Hr'.
      * destruct fuel as [|fuel]; [cbn [length] in Hfuel; lia|].
        cbn [fillChunk]. fold N.
        assert (Hfull : length (chunk ++ firstn (N - length chunk) d) = N).
        { rewrite length_app, length_firstn. lia. }
        rewrite Hfull.
        destruct (Z.ltb_spec (Z.of_nat N) readChunkSize) as [Hbad|_]; [lia|].
        exists ((skipn (N - length chunk) d, None) :: rest).
        rewrite firstn_app, skipn_app.
        replace (N - length chunk - length d)%nat with 0%nat by lia.
        cbn [firstn skipn]. rewrite app_nil_r. repeat split.
        constructor; [reflexivity|exact Hrest].
  - replace (N - length chunk)%nat with 0%nat by lia.
    exists r. cbn [firstn skipn]. rewrite app_nil_r. repeat split. exact Hr.
Qed.

(** The outer loop writes the lines of what it was given and of all the
    pending bytes. *)
Lemma streamChunks_ok (fuel : nat) (r : Reader) (chunk : bytes) (lf : bool) :
  noError r ->
  (length chunk <= Z.to_nat readChunkSize)%nat ->
  (length (pending r) + (if bool_decide (chunk = []) then 1 else 2) <= fuel)%nat ->
  streamChunks fuel r chunk lf = Ok (contentLines (chunk ++ pending r) lf).
Proof.
  destruct readChunkSize_nat as [HN HZ].
  set (N := Z.to_nat readChunkSize) in *.
  assert (HNZ : Z.of_nat N = readChunkSize) by (unfold N; rewrite HZ; reflexivity).
  revert r chunk. induction fuel as [|fuel IH]; intros r chunk Hr Hlen Hfuel.
  { destruct (bool_decide (chunk = [])); lia. }
  cbn [streamChunks].
  destruct (fillChunk_ok (S (length r)) r chunk Hr Hlen) as (r' & Hfill & Hr' & Hp');
    [lia|].
  fold N in Hfill, Hp'. rewrite Hfill. cbn [mbind result_bind].
  set (k := (N - length chunk)%nat) in *.
  set (chunk' := chunk ++ firstn k (pending r)).
  fold (contentLines chunk' lf).
  assert (Hlen' : length chunk' = (length chunk + Nat.min k (length (pending r)))%nat).
  { unfold chunk'. rewrite length_app, length_firstn. reflexivity. }
  destruct (Z.ltb_spec (Z.of_nat (length chunk')) readChunkSize) as [Hlt|Hge].
  - f_equal. unfold chunk'. rewrite firstn_all2 by lia. reflexivity.
  - rewrite IH.
    + cbn [mbind result_bind app]. f_equal.
      rewrite <- (contentLines_app 128) by lia.
      f_equal. unfold chunk'. rewrite Hp', <- app_assoc, firstn_skipn. reflexivity.
    + exact Hr'.
    + cbn [length]. lia.
    + rewrite bool_decide_eq_true_2 by reflexivity.
      rewrite Hp', length_skipn.
      destruct (bool_decide (chunk = [])) eqn:Hc.
      * apply bool_decide_eq_true_1 in Hc. subst chunk. cbn [length] in *. lia.
      * lia.
Qed.

(** *** The streaming path and the buffered path *)

(** X1: for a reader that yields the content in pieces of at least one byte
    and reports the end of the stream on a read of its own, the streaming
    path writes byte for byte what the buffered Base64 path writes, in both
    line-ending modes. *)
Theorem streamBody_buffered (ds : list bytes) (useLF : bool) :
  Forall (fun d => d <> []) ds ->
  streamBody (script ds) useLF = Ok (encodeBase64 (concat ds) useLF).
Proof.
  intros Hds. rewrite wrapLines_contentLines.
  destruct readChunkSize_nat as [HN HZ].
  destruct ds as [|d rest]; [reflexivity|].
  inversion Hds as [|? ? Hd Hrest]; subst.
  unfold streamBody, probe. cbn [ContentReader withContent script map Read].
  fold (script rest).
  set (N := Z.to_nat readChunkSize) in *.
  assert (Hlen : (0 < length d)%nat) by (destruct d; [congruence|simpl; lia]).
  destruct (Nat.leb_spec (length d) N) as [Hfit|Hbig];
    cbn [mbind result_bind Content withContent].
  - replace (0 <? length d)%nat with true by (symmetry; apply Nat.ltb_lt; exact Hlen).
    unfold encodeContent, encodeContentFromReader.
    cbn [ContentReader Content withContent]. fold N.
    rewrite firstn_all2 by exact Hfit.
    rewrite streamChunks_ok.
    + rewrite script_pending. reflexivity.
    + apply script_noError.
    + exact Hfit.
    + destruct (bool_decide (d = [])); lia.
  - assert (Hl : length (firstn N d) = N) by (rewrite length_firstn; lia).
    replace (0 <? length (firstn N d))%nat with true
      by (symmetry; apply Nat.ltb_lt; lia).
    unfold encodeContent, encodeContentFromReader.
    cbn [ContentReader Content withContent]. fold N.
    rewrite (firstn_all2 (firstn N d)) by lia.
    rewrite streamChunks_ok.
    + f_equal. f_equal. unfold pending. cbn [map concat fst].
      fold (pending (script rest)). rewrite script_pending.
      rewrite app_assoc, firstn_skipn. reflexivity.
    + constructor; [reflexivity|apply script_noError].
    + lia.
    + destruct (bool_decide (firstn N d = [])); lia.
Qed.

Lemma streamBody_buffered_witness :
  Forall (fun d => d <> []) [bytes_of "ab"; bytes_of "cdef"] /\
  streamBody (script [bytes_of "ab"; bytes_of "cdef"]) false
  = Ok (encodeBase64 (bytes_of "abcdef") false).
Proof.
  split; [repeat constructor; discriminate|].
  apply (streamBody_buffered [bytes_of "ab"; bytes_of "cdef"] false).
  repeat constructor; discriminate.
Defined.

(** C4 fails on such a reader: [encodeContentFromReader] leaves its read
    loop on [io.EOF] before counting the bytes that came with it, so the
    streaming path encodes "abc" where the buffered path encodes "abcdef". *)
Lemma streamBody_drops_bytes_read_with_EOF :
  pending eofWithData = bytes_of "abcdef" /\
  streamBody eofWithData true = Ok (bytes_of "YWJj" ++ [LF]) /\
  encodeBase64 (bytes_of "abcdef") true = bytes_of "YWJjZGVm" ++ [LF].
Proof. repeat split; vm_compute; reflexivity. Qed.

Example EncodeCustom_eofWithData :
  @EncodeCustom plainCollaborators
    (withContent [] (Some eofWithData) emptyPart) TeAuto true
  = Ok (bytes_of "Content-Transfer-Encoding: base64" ++ [LF; LF]
        ++ bytes_of "YWJj" ++ [LF]).
Proof. vm_compute. reflexivity. Qed.

(** ** Termination

    The loops over a reader are modelled with an iteration bound computed
    from the reader; the bound is never the reason a result is returned. *)

Lemma ends_bind {A B : Type} (r : result A) (f : A -> result B) :
  ends r -> (forall a, ends (f a)) -> ends (r ≫= f).
Proof.
  unfold ends. intros Hr Hf. destruct r as [a|e]; cbn [mbind result_bind].
  - apply Hf.
  - intros He. apply Hr. injection He as ->. reflexivity.
Qed.

Lemma fillChunk_progress (fuel : nat) (r : Reader) (chunk : bytes) :
  (length r < fuel)%nat ->
  fillChunk fuel r chunk = Err ErrRead \/
  exists chunk' r',
    fillChunk fuel r chunk = Ok (chunk', r') /\
    (length chunk <= length chunk')%nat /\
    (length (pending r') + length chunk' <= length (pending r) + length chunk)%nat.
Proof.
  destruct readChunkSize_nat as [HN HZ].
  set (N := Z.to_nat readChunkSize) in *.
  assert (HNZ : Z.of_nat N = readChunkSize) by (unfold N; rewrite HZ; reflexivity).
  revert r chunk. induction fuel as [|fuel IH]; intros r chunk Hfuel; [lia|].
  cbn [fillChunk]. fold N.
  destruct (Z.ltb_spec (Z.of_nat (length chunk)) readChunkSize) as [Hlt|Hge].
  - destruct r as [|[d e] rest].
    + right. exists chunk, []. cbn [Read]. repeat split; lia.
    + cbn [Read].
      assert (Hp : length (pending ((d, e) :: rest))
                   = (length d + length (pending rest))%nat).
      { unfold pending. cbn [map concat fst]. apply length_app. }
      destruct (Nat.leb_spec (length d) (N - length chunk)) as [Hfit|Hbig].
      * destruct e as [[|]|].
        -- right. exists chunk, rest. repeat split; lia.
        -- left. reflexivity.
        -- destruct (IH rest (chunk ++ d)) as [Herr|(chunk' & r' & Hf & Hc & Hm)].
           { cbn [length] in Hfuel. lia. }
           { left. exact Herr. }
           right. exists chunk', r'. rewrite length_app in Hc, Hm.
           repeat split; [exact Hf|lia|lia].
      * destruct fuel as [|fuel]; [cbn [length] in Hfuel; lia|].
        cbn [fillChunk]. fold N.
        assert (Hfull : length (chunk ++ firstn (N - length chunk) d) = N).
        { rewrite length_app, length_firstn. lia. }
        rewrite Hfull.
        destruct (Z.ltb_spec (Z.of_nat N) readChunkSize) as [Hbad|_]; [lia|].
        right. eexists _, _. split; [reflexivity|].
        rewrite Hfull. unfold pending at 1. cbn [map concat fst].
        fold (pending rest). rewrite length_app, length_skipn. lia.
  - right. exists chunk, r. repeat split; lia.
Qed.

Lemma streamChunks_ends (fuel : nat) (r : Reader) (chunk : bytes) (lf : bool) :
  (length (pending r) + (if bool_decide (chunk = []) then 1 else 2) <= fuel)%nat ->
  ends (streamChunks fuel r chunk lf).
Proof.
  destruct readChunkSize_nat as [HN HZ].
  revert r chunk. induction fuel as [|fuel IH]; intros r chunk Hfuel.
  { destruct (bool_decide (chunk = [])); lia. }
  cbn [streamChunks].
  destruct (fillChunk_progress (S (length r)) r chunk) as
    [Herr|(chunk' & r' & Hf & Hc & Hm)]; [lia| |].
  - rewrite Herr. discriminate.
  - rewrite Hf. cbn [mbind result_bind].
    destruct (Z.ltb_spec (Z.of_nat (length chunk')) readChunkSize) as [Hlt|Hge];
      [discriminate|].
    apply ends_bind; [|discriminate].
    apply IH. rewrite bool_decide_eq_true_2 by reflexivity.
    destruct (bool_decide (chunk = [])) eqn:Hnil.
    + apply bool_decide_eq_true_1 in Hnil. subst chunk. cbn [length] in *. lia.
    + lia.
Qed.

Lemma encodeContent_ends (p : Part) (cte : TransferEncoding) (lf : bool) :
  ends (encodeContent p cte lf).
Proof.
  unfold encodeContent. destruct (ContentReader p) as [r|].
  - unfold encodeContentFromReader. apply streamChunks_ends.
    destruct (bool_decide _); lia.
  - destruct (match parser p with Some _ => _ | None => _ end); discriminate.
Qed.

Section Termination.
Context `{!Collaborators}.

Lemma emitLines_ends (ls : list (string * string * string)) (lf : bool) :
  ends (emitLines ls lf).
Proof.
  induction ls as [|[[k v] nl] ls IH]; cbn [emitLines]; [discriminate|].
  apply ends_bind.
  - unfold headerLine. destruct (_ <? _)%nat; discriminate.
  - intros wb. apply ends_bind; [exact IH|discriminate].
Qed.

Lemma encodeHead_ends (p : Part) (hint : TransferEncoding) (lf : bool) :
  ends (encodeHead p hint lf).
Proof.
  rewrite encodeHead_eq. apply ends_bind.
  - unfold probe. destruct (ContentReader p) as [r|]; [|discriminate].
    destruct (Read r (Z.to_nat readChunkSize)) as [[d e] r'].
    destruct e as [[|]|]; discriminate.
  - intros p1. apply ends_bind.
    + unfold encodeHeader, encodeHeaderFrom. rewrite encodeKeys_emit.
      apply emitLines_ends.
    + intros hdr. apply ends_bind; [|discriminate].
      destruct (0 <? length (Content p1))%nat; [apply encodeContent_ends|discriminate].
Qed.

(** The iteration bounds this development puts on the read loops are
    large enough for every reader script: no result of [EncodeCustom] is
    the cut-off of a loop by its bound. *)
Theorem EncodeCustom_ends (p : Part) (hint : TransferEncoding) (lf : bool) :
  ends (EncodeCustom p hint lf).
Proof.
  assert (Hboth : ends (EncodeCustom p hint lf) /\
                  forall mark, ends (encodeSiblings p mark hint lf)).
  { induction p as [p IHc IHs] using Part_tree_ind.
    assert (Hp : ends (EncodeCustom p hint lf)).
    { rewrite EncodeCustom_eq. apply ends_bind; [apply encodeHead_ends|].
      intros [p' head]. destruct (FirstChild p) as [c|] eqn:Hfc; [|discriminate].
      apply ends_bind; [|discriminate]. apply (IHc c eq_refl). }
    split; [exact Hp|]. intros mark. rewrite encodeSiblings_eq.
    apply ends_bind; [exact Hp|]. intros out.
    apply ends_bind; [|discriminate].
    destruct (NextSibling p) as [s|] eqn:Hns; [|discriminate].
    apply (IHs s eq_refl). }
  apply Hboth.
Qed.

End Termination.

(** * Further properties *)

(** ** More on the encoding selector *)

Lemma selectLoop_range q T c bc ml ll :
  selectLoop q T c bc ml ll = Te7Bit \/ selectLoop q T c bc ml ll = TeQuoted \/
  selectLoop q T c bc ml ll = TeBase64.
Proof.
  revert bc ml ll. induction c as [|b c IH]; intros bc ml ll.
  - simpl. destruct ((bc =? 0) && _); auto.
  - rewrite selectLoop_step. cbv zeta.
    destruct (qualifying q b); [destruct (bc + 1 >=? T)|]; auto.
Qed.

Lemma selectTransferEncoding_range_aux (c : bytes) (q : bool) :
  selectTransferEncoding c q = Te7Bit \/ selectTransferEncoding c q = TeQuoted \/
  selectTransferEncoding c q = TeBase64.
Proof.
  destruct c as [|b c]; [left; reflexivity|]. apply selectLoop_range.
Qed.

(** X4: the selector answers 7-bit, quoted-printable or Base64 and never
    one of the other two values of [TransferEncoding]. *)
Theorem selectTransferEncoding_range (c : bytes) (q : bool) :
  selectTransferEncoding c q <> TeRaw /\ selectTransferEncoding c q <> TeAuto /\
  (selectTransferEncoding c q = Te7Bit \/ selectTransferEncoding c q = TeQuoted \/
   selectTransferEncoding c q = TeBase64).
Proof.
  pose proof (selectTransferEncoding_range_aux c q) as Hr.
  repeat split; try exact Hr; intros He; rewrite He in Hr;
    destruct Hr as [Hr|[Hr|Hr]]; discriminate Hr.
Qed.

Lemma tally_zero q (c : bytes) :
  tally q c = 0 <-> Forall (fun b => qualifying q b = false) c.
Proof.
  induction c as [|b c IH]; simpl.
  - split; [constructor|reflexivity].
  - pose proof (tally_nonneg q c) as Hc. rewrite Forall_cons.
    destruct (qualifying q b); split.
    + lia.
    + intros [Hb _]. discriminate Hb.
    + intros Ht. split; [reflexivity|]. apply IH. lia.
    + intros [_ Hall]. apply IH in Hall. lia.
Qed.

(** The 7-bit answer for either value of the flag. *)
Lemma selectLoop_7bit_tally q T c cur ml :
  selectLoop q T c 0 ml (Z.of_nat (length cur)) = Te7Bit <->
  tally q c = 0 /\ ml <= 78 /\
  Forall (fun l => Z.of_nat (length l) <= 78) (splitLines cur c).
Proof.
  revert cur ml. induction c as [|b c IH]; intros cur ml.
  - simpl. rewrite Forall_singleton.
    destruct (Z.ltb_spec ml (Z.of_nat (length cur))).
    + destruct (Z.leb_spec (Z.of_nat (length cur)) 78); split;
        try discriminate; intros; repeat split; lia.
    + destruct (Z.leb_spec ml 78); split;
        try discriminate; intros; repeat split; lia.
  - rewrite selectLoop_step. cbv zeta. simpl tally.
    pose proof (tally_nonneg q c) as Hc.
    destruct (qualifying q b) eqn:Eq.
    + split; [|lia].
      destruct (0 + 1 >=? T); [discriminate|].
      intros H. exfalso. revert H. apply selectLoop_counted. lia.
    + simpl splitLines. destruct (isLineBreak b) eqn:El.
      * change 0 with (Z.of_nat (length (@nil byte))) at 2.
        rewrite IH, Forall_cons. split; intros; repeat split; try tauto; lia.
      * replace (Z.of_nat (length cur) + 1) with (Z.of_nat (length (cur ++ [b])))
          by (rewrite length_app; simpl; lia).
        rewrite IH. split; intros; repeat split; try tauto; lia.
Qed.

Lemma selectTransferEncoding_7bit_tally (c : bytes) (q : bool) :
  selectTransferEncoding c q = Te7Bit <-> tally q c = 0 /\ shortLines c.
Proof.
  destruct c as [|b c].
  - simpl. split; [|reflexivity]. intros _. split; [reflexivity|].
    unfold shortLines, lines. simpl. constructor; [simpl; lia|constructor].
  - unfold selectTransferEncoding, shortLines, lines.
    change 0 with (Z.of_nat (length (@nil byte))) at 3.
    rewrite selectLoop_7bit_tally. split; intros; repeat split; try tauto; lia.
Qed.

Lemma selectTransferEncoding_base64_tally (c : bytes) (q : bool) :
  selectTransferEncoding c q = TeBase64 <->
  1 <= tally q c /\ b64Percent * Z.of_nat (length c) / 100 <= tally q c.
Proof.
  destruct c as [|b c].
  - simpl. split; [discriminate|lia].
  - unfold selectTransferEncoding. rewrite selectLoop_base64. reflexivity.
Qed.

Lemma splitLines_plain (cur c : bytes) :
  Forall (fun b => isLineBreak b = false) c -> splitLines cur c = [cur ++ c].
Proof.
  intros Hc. revert cur. induction Hc as [|b c Hb _ IH]; intros cur; simpl.
  - rewrite app_nil_r. reflexivity.
  - rewrite Hb, IH, <- app_assoc. reflexivity.
Qed.

Lemma splitLines_bound (cur c : bytes) :
  Forall (fun l => (length l <= length cur + length c)%nat) (splitLines cur c).
Proof.
  revert cur. induction c as [|b c IH]; intros cur; simpl.
  - constructor; [lia|constructor].
  - destruct (isLineBreak b).
    + constructor; [lia|].
      eapply Forall_impl; [apply (IH [])|]. simpl. intros l Hl. lia.
    + eapply Forall_impl; [apply (IH (cur ++ [b]))|]. simpl. intros l Hl.
      rewrite length_app in Hl. simpl in Hl. lia.
Qed.

Lemma qualifying_true (b : byte) : qualifying true b = isControl b.
Proof. unfold qualifying. simpl. apply andb_true_r. Qed.

(** X5: with line breaks quoted (the mode for header values and file
    names) the selector answers 7-bit exactly when every byte is printable
    ASCII or a tab and there are at most 78 bytes. *)
Theorem selectTransferEncoding_header_7bit (c : bytes) :
  selectTransferEncoding c true = Te7Bit <->
  Forall printableOrTab c /\ (length c <= 78)%nat.
Proof.
  rewrite selectTransferEncoding_7bit_tally, tally_zero.
  assert (Hq : Forall (fun b => qualifying true b = false) c <-> Forall printableOrTab c).
  { split; intros Hall; eapply Forall_impl; try exact Hall; simpl; intros b Hb.
    - apply isControl_false. rewrite <- qualifying_true. exact Hb.
    - rewrite qualifying_true. apply isControl_false. exact Hb. }
  rewrite Hq.
  assert (Hl : Forall printableOrTab c -> shortLines c <-> (length c <= 78)%nat).
  { intros Hall. unfold shortLines, lines. rewrite splitLines_plain.
    - rewrite Forall_singleton. simpl. lia.
    - eapply Forall_impl; [exact Hall|]. simpl. intros b Hb.
      apply isControl_false in Hb.
      destruct (isLineBreak b) eqn:El; [|reflexivity].
      apply isLineBreak_isControl in El. congruence. }
  split; intros [Hall Hs]; (split; [exact Hall|]); apply (Hl Hall); exact Hs.
Qed.

(** X6: for both values of the flag the selector answers quoted-printable
    exactly when the input is not empty, holds a qualifying byte or a line
    longer than 78 bytes, and holds fewer qualifying bytes than the
    threshold 20 * len / 100. *)
Theorem selectTransferEncoding_quoted_iff (c : bytes) (q : bool) :
  selectTransferEncoding c q = TeQuoted <->
  (1 <= tally q c \/ ~ shortLines c) /\
  tally q c < Z.max 1 (b64Percent * Z.of_nat (length c) / 100).
Proof.
  pose proof (selectTransferEncoding_range_aux c q) as Hr.
  pose proof (selectTransferEncoding_7bit_tally c q) as H7.
  pose proof (selectTransferEncoding_base64_tally c q) as H64.
  pose proof (tally_nonneg q c) as Hn.
  split.
  - intros Hq. rewrite Hq in H7, H64. split.
    + destruct (Z.eq_dec (tally q c) 0) as [H0|H0]; [|left; lia].
      right. intros Hs. destruct H7 as [_ H7].
      specialize (H7 (conj H0 Hs)). discriminate H7.
    + destruct (Z.lt_ge_cases (tally q c)
                  (Z.max 1 (b64Percent * Z.of_nat (length c) / 100))) as [Hlt|Hge];
        [exact Hlt|].
      destruct H64 as [_ H64]. assert (He : TeQuoted = TeBase64) by (apply H64; lia).
      discriminate He.
  - intros [Hbin Hlt]. destruct Hr as [Hr|[Hr|Hr]]; [|exact Hr|].
    + apply H7 in Hr. destruct Hr as [H0 Hs]. destruct Hbin as [Hb|Hb]; [lia|tauto].
    + apply H64 in Hr. lia.
Qed.

(** X7: an input shorter than ten bytes is never quoted-printable: one
    qualifying byte already reaches the threshold, and without one no line
    can be too long. *)
Theorem selectTransferEncoding_short_not_quoted (c : bytes) (q : bool) :
  (length c < 10)%nat -> selectTransferEncoding c q <> TeQuoted.
Proof.
  intros Hlen Hq.
  pose proof (selectTransferEncoding_7bit_tally c q) as H7.
  pose proof (selectTransferEncoding_base64_tally c q) as H64.
  pose proof (tally_nonneg q c) as Hn.
  rewrite Hq in H7, H64.
  destruct (Z.eq_dec (tally q c) 0) as [H0|H0].
  - destruct H7 as [_ H7]. assert (He : TeQuoted = Te7Bit); [|discriminate He].
    apply H7. split; [exact H0|].
    unfold shortLines, lines.
    eapply Forall_impl; [apply (splitLines_bound [] c)|]. simpl. intros l Hl. lia.
  - destruct H64 as [_ H64]. assert (He : TeQuoted = TeBase64); [|discriminate He].
    apply H64. split; [lia|].
    assert (Ht : b64Percent * Z.of_nat (length c) / 100 < 2).
    { unfold b64Percent. apply Z.div_lt_upper_bound; lia. }
    lia.
Qed.

Lemma selectTransferEncoding_short_not_quoted_witness :
  (length (bytes_of "caf" ++ [xc3; xa9]) < 10)%nat /\
  selectTransferEncoding (bytes_of "caf" ++ [xc3; xa9]) true <> TeQuoted.
Proof.
  split; [simpl; lia|].
  apply (selectTransferEncoding_short_not_quoted (bytes_of "caf" ++ [xc3; xa9]) true).
  simpl. lia.
Defined.

Lemma selectLoop_flag T c bc ml ll :
  Forall (fun b => isLineBreak b = false) c ->
  selectLoop true T c bc ml ll = selectLoop false T c bc ml ll.
Proof.
  intros Hc. revert bc ml ll. induction Hc as [|b c Hb _ IH]; intros bc ml ll.
  - reflexivity.
  - rewrite !selectLoop_step. cbv zeta. unfold qualifying. rewrite Hb. simpl.
    rewrite !IH. reflexivity.
Qed.

(** X8: the flag matters through CR and LF only: on an input without
    line-break bytes both modes give the same answer. *)
Theorem selectTransferEncoding_flag_irrelevant (c : bytes) :
  Forall (fun b => isLineBreak b = false) c ->
  selectTransferEncoding c true = selectTransferEncoding c false.
Proof.
  intros Hc. destruct c as [|b c]; [reflexivity|].
  unfold selectTransferEncoding. apply selectLoop_flag. exact Hc.
Qed.

Lemma selectTransferEncoding_flag_irrelevant_witness :
  Forall (fun b => isLineBreak b = false) (bytes_of "caf" ++ [xc3; xa9]) /\
  selectTransferEncoding (bytes_of "caf" ++ [xc3; xa9]) true
  = selectTransferEncoding (bytes_of "caf" ++ [xc3; xa9]) false.
Proof.
  split; [repeat constructor|].
  apply (selectTransferEncoding_flag_irrelevant (bytes_of "caf" ++ [xc3; xa9])).
  repeat constructor.
Defined.

(** ** More on the MIME header builder *)

Lemma sameSource_refl (p : Part) : sameSource p p.
Proof. unfold sameSource. repeat split. Qed.

Lemma sameSource_trans (p q r : Part) :
  sameSource p q -> sameSource q r -> sameSource p r.
Proof.
  unfold sameSource. intros H1 H2.
  destruct H1 as (?&?&?&?&?&?&?&?&?&?), H2 as (?&?&?&?&?&?&?&?&?&?).
  repeat split; congruence.
Qed.

Section SetupMore.
Context `{!Collaborators}.

Local Tactic Notation "frame_cases" reference(f) :=
  unfold f, sameSource; repeat case_match; simplify_eq; simpl;
  repeat split; try congruence;
  try (intros k Hk; unfold Header_Del;
       first [apply Header_Set_lookup_ne | apply lookup_delete_ne]; congruence).

Lemma clearContentEncoding_same (p : Part) :
  sameSource p (clearContentEncoding p) /\
  Charset (clearContentEncoding p) = Charset p /\
  Disposition (clearContentEncoding p) = Disposition p /\
  forall k, k <> CanonicalMIMEHeaderKey hnContentEncoding ->
            Header (clearContentEncoding p) !! k = Header p !! k.
Proof.
  frame_cases clearContentEncoding.
Qed.

Lemma determineEncoding_same (p : Part) (hint : TransferEncoding) :
  sameSource p (determineEncoding p hint).1 /\
  Disposition (determineEncoding p hint).1 = Disposition p /\
  forall k, k <> CanonicalMIMEHeaderKey hnContentEncoding ->
            Header (determineEncoding p hint).1 !! k = Header p !! k.
Proof.
  frame_cases determineEncoding.
Qed.

Lemma generateBoundary_same (p : Part) :
  sameSource p (generateBoundary p) /\
  Charset (generateBoundary p) = Charset p /\
  Disposition (generateBoundary p) = Disposition p.
Proof. frame_cases generateBoundary. Qed.

Lemma setContentID_same (p : Part) :
  sameSource p (setContentID p) /\
  Charset (setContentID p) = Charset p /\
  Disposition (setContentID p) = Disposition p /\
  forall k, k <> CanonicalMIMEHeaderKey hnContentID ->
            Header (setContentID p) !! k = Header p !! k.
Proof.
  frame_cases setContentID.
Qed.

Lemma buildContentType_same (fileName : string) (p : Part) :
  sameSource p (buildContentType fileName p) /\
  Charset (buildContentType fileName p) = Charset p /\
  Disposition (buildContentType fileName p) = Disposition p /\
  forall k, k <> CanonicalMIMEHeaderKey hnContentType ->
            Header (buildContentType fileName p) !! k = Header p !! k.
Proof.
  frame_cases buildContentType.
Qed.

Lemma buildDisposition_same (fileName : string) (p : Part) :
  sameSource p (buildDisposition fileName p) /\
  Charset (buildDisposition fileName p) = Charset p /\
  forall k, k <> CanonicalMIMEHeaderKey hnContentDisposition ->
            Header (buildDisposition fileName p) !! k = Header p !! k.
Proof.
  frame_cases buildDisposition.
Qed.

Lemma setupMIMEHeaders_sameSource (p : Part) (hint : TransferEncoding) :
  sameSource p (setupMIMEHeaders p hint).1.
Proof.
  rewrite setupMIMEHeaders_steps. cbv zeta.
  eapply sameSource_trans; [apply clearContentEncoding_same|].
  eapply sameSource_trans; [apply (determineEncoding_same _ hint)|].
  eapply sameSource_trans; [apply generateBoundary_same|].
  eapply sameSource_trans; [apply setContentID_same|].
  eapply sameSource_trans; [apply buildContentType_same|].
  apply buildDisposition_same.
Qed.

Lemma setupMIMEHeaders_other_fields (p : Part) (hint : TransferEncoding) (k : string) :
  k ∉ builtFields ->
  Header (setupMIMEHeaders p hint).1 !! k = Header p !! k.
Proof.
  intros Hk.
  assert (Hne : forall n, n ∈ [hnContentEncoding; hnContentID; hnContentType;
                               hnContentDisposition] ->
                          k <> CanonicalMIMEHeaderKey n).
  { intros n Hn ->. apply Hk. unfold builtFields.
    apply list_elem_of_fmap. exists n. split; [reflexivity|exact Hn]. }
  rewrite setupMIMEHeaders_steps. cbv zeta.
  rewrite (proj2 (proj2 (buildDisposition_same _ _))) by (apply Hne; set_solver).
  rewrite (proj2 (proj2 (proj2 (buildContentType_same _ _)))) by (apply Hne; set_solver).
  rewrite (proj2 (proj2 (proj2 (setContentID_same _)))) by (apply Hne; set_solver).
  rewrite (proj1 (proj2 (generateBoundary_frame _))).
  rewrite (proj2 (proj2 (determineEncoding_same _ _))) by (apply Hne; set_solver).
  apply clearContentEncoding_same. apply Hne. set_solver.
Qed.

(** X9: [setupMIMEHeaders] leaves alone the content and its reader, the
    links to children and siblings, the parser, the file name, the content
    ID, the content-type parameters, the modification date and the random
    source, and every header field other than Content-Transfer-Encoding,
    Content-Id, Content-Type and Content-Disposition. *)
Theorem setupMIMEHeaders_frame (p : Part) (hint : TransferEncoding) :
  sameSource p (setupMIMEHeaders p hint).1 /\
  (forall k, k ∉ builtFields ->
             Header (setupMIMEHeaders p hint).1 !! k = Header p !! k).
Proof.
  split; [apply setupMIMEHeaders_sameSource|].
  intros k. apply setupMIMEHeaders_other_fields.
Qed.

Lemma chosenEncoding_clear (p : Part) (hint : TransferEncoding) :
  chosenEncoding (clearContentEncoding p) hint =
  if (0 <? length (Content p))%nat then
    if textual p && negb (bool_decide (is_Some (ContentReader p))) then
      match hint with
      | TeAuto => selectTransferEncoding (Content p) false
      | _ => hint
      end
    else TeBase64
  else Te7Bit.
Proof.
  unfold chosenEncoding, textual.
  destruct (clearContentEncoding_frame p) as (_ & _ & _ & -> & ->).
  reflexivity.
Qed.

(** X10: the transfer encoding [setupMIMEHeaders] returns is never
    [TeAuto]; it is [Te7Bit] for a part without content and [TeBase64] for
    content that is streamed or not text; and it is [TeRaw] only when the
    caller's hint is [TeRaw] and the content is buffered text. *)
Theorem setupMIMEHeaders_encoding (p : Part) (hint : TransferEncoding) :
  let cte := (setupMIMEHeaders p hint).2 in
  cte <> TeAuto /\
  (Content p = [] -> cte = Te7Bit) /\
  (Content p <> [] -> is_Some (ContentReader p) \/ textual p = false ->
   cte = TeBase64) /\
  (cte = TeRaw ->
   hint = TeRaw /\ Content p <> [] /\ ContentReader p = None /\ textual p = true).
Proof.
  cbv zeta. rewrite setupMIMEHeaders_cte, chosenEncoding_clear.
  pose proof (selectTransferEncoding_range_aux (Content p) false) as Hr.
  destruct (Content p) as [|b c] eqn:Hc.
  { simpl. repeat split; try discriminate. intros Hn. contradiction. }
  change (0 <? length (b :: c))%nat with true. cbv iota.
  destruct (ContentReader p) as [r|] eqn:Hrd.
  - rewrite bool_decide_true by eauto. rewrite andb_false_r.
    repeat split; try discriminate.
  - rewrite bool_decide_false by (intros [? ?]; discriminate).
    rewrite andb_true_r. destruct (textual p).
    + split; [destruct hint; try discriminate; destruct Hr as [-> | [-> | ->]];
              discriminate|].
      split; [discriminate|].
      split; [intros _ [[? ?] | ?]; discriminate|].
      destruct hint; try discriminate; [|].
      * intros _. repeat split. discriminate.
      * destruct Hr as [-> | [-> | ->]]; discriminate.
    + repeat split; try discriminate.
Qed.

Lemma determineEncoding_auto (p : Part) :
  determineEncoding p TeAuto =
  determineEncoding p (selectTransferEncoding (Content p) false).
Proof.
  unfold determineEncoding.
  destruct (selectTransferEncoding_range_aux (Content p) false)
    as [-> | [-> | ->]]; reflexivity.
Qed.

Lemma setupMIMEHeaders_auto_aux (p : Part) :
  setupMIMEHeaders p TeAuto =
  setupMIMEHeaders p (selectTransferEncoding (Content p) false).
Proof.
  unfold setupMIMEHeaders. rewrite determineEncoding_auto.
  destruct (clearContentEncoding_frame p) as (_ & _ & _ & -> & _).
  reflexivity.
Qed.

Lemma determineEncoding_hint_ignored (p : Part) (h1 h2 : TransferEncoding) :
  Content p = [] \/ is_Some (ContentReader p) \/ TextContent p = false ->
  determineEncoding p h1 = determineEncoding p h2.
Proof.
  unfold determineEncoding. intros [-> | [Hr | ->]]; [reflexivity| |reflexivity].
  rewrite bool_decide_true by exact Hr. rewrite andb_false_r. reflexivity.
Qed.

Lemma setupMIMEHeaders_hint_ignored_aux (p : Part) (h1 h2 : TransferEncoding) :
  Content p = [] \/ is_Some (ContentReader p) \/ textual p = false ->
  setupMIMEHeaders p h1 = setupMIMEHeaders p h2.
Proof.
  intros Hp. unfold setupMIMEHeaders.
  rewrite (determineEncoding_hint_ignored _ h1 h2); [reflexivity|].
  destruct (clearContentEncoding_frame p) as (_ & _ & _ & -> & ->).
  exact Hp.
Qed.

(** X11: leaving the choice to [setupMIMEHeaders] ([TeAuto]) is the same
    as passing it the answer of [selectTransferEncoding] on the content,
    line breaks not counted: the part and the encoding returned agree. *)
Theorem setupMIMEHeaders_auto (p : Part) :
  setupMIMEHeaders p TeAuto =
  setupMIMEHeaders p (selectTransferEncoding (Content p) false).
Proof.
  unfold setupMIMEHeaders. rewrite determineEncoding_auto.
  destruct (clearContentEncoding_frame p) as (_ & _ & _ & -> & _).
  reflexivity.
Qed.

(** X12: for a part without content, with streamed content or with
    content that is not text, [setupMIMEHeaders] ignores the caller's
    hint. *)
Theorem setupMIMEHeaders_hint_ignored (p : Part) (h1 h2 : TransferEncoding) :
  Content p = [] \/ is_Some (ContentReader p) \/ textual p = false ->
  setupMIMEHeaders p h1 = setupMIMEHeaders p h2.
Proof.
  intros Hp. unfold setupMIMEHeaders.
  rewrite (determineEncoding_hint_ignored _ h1 h2); [reflexivity|].
  destruct (clearContentEncoding_frame p) as (_ & _ & _ & -> & ->).
  exact Hp.
Qed.

Lemma encodeHead_auto (p : Part) (lf : bool) :
  encodeHead p TeAuto lf =
  encodeHead p (selectTransferEncoding (Content p) false) lf.
Proof.
  rewrite !encodeHead_eq. unfold probe.
  destruct (ContentReader p) as [r|] eqn:Hr.
  - destruct (Read r (Z.to_nat readChunkSize)) as [[d e] r'].
    assert (Hi : forall q, ContentReader q = Some r' ->
              setupMIMEHeaders q TeAuto =
              setupMIMEHeaders q (selectTransferEncoding (Content p) false)).
    { intros q Hq. apply setupMIMEHeaders_hint_ignored_aux.
      right. left. rewrite Hq. eauto. }
    destruct e as [[|]|]; cbn [mbind result_bind]; try reflexivity;
      rewrite (Hi (withContent d (Some r') p) eq_refl); reflexivity.
  - cbn [mbind result_bind]. rewrite setupMIMEHeaders_auto_aux. reflexivity.
Qed.

(** X13: for a part without children, [Encode] writes what
    [EncodeUsingCte] writes when it is given the encoding
    [selectTransferEncoding] picks for the content. *)
Theorem Encode_leaf (p : Part) :
  FirstChild p = None ->
  Encode p = EncodeUsingCte p (selectTransferEncoding (Content p) false).
Proof.
  intros Hfc. unfold Encode, EncodeUsingCte.
  rewrite !EncodeCustom_eq, encodeHead_auto, Hfc. reflexivity.
Qed.

Lemma determineEncoding_Charset (p : Part) (hint : TransferEncoding) :
  Charset (determineEncoding p hint).1 =
  if (0 <? length (Content p))%nat && TextContent p
     && negb (bool_decide (is_Some (ContentReader p)))
     && String.eqb (Charset p) ""
  then utf8 else Charset p.
Proof.
  unfold determineEncoding.
  destruct (0 <? length (Content p))%nat; [|reflexivity].
  destruct (TextContent p); destruct (bool_decide (is_Some (ContentReader p)));
    cbn [andb negb]; try reflexivity.
  destruct (String.eqb (Charset p) ""); destruct hint; try reflexivity;
    destruct (selectTransferEncoding (Content p) false); reflexivity.
Qed.

Lemma setupMIMEHeaders_Charset (p : Part) (hint : TransferEncoding) :
  Charset (setupMIMEHeaders p hint).1 =
  if (0 <? length (Content p))%nat && textual p
     && negb (bool_decide (is_Some (ContentReader p)))
     && String.eqb (Charset p) ""
  then utf8 else Charset p.
Proof.
  rewrite setupMIMEHeaders_steps. cbv zeta.
  rewrite (proj1 (proj2 (buildDisposition_same _ _))).
  rewrite (proj1 (proj2 (buildContentType_same _ _))).
  rewrite (proj1 (proj2 (setContentID_same _))).
  rewrite (proj1 (proj2 (generateBoundary_same _))).
  rewrite determineEncoding_Charset.
  destruct (clearContentEncoding_frame p) as (_ & _ & _ & -> & ->).
  rewrite (proj1 (proj2 (clearContentEncoding_same p))).
  reflexivity.
Qed.

Lemma needsCharset_test (p : Part) :
  (0 <? length (Content p))%nat && textual p
  && negb (bool_decide (is_Some (ContentReader p)))
  && String.eqb (Charset p) "" = true <-> needsCharset p.
Proof.
  unfold needsCharset.
  rewrite !andb_true_iff, negb_true_iff, bool_decide_eq_false,
    Nat.ltb_lt, String.eqb_eq.
  destruct (Content p) as [|b c]; simpl;
    destruct (ContentReader p) as [r|]; split;
    try (intros (((H1 & H2) & H3) & H4); repeat split; try assumption;
         try lia; try discriminate; try (exfalso; apply H3; eauto); fail);
    intros (H1 & H2 & H3 & H4); try discriminate; try contradiction.
  repeat split; try assumption; try lia. intros [? ?]; discriminate.
Qed.

(** X14: [setupMIMEHeaders] sets the charset to utf-8 for buffered text
    content that is not empty and has no charset, and leaves the charset of
    every other part as it was, whatever the hint. *)
Theorem setupMIMEHeaders_charset_default (p : Part) (hint : TransferEncoding) :
  (needsCharset p -> Charset (setupMIMEHeaders p hint).1 = utf8) /\
  (~ needsCharset p -> Charset (setupMIMEHeaders p hint).1 = Charset p).
Proof.
  rewrite setupMIMEHeaders_Charset.
  pose proof (needsCharset_test p) as Ht.
  destruct ((0 <? length (Content p))%nat && textual p
            && negb (bool_decide (is_Some (ContentReader p)))
            && String.eqb (Charset p) "").
  - split; [reflexivity|]. intros Hn. exfalso. apply Hn, Ht. reflexivity.
  - split; [|reflexivity]. intros Hn. apply Ht in Hn. discriminate.
Qed.

Lemma Header_Set_is_Some (k v k' : string) (h : gmap string (list string)) :
  is_Some (h !! k') -> is_Some (Header_Set k v h !! k').
Proof.
  intros Hk. unfold Header_Set.
  destruct (decide (CanonicalMIMEHeaderKey k = k')) as [<-|Hne].
  - rewrite lookup_insert_eq. eauto.
  - rewrite lookup_insert_ne by exact Hne. exact Hk.
Qed.

Local Tactic Notation "keep_cases" reference(f) :=
  intros Hk; unfold f; repeat case_match; simplify_eq; simpl;
  try exact Hk; apply Header_Set_is_Some; exact Hk.

Lemma determineEncoding_keeps (p : Part) (hint : TransferEncoding) (k : string) :
  is_Some (Header p !! k) -> is_Some (Header (determineEncoding p hint).1 !! k).
Proof. keep_cases determineEncoding. Qed.

Lemma setContentID_keeps (p : Part) (k : string) :
  is_Some (Header p !! k) -> is_Some (Header (setContentID p) !! k).
Proof. keep_cases setContentID. Qed.

Lemma buildContentType_keeps (fileName : string) (p : Part) (k : string) :
  is_Some (Header p !! k) -> is_Some (Header (buildContentType fileName p) !! k).
Proof. keep_cases buildContentType. Qed.

Lemma buildDisposition_keeps (fileName : string) (p : Part) (k : string) :
  is_Some (Header p !! k) -> is_Some (Header (buildDisposition fileName p) !! k).
Proof. keep_cases buildDisposition. Qed.

Lemma clearContentEncoding_keeps (p : Part) (k : string) :
  k <> CanonicalMIMEHeaderKey hnContentEncoding \/ reparsed p = false ->
  is_Some (Header p !! k) -> is_Some (Header (clearContentEncoding p) !! k).
Proof.
  intros Hc Hk. unfold clearContentEncoding, reparsed in *.
  destruct (parser p) as [ps|]; [|exact Hk].
  destruct (negb (rawContent ps)); [|exact Hk].
  destruct Hc as [Hne|Hf]; [|discriminate Hf].
  simpl. unfold Header_Del. rewrite lookup_delete_ne by congruence. exact Hk.
Qed.

(** X15: [setupMIMEHeaders] removes no header field, the one exception
    being the Content-Transfer-Encoding of a part that came from a parser
    which does not keep content raw.  A field it does not build anew stays
    in the header, also when the part's own field that it was built from
    (content ID, content type, disposition) is now empty. *)
Theorem setupMIMEHeaders_keeps_fields (p : Part) (hint : TransferEncoding)
    (k : string) :
  is_Some (Header p !! k) ->
  k <> CanonicalMIMEHeaderKey hnContentEncoding \/ reparsed p = false ->
  is_Some (Header (setupMIMEHeaders p hint).1 !! k).
Proof.
  intros Hk Hc. rewrite setupMIMEHeaders_steps. cbv zeta.
  apply buildDisposition_keeps, buildContentType_keeps, setContentID_keeps.
  rewrite (proj1 (proj2 (generateBoundary_frame _))).
  apply determineEncoding_keeps, clearContentEncoding_keeps; assumption.
Qed.

Lemma buildContentType_declares (p : Part) :
  ContentType p <> ""%string ->
  let q := buildContentType (encodeWord (FileName p)) p in
  let mt := FormatMediaType (ContentType p) (typeParams p) in
  contentTypeField (Header q) = Some [ContentType q] /\
  ContentType q = (if String.eqb mt "" then ContentType p else mt).
Proof.
  intros Hct. cbv zeta. unfold buildContentType, typeParams, contentTypeField.
  destruct (String.eqb_spec (ContentType p) "") as [He|_]; [contradiction|].
  cbn [negb].
  destruct (String.eqb (FormatMediaType _ _) ""); cbn [negb];
    (split; [apply Header_Set_lookup|reflexivity]).
Qed.

(** X16: for a part with a content type, [setupMIMEHeaders] formats the
    type with the parameters the part ends up with (its own parameters,
    then charset, name and boundary where they are not empty), keeps the
    old type if the formatter returns nothing, and stores the result as
    the only value of the Content-Type field.  With children the boundary
    parameter is the part's boundary, overriding one among the part's own
    parameters. *)
Theorem setupMIMEHeaders_content_type (p : Part) (hint : TransferEncoding) :
  ContentType p <> ""%string ->
  let p' := (setupMIMEHeaders p hint).1 in
  let mt := FormatMediaType (ContentType p) (typeParams p') in
  contentTypeField (Header p') = Some [ContentType p'] /\
  ContentType p' = (if String.eqb mt "" then ContentType p else mt) /\
  (is_Some (FirstChild p) -> typeParams p' !! hpBoundary = Some (Boundary p')).
Proof.
  intros Hct. cbv zeta.
  pose proof (setupMIMEHeaders_Boundary_children p hint) as Hb.
  revert Hb. rewrite setupMIMEHeaders_steps. cbv zeta.
  set (p3 := setContentID (generateBoundary
               (determineEncoding (clearContentEncoding p) hint).1)).
  assert (H3 : ContentType p3 = ContentType p).
  { unfold p3.
    rewrite (proj1 (proj2 (proj2 (setContentID_frame _)))).
    rewrite (proj1 (proj2 (proj2 (generateBoundary_frame _)))).
    rewrite (proj1 (proj2 (proj2 (determineEncoding_frame _ _)))).
    apply clearContentEncoding_frame. }
  set (fn := encodeWord (FileName p3)).
  set (q := buildContentType fn p3).
  assert (Hq : typeParams (buildDisposition fn q) = typeParams p3).
  { unfold typeParams.
    destruct (buildDisposition_same fn q) as ((_&_&_&_&_&->&_&->&_) & -> & _).
    rewrite (proj1 (proj2 (buildDisposition_frame fn q))).
    unfold q.
    destruct (buildContentType_same fn p3) as ((_&_&_&_&_&->&_&->&_) & -> & _).
    rewrite (proj1 (proj2 (buildContentType_frame fn p3))). reflexivity. }
  destruct (buildContentType_declares p3) as [Hf Ht]; [congruence|].
  fold fn in Hf, Ht. fold q in Hf, Ht. intros Hb.
  rewrite (proj2 (buildDisposition_fields fn q)), Hq.
  rewrite (proj1 (proj2 (proj2 (buildDisposition_frame fn q)))).
  rewrite <- H3. split; [exact Hf|]. split; [exact Ht|].
  intros Hfc. specialize (Hb Hfc).
  rewrite <- Hq. unfold typeParams at 1, setParamValue at 1.
  destruct (String.eqb_spec (Boundary (buildDisposition fn q)) "") as [He|_];
    [contradiction|].
  apply lookup_insert_eq.
Qed.

End SetupMore.

Lemma setupMIMEHeaders_hint_ignored_witness :
  (Content streamedPart = [] \/ is_Some (ContentReader streamedPart) \/
   @textual plainCollaborators streamedPart = false) /\
  @setupMIMEHeaders plainCollaborators streamedPart TeQuoted =
  @setupMIMEHeaders plainCollaborators streamedPart TeRaw.
Proof.
  assert (Hr : is_Some (ContentReader streamedPart)) by (eexists; reflexivity).
  split; [right; left; exact Hr|].
  apply (@setupMIMEHeaders_hint_ignored plainCollaborators streamedPart
           TeQuoted TeRaw).
  right. left. exact Hr.
Defined.

Lemma Encode_leaf_witness :
  FirstChild binaryPart = None /\
  @Encode plainCollaborators binaryPart =
  @EncodeUsingCte plainCollaborators binaryPart
    (selectTransferEncoding (Content binaryPart) false).
Proof.
  split; [reflexivity|].
  apply (@Encode_leaf plainCollaborators binaryPart). reflexivity.
Defined.

Lemma setupMIMEHeaders_keeps_fields_witness :
  is_Some (Header staleEncodingPart !! "Content-Transfer-Encoding"%string) /\
  is_Some (Header (@setupMIMEHeaders plainCollaborators staleEncodingPart TeAuto).1
             !! "Content-Transfer-Encoding"%string).
Proof.
  assert (Hk : is_Some (Header staleEncodingPart
                          !! "Content-Transfer-Encoding"%string)).
  { exists ["base64"%string]. reflexivity. }
  split; [exact Hk|].
  apply (@setupMIMEHeaders_keeps_fields plainCollaborators staleEncodingPart
           TeAuto "Content-Transfer-Encoding"%string Hk).
  right. reflexivity.
Defined.

Lemma setupMIMEHeaders_content_type_witness :
  ContentType bareTextPart <> ""%string /\
  contentTypeField (Header (@setupMIMEHeaders plainCollaborators bareTextPart TeAuto).1)
  = Some [ContentType (@setupMIMEHeaders plainCollaborators bareTextPart TeAuto).1].
Proof.
  assert (Hct : ContentType bareTextPart <> ""%string) by discriminate.
  split; [exact Hct|].
  exact (proj1 (@setupMIMEHeaders_content_type plainCollaborators bareTextPart
                  TeAuto Hct)).
Defined.

(** ** More on the composer *)

Section ComposerMore.
Context `{!Collaborators}.

Lemma setupMIMEHeaders_cteField (p : Part) (hint : TransferEncoding) :
  Content p <> [] ->
  cteField (Header (setupMIMEHeaders p hint).1) =
    match (setupMIMEHeaders p hint).2 with
    | TeBase64 => Some [cteBase64]
    | TeQuoted => Some [cteQuotedPrintable]
    | _ => if reparsed p then None else cteField (Header p)
    end.
Proof.
  intros Hc.
  rewrite setupMIMEHeaders_cte, setupMIMEHeaders_steps. cbv zeta.
  rewrite (proj1 (buildDisposition_fields _ _)).
  rewrite buildContentType_cteField.
  rewrite (proj1 (setContentID_fields _)).
  rewrite (proj1 (proj2 (generateBoundary_frame _))).
  rewrite determineEncoding_cteField.
  - rewrite clearContentEncoding_cteField. reflexivity.
  - rewrite (proj1 (proj2 (proj2 (proj2 (clearContentEncoding_frame _))))).
    exact Hc.
Qed.

Lemma setupMIMEHeaders_not_text (p : Part) (hint : TransferEncoding) :
  Content p <> [] -> textual p = false ->
  (setupMIMEHeaders p hint).2 = TeBase64.
Proof.
  intros Hc Ht. rewrite setupMIMEHeaders_cte, chosenEncoding_clear, Ht.
  destruct (Content p); [contradiction|reflexivity].
Qed.

Lemma encodeContent_raw (p : Part) (cte : TransferEncoding) (lf : bool) :
  keepsRaw p -> ContentReader p = None ->
  encodeContent p cte lf = Ok (Content p).
Proof.
  intros (ps & Hps & Hraw) Hr. unfold encodeContent.
  rewrite Hr, Hps, Hraw. reflexivity.
Qed.

(** X17: a part without children whose content is buffered and kept raw
    is written as its header block, the separator and the content byte for
    byte, whatever encoding was asked for.  The header is still built as
    for any other part: if the content is not text, its
    Content-Transfer-Encoding field says base64 although the content is
    written as it is. *)
Theorem EncodeCustom_raw_leaf (p : Part) (hint : TransferEncoding) (lf : bool) :
  keepsRaw p -> ContentReader p = None -> FirstChild p = None ->
  EncodeCustom p hint lf =
    (hdr ← encodeHeader (setupMIMEHeaders p hint).1 lf lf;
     Ok (hdr ++ separator lf (Content p) ++ Content p)) /\
  (Content p <> [] -> textual p = false ->
   cteField (Header (setupMIMEHeaders p hint).1) = Some [cteBase64]).
Proof.
  intros Hraw Hr Hfc. split.
  - rewrite EncodeCustom_eq, encodeHead_eq, Hfc. unfold probe. rewrite Hr.
    cbn [mbind result_bind].
    destruct (setupMIMEHeaders_sameSource p hint)
      as (Hc & Hrd & _ & _ & Hps & _).
    rewrite encodeContent_raw;
      [|destruct Hraw as (ps & Hp & Hx); exists ps; split; congruence
       |congruence].
    rewrite Hc.
    destruct (encodeHeader _ lf lf) as [hdr|e]; [|reflexivity].
    cbn [mbind result_bind].
    destruct (Content p) as [|b c]; reflexivity.
  - intros Hc Ht. rewrite setupMIMEHeaders_cteField by exact Hc.
    rewrite setupMIMEHeaders_not_text; [reflexivity|exact Hc|exact Ht].
Qed.

End ComposerMore.

Lemma EncodeCustom_raw_leaf_witness :
  keepsRaw rawPart /\
  @EncodeCustom plainCollaborators rawPart TeQuoted false =
    (hdr ← @encodeHeader plainCollaborators
             (@setupMIMEHeaders plainCollaborators rawPart TeQuoted).1 false false;
     Ok (hdr ++ separator false (Content rawPart) ++ Content rawPart)).
Proof.
  assert (Hraw : keepsRaw rawPart).
  { exists (mkParser true). split; reflexivity. }
  split; [exact Hraw|].
  exact (proj1 (@EncodeCustom_raw_leaf plainCollaborators rawPart TeQuoted false
                  Hraw eq_refl eq_refl)).
Defined.

(** ** More on the header encoder *)

Lemma fieldValues_valueLines k lastKey vs lf omit :
  fieldValues (valueLines k lastKey vs lf omit) = map (pair k) vs.
Proof.
  unfold fieldValues.
  induction vs as [|v vs IH]; simpl; [reflexivity|]. f_equal. exact IH.
Qed.

Lemma fieldValues_keyLines h keys lf omit :
  fieldValues (keyLines h keys lf omit)
  = flat_map (fun k => map (pair k) (default [] (h !! k))) keys.
Proof.
  induction keys as [|k keys IH]; simpl; [reflexivity|].
  unfold fieldValues in *. rewrite map_app, IH. f_equal.
  apply fieldValues_valueLines.
Qed.

Lemma length_valueLines k lastKey vs lf omit :
  length (valueLines k lastKey vs lf omit) = length vs.
Proof. induction vs as [|v vs IH]; simpl; [reflexivity|]. f_equal. exact IH. Qed.

Lemma terminators_valueLines_inner k vs lf omit :
  terminators (valueLines k false vs lf omit)
  = replicate (length vs) (lineBreak lf).
Proof.
  unfold terminators.
  induction vs as [|v vs IH]; simpl; [reflexivity|]. rewrite IH. f_equal.
  unfold headerNewline. rewrite andb_false_r. reflexivity.
Qed.

Lemma terminators_valueLines_last k vs v lf omit :
  terminators (valueLines k true (vs ++ [v]) lf omit)
  = replicate (length vs) (lineBreak lf) ++ [if omit then ""%string else lineBreak lf].
Proof.
  unfold terminators.
  induction vs as [|w vs IH]; simpl.
  - unfold headerNewline. destruct omit; reflexivity.
  - rewrite IH. f_equal. unfold headerNewline.
    rewrite bool_decide_eq_false_2 by (destruct vs; discriminate).
    rewrite andb_false_r. reflexivity.
Qed.

Lemma terminators_keyLines h keys lf omit :
  let ls := keyLines h keys lf omit in
  if omit && lastFieldHasValue h keys
  then exists n, terminators ls = replicate n (lineBreak lf) ++ [""%string]
  else terminators ls = replicate (length ls) (lineBreak lf).
Proof.
  cbv zeta. induction keys as [|k keys IH]; simpl.
  { rewrite andb_false_r. reflexivity. }
  unfold terminators in *. rewrite map_app, length_app.
  destruct keys as [|k' keys'].
  - rewrite bool_decide_eq_true_2 by reflexivity. simpl. rewrite !app_nil_r.
    unfold lastFieldHasValue. simpl.
    destruct (default [] (h !! k)) as [|v vs] using rev_ind.
    + simpl. rewrite andb_false_r. reflexivity.
    + clear IHvs.
      pose proof (terminators_valueLines_last k vs v lf omit) as Hl.
      unfold terminators in Hl. rewrite Hl.
      rewrite bool_decide_eq_false_2 by (destruct vs; discriminate).
      simpl. rewrite andb_true_r. destruct omit.
      * exists (length vs). reflexivity.
      * rewrite length_valueLines, length_app, Nat.add_0_r, replicate_add.
        reflexivity.
  - rewrite bool_decide_eq_false_2 by discriminate.
    pose proof (terminators_valueLines_inner k (default [] (h !! k)) lf omit) as Hi.
    unfold terminators in Hi. rewrite Hi.
    assert (Hlast : lastFieldHasValue h (k :: k' :: keys')
                    = lastFieldHasValue h (k' :: keys')) by reflexivity.
    rewrite Hlast.
    destruct (omit && lastFieldHasValue h (k' :: keys')).
    + destruct IH as [n Hn]. exists (length (default [] (h !! k)) + n)%nat.
      rewrite Hn, app_assoc, <- replicate_add. reflexivity.
    + rewrite IH, <- replicate_add, length_valueLines. reflexivity.
Qed.

Lemma sortedKeys_elem (h : gmap string (list string)) (k : string) :
  k ∈ sortedKeys h <-> is_Some (h !! k).
Proof.
  unfold sortedKeys. rewrite sortStrings_Permutation.
  rewrite list_elem_of_fmap. split.
  - intros [[k' vs] [-> Hin]]. apply elem_of_map_to_list in Hin.
    simpl. rewrite Hin. eauto.
  - intros [vs Hvs]. exists (k, vs). split; [reflexivity|].
    apply elem_of_map_to_list. exact Hvs.
Qed.

Lemma sortedKeys_NoDup (h : gmap string (list string)) : NoDup (sortedKeys h).
Proof.
  unfold sortedKeys. rewrite sortStrings_Permutation.
  apply NoDup_fst_map_to_list.
Qed.

(** X18: [encodeHeader] writes one line for every value of every field of
    the header and nothing else: the fields are taken once each, and the
    values of a field in the order the header holds them. *)
Theorem encodeHeader_every_value `{!Collaborators} (p : Part)
    (wrapWithLFOnly omitLastNewline : bool) :
  let h := Header p in
  let ls := keyLines h (sortedKeys h) wrapWithLFOnly omitLastNewline in
  encodeHeader p wrapWithLFOnly omitLastNewline = emitLines ls wrapWithLFOnly /\
  fieldValues ls
  = flat_map (fun k => map (pair k) (default [] (h !! k))) (sortedKeys h) /\
  NoDup (sortedKeys h) /\
  (forall k, k ∈ sortedKeys h <-> is_Some (h !! k)).
Proof.
  cbv zeta. split; [|split; [|split]].
  - unfold encodeHeader, encodeHeaderFrom. apply encodeKeys_emit.
  - apply fieldValues_keyLines.
  - apply sortedKeys_NoDup.
  - apply sortedKeys_elem.
Qed.

(** X19: the lines [encodeHeader] writes all end in the line terminator of
    the mode, LF or CRLF, except that with [omitLastNewline] the last line
    ends in nothing.  The exception applies to the last value of the last
    field: if that field has no value, no terminator is left out. *)
Theorem encodeHeader_terminators `{!Collaborators} (p : Part)
    (wrapWithLFOnly omitLastNewline : bool) :
  let h := Header p in
  let ls := keyLines h (sortedKeys h) wrapWithLFOnly omitLastNewline in
  encodeHeader p wrapWithLFOnly omitLastNewline = emitLines ls wrapWithLFOnly /\
  if omitLastNewline && lastFieldHasValue h (sortedKeys h)
  then exists n,
         terminators ls = replicate n (lineBreak wrapWithLFOnly) ++ [""%string]
  else terminators ls = replicate (length ls) (lineBreak wrapWithLFOnly).
Proof.
  cbv zeta. split.
  - unfold encodeHeader, encodeHeaderFrom. apply encodeKeys_emit.
  - apply terminators_keyLines.
Qed.

Example encodeHeader_emptyLastField :
  @encodeHeader plainCollaborators (withHeader emptyLastField emptyPart) true true
  = Ok (bytes_of "A: 1" ++ [LF]).
Proof. vm_compute. reflexivity. Qed.

(** ** The separator between the header block and the content *)


Lemma terminators_nil (ls : list (string * string * string)) :
  terminators ls = [] <-> ls = [].
Proof. unfold terminators. destruct ls; split; intros; try discriminate; reflexivity. Qed.







Example EncodeCustom_emptyLastFieldPart :
  @EncodeCustom plainCollaborators emptyLastFieldPart TeAuto true
  = Ok (bytes_of "A: 1" ++ [LF] ++ [LF; LF] ++ bytes_of "one").
Proof. vm_compute. reflexivity. Qed.

Example EncodeCustom_headerlessPart :
  @EncodeCustom plainCollaborators headerlessPart TeAuto true
    = Ok ([LF; LF] ++ bytes_of "one") /\
  @EncodeCustom plainCollaborators headerlessPart TeAuto false
    = Ok ([CR; LF] ++ bytes_of "one").
Proof. split; vm_compute; reflexivity. Qed.

(** ** More on Base64 bodies *)

Lemma b64char_clean (i : Z) : 0 <= i < 64 -> isControl (b64char i) = false.
Proof.
  intros Hi. rewrite <- (Z2Nat.id i) by lia.
  assert (Hn : (Z.to_nat i < 64)%nat) by lia.
  revert Hn. generalize (Z.to_nat i). intros n Hn.
  do 64 (destruct n as [|n]; [reflexivity|]). lia.
Qed.

Lemma base64_Encode_clean (c : bytes) :
  Forall (fun b => isControl b = false) (base64_Encode c).
Proof.
  induction c as [|a|a b|a b c rest IH] using list_ind3.
  - constructor.
  - pose proof (quantum1_roundtrip a) as Hq. cbv zeta in Hq.
    destruct Hq as ((H0 & H1) & _).
    cbn [base64_Encode].
    repeat constructor; apply b64char_clean; assumption.
  - pose proof (quantum2_roundtrip a b) as Hq. cbv zeta in Hq.
    destruct Hq as ((H0 & H1 & H2) & _).
    cbn [base64_Encode].
    repeat constructor; apply b64char_clean; assumption.
  - pose proof (quantum_roundtrip a b c) as Hq. cbv zeta in Hq.
    destruct Hq as ((H0 & H1 & H2 & H3) & _).
    cbn [base64_Encode].
    repeat (constructor; [apply b64char_clean; assumption|]).
    exact IH.
Qed.

Lemma fullButLast_head (l : bytes) (ls : list bytes) :
  fullButLast (l :: ls) -> l <> [].
Proof. destruct ls; simpl; intros Hf ->; simpl in Hf; lia. Qed.

Lemma wrapLines_lines (fuel : nat) (text : bytes) (lf : bool) :
  (length text <= fuel)%nat ->
  exists ls, wrapLines fuel text lf = terminated ls lf /\
             concat ls = text /\ fullButLast ls.
Proof.
  revert text. induction fuel as [|fuel IH]; intros text Hlen.
  - destruct text; [|simpl in Hlen; lia]. exists []. repeat split.
  - destruct text as [|b text]; [exists []; repeat split|].
    cbn [wrapLines].
    destruct (IH (skipn 76 (b :: text))) as (ls & Hw & Hc & Hf).
    { rewrite length_skipn. cbn [length] in *. lia. }
    exists (firstn 76 (b :: text) :: ls). split; [|split].
    + unfold terminated in *. cbn [map concat]. rewrite Hw, <- app_assoc.
      reflexivity.
    + cbn [concat]. rewrite Hc. apply firstn_skipn.
    + cbn [fullButLast]. destruct ls as [|l ls].
      * rewrite length_firstn. cbn [length]. lia.
      * split; [|exact Hf].
        apply fullButLast_head in Hf.
        assert (Hrest : skipn 76 (b :: text) <> []).
        { rewrite <- Hc. cbn [concat]. destruct l; [congruence|discriminate]. }
        rewrite length_firstn.
        destruct (Nat.le_gt_cases (length (b :: text)) 76) as [Hle|Hgt]; [|lia].
        exfalso. apply Hrest. apply skipn_all2. exact Hle.
Qed.

(** X20: the Base64 body [encodeContent] writes for buffered content is
    the Base64 text of the content cut into lines, each followed by the
    line terminator of the mode: every line but the last has 76
    characters, the last between 1 and 76, and all of them are printable
    ASCII, bytes [selectTransferEncoding] never counts.  Empty content
    gives no line at all. *)
Theorem encodeContent_base64_lines (p : Part) (useLF : bool) :
  ContentReader p = None -> notRaw p ->
  exists ls,
    encodeContent p TeBase64 useLF = Ok (terminated ls useLF) /\
    concat ls = base64_Encode (Content p) /\
    fullButLast ls /\
    Forall (Forall (fun b => isControl b = false)) ls /\
    (Content p = [] -> ls = []).
Proof.
  intros Hr Hraw.
  destruct (wrapLines_lines (length (base64_Encode (Content p)))
              (base64_Encode (Content p)) useLF) as (ls & Hw & Hc & Hf); [lia|].
  exists ls. split; [|split; [exact Hc|split; [exact Hf|split]]].
  - unfold encodeContent, encodeBase64. rewrite Hr, Hw.
    unfold notRaw in Hraw. destruct (parser p) as [ps|]; [|reflexivity].
    rewrite Hraw. reflexivity.
  - pose proof (base64_Encode_clean (Content p)) as Hn.
    rewrite <- Hc in Hn. clear -Hn.
    induction ls as [|l ls IH]; [constructor|].
    cbn [concat] in Hn. apply Forall_app in Hn. destruct Hn as [Hl Hrest].
    constructor; [exact Hl|apply IH; exact Hrest].
  - intros He. rewrite He in Hc. cbn in Hc.
    destruct ls as [|l ls]; [reflexivity|].
    apply fullButLast_head in Hf. cbn [concat] in Hc.
    destruct l; [congruence|discriminate].
Qed.

Lemma encodeContent_base64_lines_witness :
  notRaw binaryPart /\
  exists ls,
    encodeContent binaryPart TeBase64 true = Ok (terminated ls true) /\
    concat ls = base64_Encode (Content binaryPart) /\ fullButLast ls.
Proof.
  assert (Hraw : notRaw binaryPart) by exact I.
  split; [exact Hraw|].
  destruct (encodeContent_base64_lines binaryPart true eq_refl Hraw)
    as (ls & He & Hc & Hf & _).
  exists ls. repeat split; assumption.
Defined.

(** ** More on streamed content *)

Lemma Read_firstError (r r' : Reader) (cap : nat) (d : bytes) (e : option ioError) :
  Read r cap = (d, e, r') ->
  match e with
  | None => firstError r' = firstError r
  | Some x => firstError r = x
  end.
Proof.
  unfold Read. destruct r as [|[d0 e0] rest].
  - intros Hr. simplify_eq. reflexivity.
  - destruct (length d0 <=? cap)%nat; intros Hr; simplify_eq.
    + destruct e; reflexivity.
    + reflexivity.
Qed.

Lemma fillChunk_error (fuel : nat) (r : Reader) (chunk : bytes) :
  firstError r = ErrUnexpected ->
  fillChunk fuel r chunk = Err ErrRead \/
  fillChunk fuel r chunk = Err Diverged \/
  exists chunk' r',
    fillChunk fuel r chunk = Ok (chunk', r') /\
    firstError r' = ErrUnexpected /\
    readChunkSize <= Z.of_nat (length chunk').
Proof.
  revert r chunk. induction fuel as [|fuel IH]; intros r chunk Hr.
  { right. left. reflexivity. }
  cbn [fillChunk].
  destruct (Z.ltb_spec (Z.of_nat (length chunk)) readChunkSize) as [Hlt|Hge].
  - destruct (Read r (Z.to_nat readChunkSize - length chunk))
      as [[d e] r'] eqn:Hread.
    apply Read_firstError in Hread.
    destruct e as [[|]|].
    + congruence.
    + left. reflexivity.
    + apply IH. congruence.
  - right. right. exists chunk, r. repeat split; assumption.
Qed.

Lemma streamChunks_error (fuel : nat) (r : Reader) (chunk : bytes) (lf : bool) :
  firstError r = ErrUnexpected ->
  streamChunks fuel r chunk lf = Err ErrRead \/
  streamChunks fuel r chunk lf = Err Diverged.
Proof.
  revert r chunk. induction fuel as [|fuel IH]; intros r chunk Hr.
  { right. reflexivity. }
  cbn [streamChunks].
  destruct (fillChunk_error (S (length r)) r chunk Hr)
    as [-> | [-> | (chunk' & r' & -> & Hr' & Hfull)]];
    [left; reflexivity|right; reflexivity|].
  cbn [mbind result_bind].
  destruct (Z.ltb_spec (Z.of_nat (length chunk')) readChunkSize) as [Hlt|_]; [lia|].
  destruct (IH r' [] Hr') as [-> | ->]; [left|right]; reflexivity.
Qed.

Lemma encodeContentFromReader_error (content : bytes) (r : Reader) (lf : bool) :
  firstError r = ErrUnexpected ->
  encodeContentFromReader content r lf = Err ErrRead.
Proof.
  intros Hr. unfold encodeContentFromReader.
  destruct (streamChunks_error (S (S (length (pending r)))) r
              (firstn (Z.to_nat readChunkSize) content) lf Hr) as [He|He];
    [exact He|].
  exfalso. revert He. apply streamChunks_ends.
  destruct (bool_decide _); lia.
Qed.

Lemma probe_error (p : Part) (r : Reader) :
  ContentReader p = Some r ->
  firstError r = ErrUnexpected -> emptyFirstRead r = false ->
  probe p = Err ErrRead \/
  exists d r', probe p = Ok (withContent d (Some r') p) /\ d <> [] /\
               firstError r' = ErrUnexpected.
Proof.
  intros Hr Hf He. unfold probe, emptyFirstRead in *. rewrite Hr.
  destruct (Read r (Z.to_nat readChunkSize)) as [[d e] r'] eqn:Hread.
  apply Read_firstError in Hread.
  destruct e as [[|]|].
  - congruence.
  - left. reflexivity.
  - right. exists d, r'. split; [reflexivity|]. split; [|congruence].
    destruct d; [discriminate He|discriminate].
Qed.

Section StreamMore.
Context `{!Collaborators}.

Lemma emitLines_error (ls : list (string * string * string)) (lf : bool) (e : error) :
  emitLines ls lf = Err e -> e = PanicIndex.
Proof.
  induction ls as [|[[k v] nl] ls IH]; simpl; [discriminate|].
  unfold headerLine.
  destruct (_ <? _)%nat; cbn [mbind result_bind]; [|congruence].
  destruct (emitLines ls lf) as [out|e']; cbn [mbind result_bind]; [discriminate|].
  intros He. apply IH. congruence.
Qed.

Lemma encodeHeader_error (p : Part) (lf omit : bool) (e : error) :
  encodeHeader p lf omit = Err e -> e = PanicIndex.
Proof.
  unfold encodeHeader, encodeHeaderFrom. rewrite encodeKeys_emit.
  apply emitLines_error.
Qed.

(** X21: when the content reader fails with an error other than [io.EOF]
    before it reports the end of the stream, and its first read returns
    data or that error, [EncodeCustom] returns an error and no output: the
    read error, unless the header block could not be written before the
    content was read on. *)
Theorem EncodeCustom_read_error (p : Part) (r : Reader)
    (hint : TransferEncoding) (lf : bool) :
  ContentReader p = Some r ->
  firstError r = ErrUnexpected -> emptyFirstRead r = false ->
  EncodeCustom p hint lf = Err ErrRead \/
  (EncodeCustom p hint lf = Err PanicIndex /\
   exists p1, probe p = Ok p1 /\
              encodeHeader (setupMIMEHeaders p1 hint).1 lf lf = Err PanicIndex).
Proof.
  intros Hr Hf He. rewrite EncodeCustom_eq, encodeHead_eq.
  destruct (probe_error p r Hr Hf He) as [Hp | (d & r' & Hp & Hd & Hr')].
  { left. rewrite Hp. reflexivity. }
  rewrite Hp. cbn [mbind result_bind].
  set (p1 := withContent d (Some r') p).
  destruct (encodeHeader (setupMIMEHeaders p1 hint).1 lf lf) as [hdr|e] eqn:Hh.
  - left. cbn [mbind result_bind].
    assert (Hlen : (0 <? length (Content p1))%nat = true).
    { unfold p1. cbn [Content withContent]. destruct d; [congruence|reflexivity]. }
    rewrite Hlen. unfold encodeContent.
    destruct (setupMIMEHeaders_sameSource p1 hint) as (_ & -> & _).
    change (ContentReader p1) with (Some r'). cbv iota.
    rewrite encodeContentFromReader_error by exact Hr'. reflexivity.
  - right. pose proof (encodeHeader_error _ _ _ _ Hh) as ->.
    split; [reflexivity|]. exists p1. split; [reflexivity|exact Hh].
Qed.

End StreamMore.

Lemma EncodeCustom_read_error_witness :
  firstError failingReader = ErrUnexpected /\
  emptyFirstRead failingReader = false /\
  (@EncodeCustom plainCollaborators
     (withContent [] (Some failingReader) emptyPart) TeAuto true = Err ErrRead \/
   (@EncodeCustom plainCollaborators
      (withContent [] (Some failingReader) emptyPart) TeAuto true = Err PanicIndex /\
    exists p1, probe (withContent [] (Some failingReader) emptyPart) = Ok p1 /\
               @encodeHeader plainCollaborators
                 (@setupMIMEHeaders plainCollaborators p1 TeAuto).1 true true
               = Err PanicIndex)).
Proof.
  split; [reflexivity|]. split; [reflexivity|].
  apply (@EncodeCustom_read_error plainCollaborators
           (withContent [] (Some failingReader) emptyPart) failingReader
           TeAuto true); reflexivity.
Defined.

Example EncodeCustom_failingReader :
  @EncodeCustom plainCollaborators
    (withContent [] (Some failingReader) emptyPart) TeAuto true = Err ErrRead.
Proof. vm_compute. reflexivity. Qed.

Section EmptyFirstRead.
Context `{!Collaborators}.

Local Tactic Notation "reader_cases" reference(f) hyp(x) :=
  intros Hc; destruct x; cbn in Hc; subst; unfold f; cbn;
  repeat case_match; reflexivity.

Lemma clearContentEncoding_reader (x : Part) (rd : option Reader) :
  Content x = [] ->
  clearContentEncoding (withContent [] rd x)
  = withContent [] rd (clearContentEncoding x).
Proof. reader_cases clearContentEncoding x. Qed.

Lemma determineEncoding_reader (x : Part) (rd : option Reader)
    (hint : TransferEncoding) :
  Content x = [] ->
  determineEncoding (withContent [] rd x) hint
  = (withContent [] rd (determineEncoding x hint).1, (determineEncoding x hint).2).
Proof. reader_cases determineEncoding x. Qed.

Lemma generateBoundary_reader (x : Part) (rd : option Reader) :
  Content x = [] ->
  generateBoundary (withContent [] rd x) = withContent [] rd (generateBoundary x).
Proof. reader_cases generateBoundary x. Qed.

Lemma setContentID_reader (x : Part) (rd : option Reader) :
  Content x = [] ->
  setContentID (withContent [] rd x) = withContent [] rd (setContentID x).
Proof. reader_cases setContentID x. Qed.

Lemma buildContentType_reader (fn : string) (x : Part) (rd : option Reader) :
  Content x = [] ->
  buildContentType fn (withContent [] rd x)
  = withContent [] rd (buildContentType fn x).
Proof. reader_cases buildContentType x. Qed.

Lemma buildDisposition_reader (fn : string) (x : Part) (rd : option Reader) :
  Content x = [] ->
  buildDisposition fn (withContent [] rd x)
  = withContent [] rd (buildDisposition fn x).
Proof. reader_cases buildDisposition x. Qed.

Lemma setupMIMEHeaders_reader (x : Part) (rd : option Reader)
    (hint : TransferEncoding) :
  Content x = [] ->
  (setupMIMEHeaders (withContent [] rd x) hint).1
  = withContent [] rd (setupMIMEHeaders x hint).1.
Proof.
  intros Hc. rewrite !setupMIMEHeaders_steps. cbv zeta.
  rewrite clearContentEncoding_reader by exact Hc.
  assert (H1 : Content (clearContentEncoding x) = []).
  { rewrite (proj1 (proj2 (proj2 (proj2 (clearContentEncoding_frame x))))).
    exact Hc. }
  rewrite determineEncoding_reader by exact H1. cbn [fst].
  assert (H2 : Content (determineEncoding (clearContentEncoding x) hint).1 = []).
  { rewrite (proj2 (proj2 (proj2 (determineEncoding_frame _ _)))). exact H1. }
  rewrite generateBoundary_reader by exact H2.
  assert (H3 : Content (generateBoundary
                 (determineEncoding (clearContentEncoding x) hint).1) = []).
  { rewrite (proj2 (proj2 (proj2 (generateBoundary_frame _)))). exact H2. }
  rewrite setContentID_reader by exact H3.
  set (p3 := setContentID _).
  assert (H4 : Content p3 = []).
  { unfold p3. rewrite (proj2 (proj2 (proj2 (setContentID_frame _)))). exact H3. }
  change (FileName (withContent [] rd p3)) with (FileName p3).
  rewrite buildContentType_reader by exact H4.
  apply buildDisposition_reader.
  rewrite (proj2 (proj2 (buildContentType_frame _ _))). exact H4.
Qed.

(** X22: if the first read of the content reader returns no byte (with no
    error or with [io.EOF]), [EncodeCustom] writes the part as one without
    content: the reader is not read again, whatever it still holds, and
    content the part had before is not written. *)
Theorem EncodeCustom_empty_first_read (p : Part) (r : Reader)
    (hint : TransferEncoding) (lf : bool) :
  ContentReader p = Some r -> emptyFirstRead r = true ->
  EncodeCustom p hint lf = EncodeCustom (withContent [] None p) hint lf.
Proof.
  intros Hr He. rewrite !EncodeCustom_eq, !encodeHead_eq.
  set (x := withContent [] None p).
  assert (Hx : Content x = []) by reflexivity.
  assert (Hp : exists r', probe p = Ok (withContent [] (Some r') x)).
  { unfold probe, emptyFirstRead in *. rewrite Hr.
    destruct (Read r (Z.to_nat readChunkSize)) as [[d e] r'].
    exists r'. destruct d; [|discriminate He].
    destruct e as [[|]|]; [reflexivity|discriminate He|reflexivity]. }
  destruct Hp as [r' ->].
  change (probe x) with (Ok x). cbn [mbind result_bind].
  rewrite (setupMIMEHeaders_reader x (Some r') hint Hx).
  change (FirstChild x) with (FirstChild p).
  change (Content (withContent [] (Some r') x)) with (@nil byte).
  rewrite Hx. cbn [length Nat.ltb Nat.leb].
  unfold encodeHeader.
  change (Header (withContent [] (Some r') (setupMIMEHeaders x hint).1))
    with (Header (setupMIMEHeaders x hint).1).
  destruct (encodeHeaderFrom _ _ lf lf) as [hdr|e]; [|reflexivity].
  cbn [mbind result_bind]. reflexivity.
Qed.

End EmptyFirstRead.

Lemma EncodeCustom_empty_first_read_witness :
  emptyFirstRead lateReader = true /\
  @EncodeCustom plainCollaborators
    (withContent (bytes_of "old") (Some lateReader) emptyPart) TeAuto true
  = @EncodeCustom plainCollaborators
      (withContent [] None (withContent (bytes_of "old") (Some lateReader) emptyPart))
      TeAuto true.
Proof.
  split; [reflexivity|].
  apply (@EncodeCustom_empty_first_read plainCollaborators
           (withContent (bytes_of "old") (Some lateReader) emptyPart) lateReader
           TeAuto true); reflexivity.
Defined.

(** *** Bytes that come together with [io.EOF] *)

Lemma pending_cons (d : bytes) (e : option ioError) (r : Reader) :
  pending ((d, e) :: r) = d ++ pending r.
Proof. reflexivity. Qed.

Lemma fillChunk_eof (fuel : nat) (r tail : Reader) (d chunk : bytes) :
  noError r ->
  (length chunk + length (pending r) + length d <= Z.to_nat readChunkSize)%nat ->
  (length chunk + length (pending r) < Z.to_nat readChunkSize)%nat ->
  (length r < fuel)%nat ->
  fillChunk fuel (r ++ (d, Some EOF) :: tail) chunk = Ok (chunk ++ pending r, tail).
Proof.
  destruct readChunkSize_nat as [HN HZ].
  set (N := Z.to_nat readChunkSize) in *.
  assert (HNZ : Z.of_nat N = readChunkSize) by (unfold N; rewrite HZ; reflexivity).
  revert r chunk. induction fuel as [|fuel IH]; intros r chunk Hr Hfit Hlt Hfuel; [lia|].
  cbn [fillChunk]. fold N.
  destruct (Z.ltb_spec (Z.of_nat (length chunk)) readChunkSize) as [_|Hge]; [|lia].
  destruct r as [|[d0 e0] rest].
  - cbn [app Read]. cbn [pending map concat length] in *.
    destruct (Nat.leb_spec (length d) (N - length chunk)) as [_|Hbig]; [|lia].
    rewrite app_nil_r. reflexivity.
  - inversion Hr as [|? ? He Hrest]; subst. simpl in He. subst e0.
    rewrite pending_cons, length_app in Hfit, Hlt.
    cbn [app Read].
    destruct (Nat.leb_spec (length d0) (N - length chunk)) as [_|Hbig]; [|lia].
    rewrite IH.
    + rewrite pending_cons, app_assoc. reflexivity.
    + exact Hrest.
    + rewrite length_app. lia.
    + rewrite length_app. lia.
    + cbn [length] in Hfuel. lia.
Qed.

Lemma streamChunks_eof (fuel : nat) (r tail : Reader) (d chunk : bytes) (lf : bool) :
  noError r ->
  (length chunk + length (pending r) + length d <= Z.to_nat readChunkSize)%nat ->
  (length chunk + length (pending r) < Z.to_nat readChunkSize)%nat ->
  streamChunks (S fuel) (r ++ (d, Some EOF) :: tail) chunk lf
  = Ok (contentLines (chunk ++ pending r) lf).
Proof.
  intros Hr Hfit Hlt. cbn [streamChunks].
  rewrite fillChunk_eof; [|exact Hr|exact Hfit|exact Hlt|rewrite length_app; lia].
  cbn [mbind result_bind].
  destruct readChunkSize_nat as [HN HZ].
  destruct (Z.ltb_spec (Z.of_nat (length (chunk ++ pending r))) readChunkSize)
    as [_|Hge]; [reflexivity|].
  rewrite length_app in Hge. lia.
Qed.

(** X23: bytes a reader returns together with [io.EOF] are written if
    that read is the first one, the read [EncodeCustom] itself issues, and
    are dropped if it is a later read, one of [encodeContentFromReader]:
    for content of less than one chunk, a final read of [d] with [io.EOF]
    on its own gives the Base64 body of [d], and after the pieces [ds] it
    gives the Base64 body of [ds] alone, as if [d] had not been there. *)
Theorem streamBody_eof_with_data (ds : list bytes) (d : bytes) (tail : Reader)
    (useLF : bool) :
  d <> [] -> Forall (fun x => x <> []) ds ->
  (length (concat ds) + length d < Z.to_nat readChunkSize)%nat ->
  streamBody [(d, Some EOF)] useLF = Ok (encodeBase64 d useLF) /\
  (ds <> [] ->
   streamBody (script ds ++ (d, Some EOF) :: tail) useLF
   = Ok (encodeBase64 (concat ds) useLF)).
Proof.
  intros Hd Hds Hlen. rewrite !wrapLines_contentLines.
  destruct readChunkSize_nat as [HN HZ].
  set (N := Z.to_nat readChunkSize) in *.
  assert (Hpos : forall x : bytes, x <> [] -> (0 <? length x)%nat = true).
  { intros x Hx. destruct x; [congruence|reflexivity]. }
  split.
  - unfold streamBody, probe. cbn [ContentReader withContent Read]. fold N.
    destruct (Nat.leb_spec (length d) N) as [_|Hbig]; [|lia].
    cbn [mbind result_bind Content withContent]. rewrite (Hpos d Hd).
    unfold encodeContent, encodeContentFromReader.
    cbn [ContentReader Content withContent]. fold N.
    rewrite firstn_all2 by lia.
    rewrite streamChunks_ok.
    + unfold pending. cbn. rewrite app_nil_r. reflexivity.
    + constructor.
    + fold N. lia.
    + cbn. destruct (bool_decide (d = [])); lia.
  - intros Hne. destruct ds as [|d0 rest]; [congruence|].
    inversion Hds as [|? ? Hd0 Hrest]; subst.
    cbn [concat] in *. rewrite length_app in Hlen.
    unfold streamBody, probe. cbn [ContentReader withContent script map app Read].
    fold (script rest). fold N.
    destruct (Nat.leb_spec (length d0) N) as [_|Hbig]; [|lia].
    cbn [mbind result_bind Content withContent]. rewrite (Hpos d0 Hd0).
    unfold encodeContent, encodeContentFromReader.
    cbn [ContentReader Content withContent]. fold N.
    rewrite firstn_all2 by lia.
    rewrite streamChunks_eof.
    + rewrite script_pending. reflexivity.
    + apply script_noError.
    + fold N. rewrite script_pending. lia.
    + fold N. rewrite script_pending. lia.
Qed.

Lemma streamBody_eof_with_data_witness :
  (length (concat [bytes_of "abc"]) + length (bytes_of "def")
   < Z.to_nat readChunkSize)%nat /\
  streamBody [(bytes_of "def", Some EOF)] true
  = Ok (encodeBase64 (bytes_of "def") true) /\
  streamBody (script [bytes_of "abc"] ++ [(bytes_of "def", Some EOF)]) true
  = Ok (encodeBase64 (concat [bytes_of "abc"]) true).
Proof.
  assert (Hlen : (length (concat [bytes_of "abc"]) + length (bytes_of "def")
                  < Z.to_nat readChunkSize)%nat) by (vm_compute; lia).
  split; [exact Hlen|].
  destruct (streamBody_eof_with_data [bytes_of "abc"] (bytes_of "def") [] true)
    as [Hfirst Hlater]; [discriminate|repeat constructor; discriminate|exact Hlen|].
  split; [exact Hfirst|]. apply Hlater. discriminate.
Defined.

(** ** More on multipart bodies *)

Lemma siblingChain_eq (c : Part) :
  siblingChain c = c :: match NextSibling c with
                        | Some s => siblingChain s
                        | None => []
                        end.
Proof. destruct c; reflexivity. Qed.

Lemma marker_line (boundary : string) (lf : bool) :
  marker boundary lf ++ lineEnd lf = delimiterLine boundary lf.
Proof.
  unfold delimiterLine. destruct lf.
  - reflexivity.
  - rewrite marker_crlf, <- app_assoc. reflexivity.
Qed.

Lemma endMarker_line (boundary : string) (lf : bool) :
  endMarker boundary lf ++ lineEnd lf = closingLine boundary lf.
Proof. unfold closingLine. destruct lf; reflexivity. Qed.

Section Multipart.
Context `{!Collaborators}.

Lemma encodeSiblings_chain (hint : TransferEncoding) (lf : bool) (mark : bytes)
    (c : Part) :
  encodeSiblings c mark hint lf =
  outs ← mapM (fun c => EncodeCustom c hint lf) (siblingChain c);
  Ok (concat (map (fun out => mark ++ lineEnd lf ++ out) outs)).
Proof.
  induction c as [c _ IH] using Part_tree_ind.
  rewrite encodeSiblings_eq, siblingChain_eq. cbn [mapM].
  destruct (EncodeCustom c hint lf) as [out|e]; [|reflexivity].
  cbn [mbind result_bind].
  destruct (NextSibling c) as [s|].
  - rewrite (IH s eq_refl).
    destruct (mapM _ (siblingChain s)) as [outs|e]; [|reflexivity].
    cbn [mbind result_bind mret result_ret map concat].
    rewrite <- !app_assoc. reflexivity.
  - cbn [mapM mbind result_bind mret result_ret map concat].
    rewrite !app_nil_r. reflexivity.
Qed.

Lemma probe_randSource (p p1 : Part) :
  probe p = Ok p1 -> randSource p1 = randSource p.
Proof.
  unfold probe. destruct (ContentReader p) as [r|].
  - destruct (Read r (Z.to_nat readChunkSize)) as [[d e] r'].
    destruct e as [[|]|]; intros Hp; simplify_eq; reflexivity.
  - intros Hp. simplify_eq. reflexivity.
Qed.

Lemma encodeHead_boundaryInUse (p p' : Part) (hint : TransferEncoding) (lf : bool)
    (head : bytes) :
  encodeHead p hint lf = Ok (p', head) -> is_Some (FirstChild p) ->
  Boundary p' = boundaryInUse p.
Proof.
  rewrite encodeHead_eq. intros Hh Hfc.
  destruct (probe p) as [p1|e] eqn:Hp; [|discriminate Hh].
  cbn [mbind result_bind] in Hh.
  destruct (encodeHeader _ lf lf) as [hdr|e]; [|discriminate Hh].
  cbn [mbind result_bind] in Hh.
  destruct (if (0 <? length (Content p1))%nat then _ else _) as [body|e];
    [|discriminate Hh].
  cbn [mbind result_bind] in Hh. simplify_eq.
  pose proof (probe_randSource _ _ Hp) as Hrs.
  apply probe_frame in Hp. destruct Hp as (_ & Hb1 & Hf1 & _).
  rewrite setupMIMEHeaders_Boundary, Hb1, Hf1, Hrs.
  rewrite bool_decide_eq_true_2 by exact Hfc. reflexivity.
Qed.

(** X24: a part with children is written as what precedes the children,
    then for each child of the sibling chain, in order, a delimiter line
    and the child's serialization under the same hint and mode, then the
    closing delimiter line, once.  The boundary of these lines is the
    part's own, or the generated one if it had none; the first step that
    fails ends the encoding with its error. *)
Theorem EncodeCustom_children (p : Part) (hint : TransferEncoding) (lf : bool) :
  is_Some (FirstChild p) ->
  EncodeCustom p hint lf =
    '(_, head) ← encodeHead p hint lf;
    outs ← mapM (fun c => EncodeCustom c hint lf) (children p);
    Ok (head ++ delimited (boundaryInUse p) lf outs
             ++ closingLine (boundaryInUse p) lf).
Proof.
  intros Hfc. rewrite EncodeCustom_eq.
  destruct (encodeHead p hint lf) as [[p' head]|e] eqn:Hh; [|reflexivity].
  cbn [mbind result_bind].
  rewrite (encodeHead_boundaryInUse _ _ _ _ _ Hh Hfc).
  unfold children. destruct Hfc as [c Hc]. rewrite Hc.
  rewrite encodeSiblings_chain.
  destruct (mapM _ (siblingChain c)) as [outs|e]; [|reflexivity].
  cbn [mbind result_bind]. rewrite endMarker_line. unfold delimited.
  do 4 f_equal. apply map_ext. intros out.
  rewrite app_assoc, marker_line. reflexivity.
Qed.

End Multipart.

Lemma EncodeCustom_children_witness :
  is_Some (FirstChild scenarioD) /\
  @EncodeCustom plainCollaborators scenarioD TeAuto false =
    '(_, head) ← @encodeHead plainCollaborators scenarioD TeAuto false;
    outs ← mapM (fun c => @EncodeCustom plainCollaborators c TeAuto false)
           (children scenarioD);
    Ok (head ++ delimited (@boundaryInUse plainCollaborators scenarioD) false outs
             ++ closingLine (@boundaryInUse plainCollaborators scenarioD) false).
Proof.
  assert (Hfc : is_Some (FirstChild scenarioD)) by (eexists; reflexivity).
  split; [exact Hfc|].
  apply (@EncodeCustom_children plainCollaborators scenarioD TeAuto false Hfc).
Defined.

(** ** The Content-ID and Content-Disposition fields *)

Section Disposition.
Context `{!Collaborators}.

Lemma buildDisposition_declares (p : Part) :
  Disposition p <> ""%string ->
  let q := buildDisposition (encodeWord (FileName p)) p in
  Header q !! CanonicalMIMEHeaderKey hnContentDisposition = Some [Disposition q] /\
  Disposition q = formatted (Disposition p) (dispositionParams p).
Proof.
  intros Hd. cbv zeta. unfold buildDisposition, dispositionParams, formatted.
  destruct (String.eqb_spec (Disposition p) "") as [He|_]; [contradiction|].
  cbn [negb]. cbv zeta.
  destruct (String.eqb (FormatMediaType _ _) ""); cbn [negb];
    (split; [apply Header_Set_lookup|reflexivity]).
Qed.

Lemma setContentID_declares (p : Part) :
  ContentID p <> ""%string ->
  Header (setContentID p) !! CanonicalMIMEHeaderKey hnContentID
  = Some [ToIDHeader (ContentID p)].
Proof.
  intros Hc. unfold setContentID.
  destruct (String.eqb_spec (ContentID p) "") as [He|_]; [contradiction|].
  cbn [negb]. apply Header_Set_lookup.
Qed.

(** X25: for a part with a disposition, [setupMIMEHeaders] formats the
    disposition with the file name (as an encoded word where it needs one)
    and, if the modification date is set, that date, and stores the result
    as the only value of the Content-Disposition field; for a part with a
    content ID it stores the ID in angle-bracket form as the only value of
    the field the header keeps under the name Content-Id.  A file name
    that is not empty is the same in the [name] parameter of the content
    type and the [filename] parameter of the disposition. *)
Theorem setupMIMEHeaders_disposition (p : Part) (hint : TransferEncoding) :
  let p' := (setupMIMEHeaders p hint).1 in
  (Disposition p <> ""%string ->
   Header p' !! CanonicalMIMEHeaderKey hnContentDisposition = Some [Disposition p'] /\
   Disposition p' = formatted (Disposition p) (dispositionParams p)) /\
  (ContentID p <> ""%string ->
   Header p' !! "Content-Id"%string = Some [ToIDHeader (ContentID p)]) /\
  (encodeWord (FileName p) <> ""%string ->
   typeParams p' !! hpName = Some (encodeWord (FileName p)) /\
   dispositionParams p !! hpFilename = Some (encodeWord (FileName p))).
Proof.
  cbv zeta.
  destruct (setupMIMEHeaders_sameSource p hint) as (_&_&_&_&_&Hfn&_&_&_).
  rewrite setupMIMEHeaders_steps in *. cbv zeta in *.
  set (p3 := setContentID (generateBoundary
               (determineEncoding (clearContentEncoding p) hint).1)) in *.
  assert (H3 : sameSource p p3 /\ Disposition p3 = Disposition p).
  { unfold p3. split.
    - eapply sameSource_trans; [apply clearContentEncoding_same|].
      eapply sameSource_trans; [apply (determineEncoding_same _ hint)|].
      eapply sameSource_trans; [apply generateBoundary_same|].
      apply setContentID_same.
    - rewrite (proj1 (proj2 (proj2 (setContentID_same _)))).
      rewrite (proj2 (proj2 (generateBoundary_same _))).
      rewrite (proj1 (proj2 (determineEncoding_same _ _))).
      apply clearContentEncoding_same. }
  destruct H3 as ((_&_&_&_&_&Hfn3&Hid3&_&Hmd3&_) & Hd3).
  set (fn := encodeWord (FileName p3)) in *.
  set (q := buildContentType fn p3).
  assert (Hq : sameSource p3 q /\ Disposition q = Disposition p3).
  { split; [apply buildContentType_same|].
    apply (proj1 (proj2 (proj2 (buildContentType_same fn p3)))). }
  destruct Hq as ((_&_&_&_&_&Hfnq&_&_&Hmdq&_) & Hdq).
  split; [|split].
  - intros Hd.
    destruct (buildDisposition_declares q) as [Hh Hf]; [congruence|].
    rewrite Hfnq in Hh, Hf. fold fn in Hh, Hf.
    split; [exact Hh|]. rewrite Hf, Hdq, Hd3. f_equal.
    unfold dispositionParams. rewrite Hfnq, Hmdq, Hfn3, Hmd3. reflexivity.
  - intros Hc.
    rewrite (proj2 (proj2 (buildDisposition_same fn q))) by discriminate.
    unfold q.
    rewrite (proj2 (proj2 (proj2 (buildContentType_same fn p3)))) by discriminate.
    assert (H2 : ContentID (generateBoundary
                  (determineEncoding (clearContentEncoding p) hint).1)
                 = ContentID p).
    { assert (Hs : sameSource p (generateBoundary
                     (determineEncoding (clearContentEncoding p) hint).1)).
      { eapply sameSource_trans; [apply clearContentEncoding_same|].
        eapply sameSource_trans; [apply (determineEncoding_same _ hint)|].
        apply generateBoundary_same. }
      apply Hs. }
    unfold p3. rewrite setContentID_declares by (rewrite H2; exact Hc).
    rewrite H2. reflexivity.
  - intros Hn. split.
    + unfold typeParams. fold q in Hfn. rewrite Hfn.
      destruct (String.eqb_spec (encodeWord (FileName p)) "") as [He|_];
        [contradiction|].
      unfold setParamValue at 1.
      destruct (String.eqb (Boundary _) "");
        [|rewrite lookup_insert_ne by discriminate];
        unfold setParamValue at 1;
        (destruct (String.eqb_spec (encodeWord (FileName p)) "") as [He|_];
         [contradiction|apply lookup_insert_eq]).
    + unfold dispositionParams.
      assert (Hf : setParamValue ∅ hpFilename (encodeWord (FileName p)) !! hpFilename
                   = Some (encodeWord (FileName p))).
      { unfold setParamValue.
        destruct (String.eqb_spec (encodeWord (FileName p)) "") as [He|_];
          [contradiction|apply lookup_insert_eq]. }
      destruct (negb (FileModDate p =? 0)); [|exact Hf].
      unfold setParamValue at 1.
      destruct (String.eqb (FormatRFC822 _) ""); [exact Hf|].
      rewrite lookup_insert_ne by discriminate. exact Hf.
Qed.

End Disposition.

Lemma setupMIMEHeaders_disposition_witness :
  Disposition attachmentPart <> ""%string /\
  ContentID attachmentPart <> ""%string /\
  Header (@setupMIMEHeaders plainCollaborators attachmentPart TeAuto).1
    !! "Content-Id"%string
  = Some [@ToIDHeader plainCollaborators (ContentID attachmentPart)].
Proof.
  assert (Hc : ContentID attachmentPart <> ""%string) by discriminate.
  split; [discriminate|]. split; [exact Hc|].
  exact (proj1 (proj2 (@setupMIMEHeaders_disposition plainCollaborators
                         attachmentPart TeAuto)) Hc).
Defined.

(** ** Encoding without a reader *)

Lemma buffered_eq (p : Part) :
  buffered p <->
  ContentReader p = None /\
  match FirstChild p with Some c => buffered c | None => True end /\
  match NextSibling p with Some s => buffered s | None => True end.
Proof. destruct p; reflexivity. Qed.

Section Buffered.
Context `{!Collaborators}.
Hypothesis Hwrap : wrapKeepsKey.

Lemma emitLines_ok (ls : list (string * string * string)) (lf : bool) :
  exists out, emitLines ls lf = Ok out.
Proof.
  induction ls as [|[[k v] nl] ls [out IH]]; simpl; [eauto|].
  unfold headerLine.
  destruct (Nat.ltb_spec (S (String.length k))
              (length (Wrap 76 SP lf [k; ":_"; encodeWord v; nl]))) as [_|Hbad].
  - cbn [mbind result_bind]. rewrite IH. cbn [mbind result_bind]. eauto.
  - pose proof (Hwrap lf k (encodeWord v) nl). lia.
Qed.

Lemma encodeHead_ok (p : Part) (hint : TransferEncoding) (lf : bool) :
  ContentReader p = None ->
  exists p' head, encodeHead p hint lf = Ok (p', head).
Proof.
  intros Hr. rewrite encodeHead_eq. unfold probe. rewrite Hr.
  cbn [mbind result_bind].
  unfold encodeHeader, encodeHeaderFrom. rewrite encodeKeys_emit.
  destruct (emitLines_ok (keyLines (Header (setupMIMEHeaders p hint).1)
              (sortStrings (map_to_list (Header (setupMIMEHeaders p hint).1)).*1)
              lf lf) lf) as [hdr ->].
  cbn [mbind result_bind].
  assert (Hb : exists body,
             (if (0 <? length (Content p))%nat
              then encodeContent (setupMIMEHeaders p hint).1
                     (setupMIMEHeaders p hint).2 lf
              else Ok []) = Ok body).
  { destruct (0 <? length (Content p))%nat; [|eauto].
    unfold encodeContent.
    destruct (setupMIMEHeaders_sameSource p hint) as (_ & -> & _).
    rewrite Hr.
    destruct (match parser _ with Some _ => _ | None => _ end); eauto. }
  destruct Hb as [body ->]. cbn [mbind result_bind]. eauto.
Qed.

Lemma EncodeCustom_buffered (hint : TransferEncoding) (lf : bool) (p : Part) :
  buffered p ->
  (exists out, EncodeCustom p hint lf = Ok out) /\
  (forall mark, exists out, encodeSiblings p mark hint lf = Ok out).
Proof.
  induction p as [p IHc IHs] using Part_tree_ind.
  intros Hb. apply buffered_eq in Hb. destruct Hb as (Hr & Hfc & Hns).
  assert (He : exists out, EncodeCustom p hint lf = Ok out).
  { rewrite EncodeCustom_eq.
    destruct (encodeHead_ok p hint lf Hr) as (p' & head & ->).
    cbn [mbind result_bind].
    destruct (FirstChild p) as [c|]; [|eauto].
    destruct (IHc c eq_refl Hfc) as [_ Hsib].
    destruct (Hsib (marker (Boundary p') lf)) as [kids ->].
    cbn [mbind result_bind]. eauto. }
  split; [exact He|].
  intros mark. rewrite encodeSiblings_eq.
  destruct He as [out ->]. cbn [mbind result_bind].
  destruct (NextSibling p) as [s|].
  - destruct (IHs s eq_refl Hns) as [_ Hsib].
    destruct (Hsib mark) as [rest ->]. cbn [mbind result_bind]. eauto.
  - cbn [mbind result_bind]. eauto.
Qed.

End Buffered.

(** X26: as long as the writer accepts what it is given (its errors are
    not part of this development), an encoding in which no part of the
    tree has a content reader and in which the line folder returns lines
    longer than the field name and its colon, so that [wb[len(k)+1]]
    exists, runs to its end and returns the bytes written, for every hint
    and mode. *)
Theorem EncodeCustom_buffered_succeeds `{!Collaborators} (p : Part)
    (hint : TransferEncoding) (lf : bool) :
  wrapKeepsKey -> buffered p ->
  exists out, EncodeCustom p hint lf = Ok out.
Proof. intros Hw Hb. apply (EncodeCustom_buffered Hw hint lf p Hb). Qed.

Lemma bytes_of_length (s : string) : length (bytes_of s) = String.length s.
Proof. induction s as [|a s IH]; simpl; [reflexivity|]. f_equal. exact IH. Qed.

Lemma plainCollaborators_wrapKeepsKey : @wrapKeepsKey plainCollaborators.
Proof.
  intros lf k v nl. cbn [Wrap plainCollaborators map concat].
  rewrite !length_app, bytes_of_length. cbn [bytes_of]. simpl length. lia.
Qed.

Lemma EncodeCustom_buffered_succeeds_witness :
  buffered scenarioD /\
  exists out, @EncodeCustom plainCollaborators scenarioD TeAuto false = Ok out.
Proof.
  assert (Hb : buffered scenarioD) by (vm_compute; tauto).
  split; [exact Hb|].
  apply (@EncodeCustom_buffered_succeeds plainCollaborators scenarioD TeAuto false
           plainCollaborators_wrapKeepsKey Hb).
Defined.

(** ** More on quoted-printable bodies *)

Lemma hexdigit_clean (n : Z) : 0 <= n < 16 -> isControl (hexdigit n) = false.
Proof.
  intros Hn. rewrite <- (Z2Nat.id n) by lia.
  assert (Hm : (Z.to_nat n < 16)%nat) by lia.
  revert Hm. generalize (Z.to_nat n). intros m Hm.
  do 16 (destruct m as [|m]; [reflexivity|]). lia.
Qed.

Lemma literal_clean (b : byte) :
  qpLiteral b = true -> isLineBreak b = false -> isControl b = false.
Proof.
  unfold qpLiteral, isWhitespace, isControl. intros Hl Hb.
  rewrite Hb, orb_false_r in Hl.
  apply orb_true_iff in Hl. destruct Hl as [Hl|Hl].
  - apply andb_true_iff in Hl. destruct Hl as [Hl _].
    apply andb_true_iff in Hl. destruct Hl as [H1 H2].
    apply Z.leb_le in H1, H2.
    destruct (Z.ltb_spec (val b) 32); [lia|].
    destruct (Z.ltb_spec 126 (val b)); [lia|]. reflexivity.
  - apply orb_true_iff in Hl.
    destruct Hl as [Hl|Hl]; apply Byte.byte_dec_bl in Hl; subst b; reflexivity.
Qed.

Lemma terminated_snoc (ls : list bytes) (l : bytes) (lf : bool) :
  terminated (ls ++ [l]) lf = terminated ls lf ++ l ++ lineEnd lf.
Proof.
  unfold terminated. rewrite map_app, concat_app. cbn [map concat].
  rewrite app_nil_r. reflexivity.
Qed.

Lemma qpShape_insertCRLF (w : qpWriter) :
  (exists ls, qout w = terminated ls false /\ Forall cleanLine ls) ->
  cleanLine (qline w) ->
  qpShape (qpInsertCRLF w) /\ qline (qpInsertCRLF w) = [].
Proof.
  intros (ls & Ho & Hls) Hl. unfold qpShape, qpInsertCRLF, qpFlush.
  cbn [qout qline]. split; [|reflexivity].
  split; [|split; [constructor|simpl; lia]].
  exists (ls ++ [qline w]). split.
  - rewrite terminated_snoc, Ho. reflexivity.
  - apply Forall_app. split; [exact Hls|]. constructor; [exact Hl|constructor].
Qed.

Lemma qpShape_soft (w : qpWriter) :
  qpShape w ->
  qpShape (qpInsertSoftLineBreak w) /\ qline (qpInsertSoftLineBreak w) = [].
Proof.
  intros (Ho & Hl & Hn). unfold qpInsertSoftLineBreak.
  apply qpShape_insertCRLF; cbn [qout qline]; [exact Ho|].
  split.
  - apply Forall_app. split; [exact Hl|]. constructor; [reflexivity|constructor].
  - rewrite length_app. simpl. lia.
Qed.

Lemma qpShape_encode (b : byte) (w : qpWriter) :
  qpShape w -> qpShape (qpEncode b w).
Proof.
  intros Hw. unfold qpEncode.
  destruct (nibbles b) as (Hhi & Hlo & _).
  assert (Hhex : Forall (fun x => isControl x = false)
                   [EQ; hexdigit (Z.shiftr (val b) 4); hexdigit (Z.land (val b) 15)]).
  { repeat constructor; apply hexdigit_clean; assumption. }
  destruct (Z.ltb_spec (lineMaxLen - 1 - Z.of_nat (length (qline w))) 3) as [Hfull|Hroom].
  - destruct (qpShape_soft w Hw) as [(Ho & _ & _) Hnil].
    unfold qpShape. cbn [qout qline]. rewrite Hnil.
    split; [exact Ho|]. split; [exact Hhex|simpl; lia].
  - destruct Hw as (Ho & Hl & Hn). unfold qpShape. cbn [qout qline].
    split; [exact Ho|]. split.
    + apply Forall_app. split; [exact Hl|exact Hhex].
    + rewrite length_app. unfold lineMaxLen in Hroom. simpl. lia.
Qed.

Lemma qpShape_check (w : qpWriter) : qpShape w -> qpShape (qpCheckLastByte w).
Proof.
  intros Hw. unfold qpCheckLastByte.
  destruct (List.rev (qline w)) as [|b front] eqn:Hrev; [exact Hw|].
  destruct (isWhitespace b); [|exact Hw].
  apply qpShape_encode.
  assert (Hq : qline w = List.rev front ++ [b]).
  { rewrite <- (rev_involutive (qline w)), Hrev. reflexivity. }
  destruct Hw as (Ho & Hl & Hn). unfold qpShape. cbn [qout qline].
  rewrite Hq in Hl, Hn. apply Forall_app in Hl. rewrite length_app in Hn.
  split; [exact Ho|]. split; [apply Hl|lia].
Qed.

Lemma qpShape_writeByte (b : byte) (w : qpWriter) :
  qpLiteral b = true -> qpShape w -> qpShape (qpWriteByte b w).
Proof.
  intros Hlit Hw. unfold qpWriteByte.
  destruct (isLineBreak b) eqn:Hb.
  - destruct (qcr w && Byte.eqb b LF); [exact Hw|].
    assert (Hw' : qpShape (if Byte.eqb b CR then mkQP (qline w) true (qout w) else w)).
    { destruct (Byte.eqb b CR); exact Hw. }
    apply qpShape_check in Hw'. destruct Hw' as (Ho & Hl & Hn).
    apply qpShape_insertCRLF; [exact Ho|]. split; [exact Hl|lia].
  - pose proof (literal_clean b Hlit Hb) as Hclean.
    destruct (Z.eqb_spec (Z.of_nat (length (qline w))) (lineMaxLen - 1)) as [Hfull|Hroom].
    + destruct (qpShape_soft w Hw) as [(Ho & _ & _) Hnil].
      unfold qpShape. cbn [qout qline]. rewrite Hnil.
      split; [exact Ho|]. split; [repeat constructor; exact Hclean|simpl; lia].
    + destruct Hw as (Ho & Hl & Hn). unfold qpShape. cbn [qout qline].
      split; [exact Ho|]. split.
      * apply Forall_app. split; [exact Hl|]. repeat constructor. exact Hclean.
      * rewrite length_app. unfold lineMaxLen in Hroom. simpl. lia.
Qed.

Lemma qpShape_write (p : bytes) (w : qpWriter) :
  qpShape w -> qpShape (qpWrite p w).
Proof.
  revert w. induction p as [|b p IH]; intros w Hw; [exact Hw|].
  cbn [qpWrite]. apply IH.
  destruct (qpLiteral b) eqn:Hlit.
  - apply qpShape_writeByte; assumption.
  - apply qpShape_encode. exact Hw.
Qed.

Lemma quotedprintable_Encode_lines (c : bytes) :
  exists ls last,
    quotedprintable_Encode c = terminated ls false ++ last /\
    Forall cleanLine (ls ++ [last]).
Proof.
  assert (H0 : qpShape qpNewWriter).
  { split; [exists []; split; [reflexivity|constructor]|].
    split; [constructor|simpl; lia]. }
  pose proof (qpShape_check _ (qpShape_write c _ H0)) as ((ls & Ho & Hls) & Hl & Hn).
  exists ls, (qline (qpCheckLastByte (qpWrite c qpNewWriter))).
  unfold quotedprintable_Encode, qpClose, qpFlush. cbn [qout].
  rewrite Ho. split; [reflexivity|].
  apply Forall_app. split; [exact Hls|].
  constructor; [|constructor]. split; [exact Hl|lia].
Qed.

Lemma clean_not_CR (b : byte) : isControl b = false -> Byte.eqb b CR = false.
Proof.
  intros Hb. destruct (Byte.eqb b CR) eqn:E; [|reflexivity].
  apply Byte.byte_dec_bl in E. subst b. discriminate Hb.
Qed.

Lemma replaceCRLF_clean (l rest : bytes) :
  Forall (fun b => isControl b = false) l ->
  replaceCRLF (l ++ rest) = l ++ replaceCRLF rest.
Proof.
  induction 1 as [|b l Hb _ IH]; [reflexivity|].
  cbn [app]. rewrite replaceCRLF_cons by (apply clean_not_CR; exact Hb).
  rewrite IH. reflexivity.
Qed.

Lemma replaceCRLF_terminated (ls : list bytes) (last : bytes) :
  Forall cleanLine (ls ++ [last]) ->
  replaceCRLF (terminated ls false ++ last) = terminated ls true ++ last.
Proof.
  unfold terminated. induction ls as [|l ls IH]; intros Hall.
  - cbn [map concat app] in *. inversion Hall as [|? ? [Hl _] _]; subst.
    rewrite <- (app_nil_r last) at 1.
    rewrite replaceCRLF_clean by exact Hl. rewrite app_nil_r. reflexivity.
  - cbn [map concat app] in *. inversion Hall as [|? ? [Hl _] Hrest]; subst.
    rewrite <- !app_assoc. rewrite replaceCRLF_clean by exact Hl.
    f_equal. change (lineEnd false) with [CR; LF]. change (lineEnd true) with [LF].
    cbn [app]. change (replaceCRLF (CR :: LF :: ?x)) with (LF :: replaceCRLF x).
    f_equal. apply IH. exact Hrest.
Qed.

(** X27: the quoted-printable body [encodeContent] writes for buffered
    content consists of lines of at most 76 bytes, all of them printable
    ASCII or tabs, each followed by the line terminator of the mode, and a
    last line of the same kind without terminator.  In LF mode the body
    thus holds no CR at all, and in neither mode a byte that
    [selectTransferEncoding] would count. *)
Theorem encodeContent_quoted_lines (p : Part) (useLF : bool) :
  ContentReader p = None -> notRaw p ->
  exists ls last,
    encodeContent p TeQuoted useLF = Ok (terminated ls useLF ++ last) /\
    Forall cleanLine (ls ++ [last]).
Proof.
  intros Hr Hraw.
  destruct (quotedprintable_Encode_lines (Content p)) as (ls & last & He & Hall).
  exists ls, last. split; [|exact Hall].
  assert (Hq : encodeContent p TeQuoted useLF = Ok (encodeQuoted (Content p) useLF)).
  { unfold encodeContent. rewrite Hr.
    unfold notRaw in Hraw. destruct (parser p) as [ps|]; [|reflexivity].
    rewrite Hraw. reflexivity. }
  rewrite Hq. f_equal. unfold encodeQuoted. rewrite He.
  destruct useLF; [|reflexivity].
  apply replaceCRLF_terminated. exact Hall.
Qed.

Lemma encodeContent_quoted_lines_witness :
  notRaw binaryPart /\
  exists ls last,
    encodeContent binaryPart TeQuoted true = Ok (terminated ls true ++ last) /\
    Forall cleanLine (ls ++ [last]).
Proof.
  assert (Hraw : notRaw binaryPart) by exact I.
  split; [exact Hraw|].
  exact (encodeContent_quoted_lines binaryPart true eq_refl Hraw).
Defined.

(** ** Encoded bodies under the encoding selector *)

Lemma clean_not_qualifying (b : byte) :
  isControl b = false -> qualifying false b = false /\ isLineBreak b = false.
Proof.
  intros Hb. unfold qualifying. rewrite Hb. split; [reflexivity|].
  destruct (isLineBreak b) eqn:E; [|reflexivity].
  apply isLineBreak_isControl in E. congruence.
Qed.

Lemma splitLines_line (cur l rest : bytes) (b : byte) :
  Forall (fun x => isControl x = false) l -> isLineBreak b = true ->
  splitLines cur (l ++ b :: rest) = (cur ++ l) :: splitLines [] rest.
Proof.
  intros Hl Hb. revert cur. induction Hl as [|x l Hx _ IH]; intros cur.
  - cbn [app splitLines]. rewrite Hb, app_nil_r. reflexivity.
  - cbn [app splitLines].
    rewrite (proj2 (clean_not_qualifying x Hx)), IH, <- app_assoc. reflexivity.
Qed.

Lemma body_is_7bit (ls : list bytes) (last : bytes) (lf : bool) :
  Forall cleanLine (ls ++ [last]) ->
  selectTransferEncoding (terminated ls lf ++ last) false = Te7Bit.
Proof.
  intros Hall. apply selectTransferEncoding_7bit_tally. split.
  - apply tally_zero. unfold terminated.
    induction ls as [|l ls IH]; cbn [map concat app] in *;
      inversion Hall as [|? ? [Hl _] Hrest]; subst.
    + eapply Forall_impl; [exact Hl|]. intros b Hb.
      apply clean_not_qualifying. exact Hb.
    + rewrite <- !app_assoc. apply Forall_app. split.
      * eapply Forall_impl; [exact Hl|]. intros b Hb.
        apply clean_not_qualifying. exact Hb.
      * apply Forall_app. split; [destruct lf; repeat constructor|].
        apply IH. exact Hrest.
  - unfold shortLines, lines, terminated.
    induction ls as [|l ls IH]; cbn [map concat app] in *;
      inversion Hall as [|? ? [Hl Hn] Hrest]; subst.
    + rewrite splitLines_plain.
      * constructor; [simpl; lia|constructor].
      * eapply Forall_impl; [exact Hl|]. intros b Hb.
        apply clean_not_qualifying. exact Hb.
    + rewrite <- !app_assoc. destruct lf.
      * change (lineEnd true) with [LF]. cbn [app].
        rewrite splitLines_line by (try exact Hl; reflexivity).
        constructor; [simpl; lia|]. apply IH. exact Hrest.
      * change (lineEnd false) with [CR; LF]. cbn [app].
        rewrite splitLines_line by (try exact Hl; reflexivity).
        constructor; [simpl; lia|].
        cbn [splitLines]. change (isLineBreak LF) with true. cbv iota.
        constructor; [simpl; lia|]. apply IH. exact Hrest.
Qed.

Lemma fullButLast_length (ls : list bytes) :
  fullButLast ls -> Forall (fun l => (length l <= 76)%nat) ls.
Proof.
  induction ls as [|l ls IH]; [constructor|].
  cbn [fullButLast]. destruct ls as [|l' ls'].
  - intros Hl. constructor; [lia|constructor].
  - intros [Hl Hrest]. constructor; [lia|]. apply IH. exact Hrest.
Qed.

(** X28: what [encodeContent] writes as a Base64 or quoted-printable body
    is 7-bit text by the measure of [selectTransferEncoding] itself: on
    the encoded body, line breaks not counted, the selector answers
    [Te7Bit], in both line-ending modes and for every content. *)
Theorem encoded_body_is_7bit (c : bytes) (useLF : bool) :
  selectTransferEncoding (encodeBase64 c useLF) false = Te7Bit /\
  selectTransferEncoding (encodeQuoted c useLF) false = Te7Bit.
Proof.
  split.
  - unfold encodeBase64.
    destruct (wrapLines_lines (length (base64_Encode c)) (base64_Encode c) useLF)
      as (ls & -> & Hc & Hf); [lia|].
    rewrite <- (app_nil_r (terminated ls useLF)). apply body_is_7bit.
    apply Forall_app. split; [|repeat constructor; simpl; lia].
    pose proof (base64_Encode_clean c) as Hclean. rewrite <- Hc in Hclean.
    apply fullButLast_length in Hf. clear Hc.
    induction ls as [|l ls IH]; [constructor|].
    cbn [concat] in Hclean. apply Forall_app in Hclean.
    destruct Hclean as [Hl Hrest].
    inversion Hf as [|? ? Hn Hns]; subst.
    constructor; [split; [exact Hl|exact Hn]|].
    apply IH; [exact Hns|exact Hrest].
  - destruct (quotedprintable_Encode_lines c) as (ls & last & He & Hall).
    unfold encodeQuoted. rewrite He. destruct useLF.
    + rewrite replaceCRLF_terminated by exact Hall.
      apply body_is_7bit. exact Hall.
    + apply body_is_7bit. exact Hall.
Qed.

(** ** Line breaks in quoted-printable content *)

Lemma qpWrite_app (a b : bytes) (w : qpWriter) :
  qpWrite (a ++ b) w = qpWrite b (qpWrite a w).
Proof.
  revert w. induction a as [|x a IH]; intros w; [reflexivity|].
  cbn [app qpWrite]. apply IH.
Qed.

(** The writer's steps other than [write] neither read nor change
    [w.cr]. *)
Lemma qpInsertCRLF_cr (l o : bytes) (cr : bool) :
  qpInsertCRLF (mkQP l cr o)
  = mkQP (qline (qpInsertCRLF (mkQP l false o))) cr
         (qout (qpInsertCRLF (mkQP l false o))).
Proof. reflexivity. Qed.

Lemma qpEncode_cr (b : byte) (l o : bytes) (cr : bool) :
  qpEncode b (mkQP l cr o)
  = mkQP (qline (qpEncode b (mkQP l false o))) cr
         (qout (qpEncode b (mkQP l false o))).
Proof.
  unfold qpEncode. cbn [qline].
  destruct (lineMaxLen - 1 - Z.of_nat (length l) <? 3); reflexivity.
Qed.

Lemma qpCheckLastByte_cr (l o : bytes) (cr : bool) :
  qpCheckLastByte (mkQP l cr o)
  = mkQP (qline (qpCheckLastByte (mkQP l false o))) cr
         (qout (qpCheckLastByte (mkQP l false o))).
Proof.
  unfold qpCheckLastByte. cbn [qline qcr qout].
  destruct (List.rev l) as [|b front]; [reflexivity|].
  destruct (isWhitespace b); [|reflexivity].
  apply qpEncode_cr.
Qed.

Lemma qpEncode_qcr (b : byte) (w : qpWriter) : qcr (qpEncode b w) = qcr w.
Proof. destruct w as [l cr o]. rewrite qpEncode_cr. reflexivity. Qed.

Lemma qpBreak_cr (l o : bytes) (cr : bool) :
  qpInsertCRLF (qpCheckLastByte (mkQP l cr o))
  = mkQP (qline (qpInsertCRLF (qpCheckLastByte (mkQP l false o)))) cr
         (qout (qpInsertCRLF (qpCheckLastByte (mkQP l false o)))).
Proof.
  rewrite qpCheckLastByte_cr.
  destruct (qpCheckLastByte (mkQP l false o)) as [l' cr' o'].
  cbn [qline qout]. apply qpInsertCRLF_cr.
Qed.

Lemma qpWriteByte_qcr (x : byte) (w : qpWriter) :
  x <> CR -> qcr w = false -> qcr (qpWriteByte x w) = false.
Proof.
  intros Hx Hw. destruct w as [l cr o]. cbn [qcr] in Hw. subst cr.
  unfold qpWriteByte. cbn [qcr andb].
  destruct (isLineBreak x); [|reflexivity].
  destruct (Byte.eqb x CR) eqn:E; [apply Byte.byte_dec_bl in E; contradiction|].
  rewrite qpBreak_cr. reflexivity.
Qed.

Lemma qpWrite_qcr (a : bytes) (w : qpWriter) :
  Forall (fun x => x <> CR) a -> qcr w = false -> qcr (qpWrite a w) = false.
Proof.
  intros Ha. revert w. induction Ha as [|x a Hx _ IH]; intros w Hw; [exact Hw|].
  cbn [qpWrite]. apply IH. destruct (qpLiteral x).
  - apply qpWriteByte_qcr; assumption.
  - rewrite qpEncode_qcr. exact Hw.
Qed.

Lemma qpWriteByte_CR (l o : bytes) :
  qpWriteByte CR (mkQP l false o)
  = mkQP (qline (qpWriteByte LF (mkQP l false o))) true
         (qout (qpWriteByte LF (mkQP l false o))).
Proof.
  unfold qpWriteByte. change (isLineBreak CR) with true.
  change (isLineBreak LF) with true. cbn [qcr andb].
  change (Byte.eqb CR CR) with true. change (Byte.eqb LF CR) with false.
  cbv iota. cbn [qline qout]. apply qpBreak_cr.
Qed.

(** X3, in general: the quoted-printable writer is not in binary mode, so
    in content a CRLF and a bare LF give the same body, and so do a final
    CR and a final LF, in both line-ending modes: neither the body nor any
    decoder of it can tell which line breaks the content had. *)
Theorem encodeQuoted_collapses_line_breaks (a b : bytes) (useLF : bool) :
  Forall (fun x => x <> CR) a ->
  encodeQuoted (a ++ CR :: LF :: b) useLF = encodeQuoted (a ++ LF :: b) useLF /\
  encodeQuoted (a ++ [CR]) useLF = encodeQuoted (a ++ [LF]) useLF.
Proof.
  intros Ha.
  pose proof (qpWrite_qcr a qpNewWriter Ha eq_refl) as Hcr.
  assert (He : quotedprintable_Encode (a ++ CR :: LF :: b)
               = quotedprintable_Encode (a ++ LF :: b) /\
               quotedprintable_Encode (a ++ [CR]) = quotedprintable_Encode (a ++ [LF])).
  { unfold quotedprintable_Encode. rewrite !qpWrite_app.
    destruct (qpWrite a qpNewWriter) as [l cr o]. cbn [qcr] in Hcr. subst cr.
    cbn [qpWrite]. change (qpLiteral CR) with true. change (qpLiteral LF) with true.
    cbv iota. rewrite qpWriteByte_CR.
    destruct (qpWriteByte LF (mkQP l false o)) as [l' cr' o'] eqn:Hw.
    assert (Hcr' : cr' = false).
    { change cr' with (qcr (mkQP l' cr' o')). rewrite <- Hw.
      apply qpWriteByte_qcr; [discriminate|reflexivity]. }
    subst cr'. cbn [qline qout]. split.
    - reflexivity.
    - unfold qpClose. rewrite qpCheckLastByte_cr. reflexivity. }
  unfold encodeQuoted. destruct He as [-> ->]. split; reflexivity.
Qed.

Lemma encodeQuoted_collapses_line_breaks_witness :
  Forall (fun x => x <> CR) (bytes_of "ab") /\
  encodeQuoted (bytes_of "ab" ++ CR :: LF :: bytes_of "cd") false
  = encodeQuoted (bytes_of "ab" ++ LF :: bytes_of "cd") false.
Proof.
  assert (Ha : Forall (fun x => x <> CR) (bytes_of "ab"))
    by (repeat constructor; discriminate).
  split; [exact Ha|].
  exact (proj1 (encodeQuoted_collapses_line_breaks (bytes_of "ab") (bytes_of "cd")
                  false Ha)).
Defined.
